(** * Text-pattern analyzer (IGI/I_LR4/Task2): a shallow embedding and its properties

    The development follows the Python modules that implement the text
    analyzer:

    - [base_analyzer.py] / [text_analyzer.py]: class [TextAnalyzer] (validated
      constructor, cached sentence list, eleven metrics gathered by [analyze]);
    - [Task2.py]: classes [BasicTextAnalyzer] and [AdvancedTextAnalyzer], which
      store their metrics in the dictionary [_results]; of class
      [UserInterface], the loops that read the console ([get_user_choice],
      [input_text]) as functions of the lines typed;
    - [file_handler.py]: [select_file] and [read_text_file], over the lines
      typed and over the files that exist.

    The analyzers are written on top of Python's [re] module, so the first part of the
    file is an executable backtracking matcher with the constructs the source
    patterns use (classes, greedy and lazy repetition, capture groups,
    back-references, [\b], [^], [$], negative look-ahead) and the scanning
    loops of [re.search], [re.finditer], [re.findall], [re.sub] and [re.split].

    Characters.  A Python [str] is modelled as a list of [ascii], read as the
    code points U+0000 .. U+00FF.  On that range the Unicode classes used by
    [re] ([\w], [\s]) and by [str.strip] / [str.lower] are written out in full.
    The Cyrillic ranges of the source's classes are kept as code-point ranges
    (no character below U+0100 lies in them). *)

From Stdlib Require Import Ascii String NArith ZArith.
From stdpp Require Import base list strings gmap.

Set Default Proof Using "Type".
Open Scope list_scope.

(** A Python string. *)
Abbreviation str := (list ascii).

(** String literals of the source, as lists of characters. *)
Definition lit (s : string) : str := list_ascii_of_string s.

(* ===================================================================== *)
(** ** Characters *)
(* ===================================================================== *)

Module Char.

(** The code point of a character. *)
Definition code (c : ascii) : N := N_of_ascii c.

(** [lo-hi] inside a character class, both ends given as characters. *)
Definition between (lo hi c : ascii) : bool :=
  ((code lo <=? code c) && (code c <=? code hi))%N.

(** [lo-hi] inside a character class, both ends given as code points. *)
Definition between_cp (lo hi : N) (c : ascii) : bool :=
  ((lo <=? code c) && (code c <=? hi))%N.

(** One of the characters of [set]. *)
Definition one_of (set : string) (c : ascii) : bool :=
  existsb (Ascii.eqb c) (list_ascii_of_string set).

Definition is_lower_az : ascii -> bool := between "a" "z".
Definition is_upper_az : ascii -> bool := between "A" "Z".
Definition is_digit09 : ascii -> bool := between "0" "9".

(** [str.isspace] and [\s] on U+0000..U+00FF: TAB, LF, VT, FF, CR, the
    separators U+001C..U+001F, SPACE, NEL (U+0085) and NBSP (U+00A0). *)
Definition is_space (c : ascii) : bool :=
  between_cp 9 13 c || between_cp 28 31 c ||
  (code c =? 32)%N || (code c =? 133)%N || (code c =? 160)%N.

(** Alphabetic or numeric (what [\w] accepts besides the underscore) on
    U+0000..U+00FF: the ASCII letters and digits, the letters of Latin-1
    (U+00AA, U+00B5, U+00BA, U+00C0..U+00FF without the two operator signs
    U+00D7 and U+00F7), and its numeric characters (superscripts 1-3 and the
    three vulgar fractions). *)
Definition is_alnum (c : ascii) : bool :=
  is_lower_az c || is_upper_az c || is_digit09 c ||
  (code c =? 170)%N || (code c =? 181)%N || (code c =? 186)%N ||
  (between_cp 192 255 c && negb (code c =? 215)%N && negb (code c =? 247)%N) ||
  (code c =? 178)%N || (code c =? 179)%N || (code c =? 185)%N ||
  between_cp 188 190 c.

(** [\w]. *)
Definition is_word (c : ascii) : bool := is_alnum c || Ascii.eqb c "_".

(** One character of [str.lower]: on U+0000..U+00FF the upper-case letters
    are A-Z and U+00C0..U+00DE without U+00D7; each maps 32 places up. *)
Definition lower (c : ascii) : ascii :=
  if is_upper_az c || (between_cp 192 222 c && negb (code c =? 215)%N)
  then ascii_of_N (code c + 32) else c.

End Char.

(* ===================================================================== *)
(** ** Python string methods *)
(* ===================================================================== *)

Module PyStr.

(** [s.lstrip()]. *)
Fixpoint lstrip (s : str) : str :=
  match s with
  | c :: s' => if Char.is_space c then lstrip s' else s
  | [] => []
  end.

(** [s.rstrip()]. *)
Definition rstrip (s : str) : str := rev (lstrip (rev s)).

(** [s.strip()]. *)
Definition strip (s : str) : str := lstrip (rstrip s).

(** [s.lower()]. *)
Definition lower (s : str) : str := map Char.lower s.

(** Truth value of a string: non-empty. *)
Definition truthy (s : str) : bool :=
  match s with [] => false | _ :: _ => true end.

(** [s.endswith(c)] for a one-character suffix. *)
Definition endswith (s : str) (c : ascii) : bool :=
  match last s with Some d => Ascii.eqb d c | None => false end.

(** [s.startswith(c)] for a one-character prefix. *)
Definition startswith (s : str) (c : ascii) : bool :=
  match s with d :: _ => Ascii.eqb d c | [] => false end.

(** [w] is a prefix of [s]; gives what follows it. *)
Fixpoint strip_prefix (w s : str) : option str :=
  match w, s with
  | [], _ => Some s
  | a :: w', b :: s' => if Ascii.eqb a b then strip_prefix w' s' else None
  | _ :: _, [] => None
  end.

(** Every character satisfies [p]. *)
Definition all (p : ascii -> bool) (s : str) : bool := forallb p s.

End PyStr.

(* ===================================================================== *)
(** ** The [re] module *)
(* ===================================================================== *)

Module Re.

(** Abstract syntax of the patterns. *)
Inductive regex : Type :=
| Eps                                  (* empty pattern *)
| Chr (p : ascii -> bool)              (* a literal, a class, an escape class *)
| Seq (r1 r2 : regex)                  (* r1 r2 *)
| Alt (r1 r2 : regex)                  (* r1|r2 *)
| Star (greedy : bool) (r : regex)     (* r* and r*? *)
| Group (n : nat) (r : regex)          (* the n-th capturing group *)
| Backref (n : nat)                    (* \n *)
| WordB                                (* \b *)
| Bol                                  (* ^ *)
| Eol                                  (* $ *)
| NegLook (r : regex).                 (* (?!r) *)

(** [r+], [r+?]. *)
Definition Plus (greedy : bool) (r : regex) : regex := Seq r (Star greedy r).
(** [r?] (greedy). *)
Definition Opt (r : regex) : regex := Alt r Eps.
(** [r{2,}] (greedy). *)
Definition AtLeast2 (r : regex) : regex := Seq r (Seq r (Star true r)).
(** A literal character. *)
Definition Lit (c : ascii) : regex := Chr (Ascii.eqb c).
(** A sequence of literal characters. *)
Fixpoint Lits (s : str) : regex :=
  match s with
  | [] => Eps
  | [c] => Lit c
  | c :: s' => Seq (Lit c) (Lits s')
  end.

(** Number of capturing groups of a pattern. *)
Fixpoint ngroups (r : regex) : nat :=
  match r with
  | Seq r1 r2 | Alt r1 r2 => ngroups r1 `max` ngroups r2
  | Star _ r1 | NegLook r1 => ngroups r1
  | Group n r1 => n `max` ngroups r1
  | _ => 0
  end.

(** The matcher's state: the character before the cursor (for [\b] and
    [^]), the text from the cursor on, and the groups captured so far (most
    recent first). *)
Record mstate : Type := MState {
  prev : option ascii;
  rest : str;
  caps : list (nat * str)
}.

(** The value of group [n], if it took part in the match. *)
Fixpoint cap (n : nat) (cs : list (nat * str)) : option str :=
  match cs with
  | [] => None
  | (m, w) :: cs' => if (n =? m)%nat then Some w else cap n cs'
  end.

(** State after consuming the characters [w] (in front of [l]). *)
Definition after (w : str) (l : str) (s : mstate) : mstate :=
  {| prev := match last w with Some c => Some c | None => prev s end;
     rest := l;
     caps := caps s |}.

Definition set_cap (n : nat) (w : str) (s : mstate) : mstate :=
  {| prev := prev s; rest := rest s; caps := (n, w) :: caps s |}.

Definition is_word_opt (o : option ascii) : bool :=
  match o with Some c => Char.is_word c | None => false end.

(** The text consumed between state [s] and a later state [e]. *)
Definition consumed (s e : mstate) : str :=
  take (length (rest s) - length (rest e)) (rest s).

(** The iterations of a repetition whose body is matched by [body]:
    greedy repetition tries one more iteration before leaving the loop, lazy
    repetition leaves first.  An iteration has to consume at least one
    character (every repeated sub-pattern of the source does), so [fuel],
    the length of the text left when the loop starts, bounds their number. *)
Fixpoint star_loop (body : mstate -> (mstate -> option mstate) -> option mstate)
    (greedy : bool) (k : mstate -> option mstate) (fuel : nat) (s : mstate)
  : option mstate :=
  match fuel with
  | O => k s
  | S fuel' =>
      let again :=
        body s (fun s1 =>
          if (length (rest s1) <? length (rest s))%nat
          then star_loop body greedy k fuel' s1 else None) in
      if greedy
      then match again with Some e => Some e | None => k s end
      else match k s with Some e => Some e | None => again end
  end.

(** Backtracking matcher in continuation-passing style: [exec r s k] tries
    the ways [r] can match at [s] in the order of Python's engine, hands
    each resulting state to [k], and returns the first outcome [k]
    accepts. *)
Fixpoint exec (r : regex) (s : mstate) (k : mstate -> option mstate)
  : option mstate :=
  match r with
  | Eps => k s
  | Chr p =>
      match rest s with
      | c :: l => if p c then k (after [c] l s) else None
      | [] => None
      end
  | Seq r1 r2 => exec r1 s (fun s1 => exec r2 s1 k)
  | Alt r1 r2 =>
      match exec r1 s k with
      | Some e => Some e
      | None => exec r2 s k
      end
  | Star greedy r1 => star_loop (exec r1) greedy k (length (rest s)) s
  | Group n r1 =>
      exec r1 s (fun s1 => k (set_cap n (consumed s s1) s1))
  | Backref n =>
      match cap n (caps s) with
      | Some w =>
          match PyStr.strip_prefix w (rest s) with
          | Some l => k (after w l s)
          | None => None
          end
      | None => None
      end
  | WordB =>
      if xorb (is_word_opt (prev s)) (is_word_opt (head (rest s)))
      then k s else None
  | Bol => match prev s with None => k s | Some _ => None end
  | Eol =>
      match rest s with
      | [] => k s
      | [c] => if Ascii.eqb c "010" then k s else None
      | _ => None
      end
  | NegLook r1 =>
      match exec r1 s Some with
      | Some _ => None
      | None => k s
      end
  end.

(** A match object: where it starts, the text skipped since the search
    began, the matched text, the groups, and the state at its end. *)
Record rmatch : Type := RMatch {
  m_start : nat;
  m_pre : str;
  m_text : str;
  m_caps : list (nat * str);
  m_prev : option ascii;
  m_rest : str
}.

Definition m_end (m : rmatch) : nat := m_start m + length (m_text m).

(** [m.group(n)] for [n >= 1]; [None] when the group took no part. *)
Definition group (n : nat) (m : rmatch) : option str := cap n (m_caps m).

(** The value [findall] and templates use for a group: empty when the group
    took no part. *)
Definition group_or_empty (n : nat) (m : rmatch) : str :=
  match group n m with Some w => w | None => [] end.

(** One attempt at the cursor.  [must_advance] is set after an empty match:
    the engine then refuses an empty match at the same place. *)
Definition attempt (r : regex) (must_advance : bool) (s : mstate)
  : option mstate :=
  exec r s (fun e =>
    if must_advance && (length (rest e) =? length (rest s))%nat
    then None else Some e).

(** The match object for an attempt that went from [s] to [e]. *)
Definition found (i : nat) (skipped : str) (s e : mstate) : rmatch :=
  {| m_start := i; m_pre := rev skipped; m_text := consumed s e;
     m_caps := caps e; m_prev := prev e; m_rest := rest e |}.

(** The match object with its offset and its skipped text moved by those of
    an enclosing scan. *)
Definition shifted (i : nat) (skipped : str) (m : rmatch) : rmatch :=
  {| m_start := i + m_start m; m_pre := rev skipped ++ m_pre m;
     m_text := m_text m; m_caps := m_caps m;
     m_prev := m_prev m; m_rest := m_rest m |}.

(** Leftmost match at or after the cursor: the scan of [re.search].
    [i] is the offset of the cursor and [skipped] (reversed) the text the
    scan has stepped over. *)
Fixpoint search_from (r : regex) (must_advance : bool) (i : nat)
    (skipped : str) (pv : option ascii) (l : str) : option rmatch :=
  let s := {| prev := pv; rest := l; caps := [] |} in
  match attempt r must_advance s with
  | Some e => Some (found i skipped s e)
  | None =>
      match l with
      | [] => None
      | c :: l' => search_from r false (S i) (c :: skipped) (Some c) l'
      end
  end.

(** [re.search(r, text)]. *)
Definition search (r : regex) (text : str) : option rmatch :=
  search_from r false 0 [] None text.

(** Whether the match is empty (the next search must then advance). *)
Definition is_empty (m : rmatch) : bool :=
  match m_text m with [] => true | _ => false end.

(** Enough iterations for the scanning loops: every iteration either
    consumes a character or is an empty match followed by one that is not
    at the same place. *)
Definition scan_fuel (l : str) : nat := 2 * length l + 2.

(** The successive non-overlapping matches: [re.finditer(r, text)]. *)
Fixpoint finditer_from (fuel : nat) (r : regex) (must_advance : bool)
    (i : nat) (pv : option ascii) (l : str) : list rmatch :=
  match fuel with
  | O => []
  | S fuel' =>
      match search_from r must_advance i [] pv l with
      | None => []
      | Some m =>
          m :: finditer_from fuel' r (is_empty m) (m_end m) (m_prev m) (m_rest m)
      end
  end.

Definition finditer (r : regex) (text : str) : list rmatch :=
  finditer_from (scan_fuel text) r false 0 None text.

(** [re.findall(r, text)] for a pattern with at most one group: a list of
    strings, the whole match when the pattern has no group, else the group
    (empty when it took no part). *)
Definition findall_str (r : regex) (text : str) : list str :=
  map (fun m => match ngroups r with
                | O => m_text m
                | _ => group_or_empty 1 m
                end) (finditer r text).

(** [re.findall(r, text)] for a pattern with several groups: a list of
    tuples of the groups (empty for a group that took no part). *)
Definition findall_tuples (r : regex) (text : str) : list (list str) :=
  map (fun m => map (fun j => group_or_empty j m) (seq 1 (ngroups r)))
      (finditer r text).

(** [re.sub(r, repl, text)] with the replacement given as a function of the
    match (a callable, or an expanded template). *)
Fixpoint sub_from (fuel : nat) (r : regex) (repl : rmatch -> str)
    (must_advance : bool) (pv : option ascii) (l : str) : str :=
  match fuel with
  | O => l
  | S fuel' =>
      match search_from r must_advance 0 [] pv l with
      | None => l
      | Some m =>
          m_pre m ++ repl m ++
          sub_from fuel' r repl (is_empty m) (m_prev m) (m_rest m)
      end
  end.

Definition sub (r : regex) (repl : rmatch -> str) (text : str) : str :=
  sub_from (scan_fuel text) r repl false None text.

(** [re.split(r, text)]: the pieces between the matches, each followed by
    the groups of the match that ends it ([None] for a group that took no
    part). *)
Fixpoint split_from (fuel : nat) (r : regex) (must_advance : bool)
    (pv : option ascii) (l : str) : list (option str) :=
  match fuel with
  | O => [Some l]
  | S fuel' =>
      match search_from r must_advance 0 [] pv l with
      | None => [Some l]
      | Some m =>
          Some (m_pre m) :: map (fun j => group j m) (seq 1 (ngroups r)) ++
          split_from fuel' r (is_empty m) (m_prev m) (m_rest m)
      end
  end.

Definition split (r : regex) (text : str) : list (option str) :=
  split_from (scan_fuel text) r false None text.

End Re.

Import Re.

(* ===================================================================== *)
(** ** Python values, exceptions *)
(* ===================================================================== *)

Set Warnings "-register-all".

(** The result of a true division of two integers ([a / b], a float), kept
    as the two operands: the value is a function of them.  [FZero] is the
    literal [0.0]. *)
Inductive pyfloat : Type :=
| FZero
| FDiv (a b : Z).

(** The Python values that occur as arguments and as dictionary entries. *)
Inductive pyval : Type :=
| PyNone
| PyBool (b : bool)
| PyInt (z : Z)
| PyFloat (f : pyfloat)
| PyStr (s : str)
| PyList (l : list pyval)
| PyTuple (l : list pyval)
| PyDict (d : gmap string pyval).

(** Truth value ([not v] is its negation).  A quotient is zero exactly when
    its dividend is, for the quotients of lengths that the analyzers build. *)
Definition truthy (v : pyval) : bool :=
  match v with
  | PyNone => false
  | PyBool b => b
  | PyInt z => negb (z =? 0)%Z
  | PyFloat FZero => false
  | PyFloat (FDiv a _) => negb (a =? 0)%Z
  | PyStr s => PyStr.truthy s
  | PyList l | PyTuple l => match l with [] => false | _ => true end
  | PyDict d => negb (bool_decide (d = ∅))
  end.

(** [isinstance(v, str)]. *)
Definition isinstance_str (v : pyval) : bool :=
  match v with PyStr _ => true | _ => false end.

Definition as_str (v : pyval) : option str :=
  match v with PyStr s => Some s | _ => None end.

Inductive exn : Type := ValueError | TypeError.

Inductive result (A : Type) : Type :=
| Ok (a : A)
| Raise (e : exn).
Arguments Ok {A} a.
Arguments Raise {A} e.

#[global] Instance result_ret : MRet result := fun A a => Ok a.
#[global] Instance result_bind : MBind result := fun A B f m =>
  match m with Ok a => f a | Raise e => Raise e end.

Definition PyLen {A} (l : list A) : pyval := PyInt (Z.of_nat (length l)).

(** Dictionaries that count words ([collections.Counter], or a [dict]
    updated with [d[w] = d.get(w, 0) + 1]): a Python dictionary lists its
    items in order of first insertion, and that order reaches the results. *)
Module OrderedDict.

Fixpoint count_up (word : str) (counts : list (str * nat)) : list (str * nat) :=
  match counts with
  | [] => [(word, 1)]
  | (w, n) :: counts' =>
      if bool_decide (w = word) then (w, S n) :: counts'
      else (w, n) :: count_up word counts'
  end.

End OrderedDict.

(* ===================================================================== *)
(** ** base_analyzer.py *)
(* ===================================================================== *)

Module BaseTextAnalyzer.

(** The instance attributes. *)
Record analyzer : Type := Analyzer {
  _text : str;
  _cached_sentences : option (list str)
}.

(** A method that may read and update the instance and may raise. *)
Definition M (A : Type) : Type := analyzer -> result (A * analyzer).

Definition ret {A} (a : A) : M A := fun self => Ok (a, self).
Definition bind {A B} (m : M A) (f : A -> M B) : M B := fun self =>
  match m self with
  | Ok (a, self') => f a self'
  | Raise e => Raise e
  end.
(** A method that only reads the instance. *)
Definition reads {A} (f : analyzer -> A) : M A := fun self => Ok (f self, self).

Notation "x <~ m ;; k" := (bind m (fun x => k))
  (at level 100, m at next level, right associativity, only parsing).

(** [if not text or not isinstance(text, str): raise ValueError(...)]. *)
Definition rejected (text : pyval) : bool :=
  negb (truthy text) || negb (isinstance_str text).

(** [BaseTextAnalyzer.__init__].  Past the guard the argument is a string
    (lemma [__init___no_TypeError]), so the field [_text] is typed [str]. *)
Definition __init__ (text : pyval) : result analyzer :=
  if rejected text then Raise ValueError
  else match as_str text with
       | Some s => Ok {| _text := s; _cached_sentences := None |}
       | None => Raise TypeError
       end.

(** The getter of the property [text]. *)
Definition text (self : analyzer) : str := _text self.

(** The setter of the property [text]. *)
Definition set_text (self : analyzer) (value : pyval) : result analyzer :=
  if rejected value then Raise ValueError
  else match as_str value with
       | Some s => Ok {| _text := s; _cached_sentences := None |}
       | None => Raise TypeError
       end.

(** The property [sentences], over the subclass's [_split_into_sentences]. *)
Definition sentences (_split_into_sentences : analyzer -> result (list str))
  : M (list str) := fun self =>
  match _cached_sentences self with
  | None =>
      l ← _split_into_sentences self;
      Ok (l, {| _text := _text self; _cached_sentences := Some l |})
  | Some l => Ok (l, self)
  end.

(** [__len__]. *)
Definition __len__ (self : analyzer) : nat := length (_text self).

End BaseTextAnalyzer.

(** [TextAnalyzerMixin]. *)
Module TextAnalyzerMixin.
Import BaseTextAnalyzer.

(** [[a-zA-Zа-яА-Я]]: the ranges U+0430..U+044F and U+0410..U+042F are the
    Cyrillic ones. *)
Definition letter (c : ascii) : bool :=
  Char.is_lower_az c || Char.is_upper_az c ||
  Char.between_cp 0x430 0x44f c || Char.between_cp 0x410 0x42f c.

(** [\b[a-zA-Zа-яА-Я]+\b]. *)
Definition word_re : regex := Seq WordB (Seq (Plus true (Chr letter)) WordB).

Definition get_all_words (self : analyzer) : list str :=
  findall_str word_re (text self).

Definition count_words (self : analyzer) : nat := length (get_all_words self).

End TextAnalyzerMixin.

(* ===================================================================== *)
(** ** text_analyzer.py *)
(* ===================================================================== *)

Module TextAnalyzer.
Import BaseTextAnalyzer TextAnalyzerMixin.

(** [[.!?]]. *)
Definition terminator : ascii -> bool := Char.one_of ".!?".

(** [[.!?]+(?:\s+|$)], the pattern given to [re.search]. *)
Definition boundary_re : regex :=
  Seq (Plus true (Chr terminator)) (Alt (Plus true (Chr Char.is_space)) Eol).

(** [([.!?]+(?:\s+|$))], the pattern given to [re.split]. *)
Definition split_re : regex := Group 1 boundary_re.

(** The loop [for part in parts] of [_split_into_sentences], from the
    values of [sentences] and [current_sentence] before it to their values
    after it.  [current_sentence += part] raises [TypeError] on [None]. *)
Fixpoint collect (parts : list (option str)) (sentences : list str)
    (current_sentence : str) : result (list str * str) :=
  match parts with
  | [] => Ok (sentences, current_sentence)
  | None :: _ => Raise TypeError
  | Some part :: parts' =>
      let current_sentence := current_sentence ++ part in
      match search boundary_re part with
      | Some _ =>
          if PyStr.truthy (PyStr.strip current_sentence)
          then collect parts' (sentences ++ [PyStr.strip current_sentence]) []
          else collect parts' sentences []
      | None => collect parts' sentences current_sentence
      end
  end.

Definition _split_into_sentences (self : analyzer) : result (list str) :=
  let parts := split split_re (text self) in
  '(sentences, current_sentence) ← collect parts [] [];
  if PyStr.truthy (PyStr.strip current_sentence)
  then Ok (sentences ++ [PyStr.strip current_sentence])
  else Ok sentences.

(** [self.sentences]. *)
Definition sentences : M (list str) :=
  BaseTextAnalyzer.sentences _split_into_sentences.

(** The keys of the dictionary built by [get_sentence_types]. *)
Definition declarative : string := "повествовательные".
Definition interrogative : string := "вопросительные".
Definition exclamatory : string := "побудительные".

(** [types[key] += 1], for a key the dictionary holds. *)
Definition incr (key : string) (types : gmap string Z) : gmap string Z :=
  alter (fun n => n + 1)%Z key types.

(** One iteration of the loop of [get_sentence_types]. *)
Definition classify (types : gmap string Z) (sentence : str) : gmap string Z :=
  if PyStr.endswith sentence "?" then incr interrogative types
  else if PyStr.endswith sentence "!" then incr exclamatory types
  else incr declarative types.

Definition get_sentence_types : M (gmap string Z) :=
  let types : gmap string Z :=
    <[exclamatory := 0%Z]> (<[interrogative := 0%Z]> (<[declarative := 0%Z]> ∅)) in
  ss <~ sentences;;
  ret (foldl classify types ss).

(** [sum(len(x) for x in l)]. *)
Definition sum_len (l : list str) : nat := foldr (fun x acc => length x + acc) 0 l.

Definition get_average_sentence_length : M pyfloat :=
  ss <~ sentences;;
  if negb (match ss with [] => false | _ => true end) then ret FZero
  else
    ss1 <~ sentences;;
    let total_length := sum_len ss1 in
    ss2 <~ sentences;;
    ret (FDiv (Z.of_nat total_length) (Z.of_nat (length ss2))).

Definition get_average_word_length (self : analyzer) : pyfloat :=
  let words := get_all_words self in
  if negb (match words with [] => false | _ => true end) then FZero
  else
    let total_length := sum_len words in
    FDiv (Z.of_nat total_length) (Z.of_nat (length words)).

(** [[;:]-*([\(\)\[\]])\1+]. *)
Definition smiley_re : regex :=
  Seq (Chr (Char.one_of ";:"))
    (Seq (Star true (Lit "-"))
       (Seq (Group 1 (Chr (Char.one_of "()[]"))) (Plus true (Backref 1)))).

Definition count_smileys (self : analyzer) : nat :=
  length (findall_str smiley_re (text self)).

(** [[^<>\n:]]. *)
Definition name_char (c : ascii) : bool :=
  negb (Ascii.eqb c "<" || Ascii.eqb c ">" || Ascii.eqb c "010" || Ascii.eqb c ":").
(** [[a-zA-Z0-9._%+-]]. *)
Definition local_char (c : ascii) : bool :=
  Char.is_lower_az c || Char.is_upper_az c || Char.is_digit09 c ||
  Char.one_of "._%+-" c.
(** [[a-zA-Z0-9.-]]. *)
Definition domain_char (c : ascii) : bool :=
  Char.is_lower_az c || Char.is_upper_az c || Char.is_digit09 c ||
  Char.one_of ".-" c.
(** [[a-zA-Z]]. *)
Definition az_char (c : ascii) : bool :=
  Char.is_lower_az c || Char.is_upper_az c.

(** [(?:([^<>\n:]*?)\s*<)?([a-zA-Z0-9._%+-]+@[a-zA-Z0-9.-]+\.[a-zA-Z]{2,})>?]. *)
Definition email_re : regex :=
  Seq (Opt (Seq (Group 1 (Star false (Chr name_char)))
              (Seq (Star true (Chr Char.is_space)) (Lit "<"))))
    (Seq (Group 2 (Seq (Plus true (Chr local_char))
                    (Seq (Lit "@")
                       (Seq (Plus true (Chr domain_char))
                          (Seq (Lit ".") (AtLeast2 (Chr az_char)))))))
       (Opt (Lit ">"))).

(** The tuple built for one match: [match.group(2)] (which Python leaves
    [None] if the group took no part) and the stripped [match.group(1)], or
    the empty string when that group is [None] or empty. *)
Definition email_entry (m : rmatch) : option str * str :=
  (group 2 m,
   match group 1 m with
   | Some w => if PyStr.truthy w then PyStr.strip w else []
   | None => []
   end).

Definition get_emails_and_names (self : analyzer) : list (option str * str) :=
  map email_entry (finditer email_re (text self)).

(** [[a-zA-Z0-9]]. *)
Definition var_char (c : ascii) : bool :=
  Char.is_lower_az c || Char.is_upper_az c || Char.is_digit09 c.

(** [\$v_\(([a-zA-Z0-9])\)\$]. *)
Definition math_var_re : regex :=
  Seq (Lits (lit "$v_(")) (Seq (Group 1 (Chr var_char)) (Lits (lit ")$"))).

(** The template [v[\1]]. *)
Definition math_var_repl (m : rmatch) : str :=
  lit "v[" ++ group_or_empty 1 m ++ lit "]".

Definition replace_math_vars (self : analyzer) : str :=
  sub math_var_re math_var_repl (text self).

Definition get_odd_length_words (self : analyzer) : list str :=
  let words := get_all_words self in
  filter (fun word => length word `mod` 2 ≠ 0) words.

(** [\b[iI]\w+\b]. *)
Definition i_word_re : regex :=
  Seq WordB (Seq (Chr (Char.one_of "iI"))
               (Seq (Plus true (Chr Char.is_word)) WordB)).

(** [min(l, key=len)] for a non-empty list [x :: l]: the first of the
    shortest elements. *)
Definition min_by_len (x : str) (l : list str) : str :=
  foldl (fun best y => if (length y <? length best)%nat then y else best) x l.

Definition get_shortest_i_word (self : analyzer) : str :=
  let i_words := findall_str i_word_re (text self) in
  match i_words with
  | x :: l => min_by_len x l
  | [] => []
  end.

(** [\b(?!v_\b)[a-zA-Zа-яА-Я]+\b]. *)
Definition repeated_re : regex :=
  Seq WordB
    (Seq (NegLook (Seq (Lits (lit "v_")) WordB))
       (Seq (Plus true (Chr letter)) WordB)).

(** [Counter(words)]. *)
Definition Counter (words : list str) : list (str * nat) :=
  foldl (fun counts word => OrderedDict.count_up word counts) [] words.

Definition get_repeated_words (self : analyzer) : list str :=
  let words := findall_str repeated_re (PyStr.lower (text self)) in
  let word_counts := Counter words in
  map fst (filter (fun wc => 1 < snd wc) word_counts).

(** The dictionary returned by [analyze]; its entries are evaluated in the
    order of the source. *)
Definition analyze : M (gmap string pyval) :=
  ss <~ sentences;;
  types <~ get_sentence_types;;
  avg_sentence <~ get_average_sentence_length;;
  self <~ reads id;;
  ret (list_to_map [
    ("Количество предложений", PyLen ss);
    ("Типы предложений", PyDict (PyInt <$> types));
    ("Средняя длина предложения", PyFloat avg_sentence);
    ("Средняя длина слова", PyFloat (get_average_word_length self));
    ("Количество смайликов", PyInt (Z.of_nat (count_smileys self)));
    ("Email адреса",
      PyList (map (fun e => PyTuple [from_option PyStr PyNone e.1; PyStr e.2])
                (get_emails_and_names self)));
    ("Текст с замененными переменными", PyStr (replace_math_vars self));
    ("Слова с нечетным количеством букв",
      PyList (map PyStr (get_odd_length_words self)));
    ("Самое короткое слово на i", PyStr (get_shortest_i_word self));
    ("Повторяющиеся слова", PyList (map PyStr (get_repeated_words self)));
    ("Общее количество слов", PyInt (Z.of_nat (count_words self)))
  ]).

End TextAnalyzer.

(* ===================================================================== *)
(** ** Task2.py *)
(* ===================================================================== *)

Module Task2.

(** The instance attributes of [BasicTextAnalyzer] (and of its subclass,
    whose three pattern attributes are constants). *)
Record analyzer : Type := Analyzer {
  _text : str;
  _results : gmap string pyval
}.

(** [BasicTextAnalyzer.__init__]. *)
Definition __init__ : analyzer := {| _text := []; _results := ∅ |}.

Definition text (self : analyzer) : str := _text self.

(** The setter of the property [text]. *)
Definition set_text (self : analyzer) (value : pyval) : result analyzer :=
  match value with
  | PyStr s => Ok {| _text := s; _results := ∅ |}
  | _ => Raise ValueError
  end.

(** [self._results[key] = v]. *)
Definition store (key : string) (v : pyval) (self : analyzer) : analyzer :=
  {| _text := _text self; _results := <[key := v]> (_results self) |}.

(** [[.!?]]. *)
Definition terminator : ascii -> bool := Char.one_of ".!?".

(** [[.!?]+]. *)
Definition terminators_re : regex := Plus true (Chr terminator).

(** The pieces of [re.split(r'[.!?]+', text)]; the pattern has no group,
    so every item is a string. *)
Definition pieces (text : str) : list str :=
  omap id (split terminators_re text).

(** [[s.strip() for s in sentences if s.strip()]]. *)
Definition stripped_nonempty (sentences : list str) : list str :=
  map PyStr.strip (filter (fun s => PyStr.truthy (PyStr.strip s)) sentences).

Definition _count_sentences (self : analyzer) : analyzer :=
  let sentences := pieces (text self) in
  let sentences := stripped_nonempty sentences in
  store "total_sentences" (PyLen sentences) self.

(** [[^!?]*\.], [[^.]*\?], [[^.]*!]. *)
Definition declarative_re : regex :=
  Seq (Star true (Chr (fun c => negb (Char.one_of "!?" c)))) (Lit ".").
Definition interrogative_re : regex :=
  Seq (Star true (Chr (fun c => negb (Char.one_of "." c)))) (Lit "?").
Definition exclamatory_re : regex :=
  Seq (Star true (Chr (fun c => negb (Char.one_of "." c)))) (Lit "!").

Definition _classify_sentences (self : analyzer) : analyzer :=
  let declarative := length (findall_str declarative_re (text self)) in
  let interrogative := length (findall_str interrogative_re (text self)) in
  let exclamatory := length (findall_str exclamatory_re (text self)) in
  store "exclamatory_sentences" (PyInt (Z.of_nat exclamatory))
    (store "interrogative_sentences" (PyInt (Z.of_nat interrogative))
       (store "declarative_sentences" (PyInt (Z.of_nat declarative)) self)).

(** [\b\w+\b]. *)
Definition word_re : regex :=
  Seq WordB (Seq (Plus true (Chr Char.is_word)) WordB).

Definition sum_len (l : list str) : nat := foldr (fun x acc => length x + acc) 0 l.

Definition _calculate_avg_sentence_length (self : analyzer) : analyzer :=
  let sentences := stripped_nonempty (pieces (text self)) in
  match sentences with
  | [] => store "avg_sentence_length" (PyInt 0) self
  | _ =>
      let total_chars :=
        foldl (fun total sentence =>
                 total + sum_len (findall_str word_re sentence)) 0 sentences in
      store "avg_sentence_length"
        (PyFloat (FDiv (Z.of_nat total_chars) (Z.of_nat (length sentences)))) self
  end.

Definition _calculate_avg_word_length (self : analyzer) : analyzer :=
  let words := findall_str word_re (text self) in
  match words with
  | [] => store "avg_word_length" (PyInt 0) self
  | _ =>
      let total_chars := sum_len words in
      store "avg_word_length"
        (PyFloat (FDiv (Z.of_nat total_chars) (Z.of_nat (length words)))) self
  end.

(** [BasicTextAnalyzer.analyze]: the dictionary returned and the instance
    afterwards. *)
Definition basic_analyze (self : analyzer) (text : pyval)
  : result (gmap string pyval * analyzer) :=
  self ← set_text self text;
  let self := _count_sentences self in
  let self := _classify_sentences self in
  let self := _calculate_avg_sentence_length self in
  let self := _calculate_avg_word_length self in
  Ok (_results self, self).

(** [[A-Za-z0-9._%+-]], [[A-Za-z0-9.-]], [[A-Z|a-z]]. *)
Definition local_char (c : ascii) : bool :=
  Char.is_upper_az c || Char.is_lower_az c || Char.is_digit09 c ||
  Char.one_of "._%+-" c.
Definition domain_char (c : ascii) : bool :=
  Char.is_upper_az c || Char.is_lower_az c || Char.is_digit09 c ||
  Char.one_of ".-" c.
Definition tld_char (c : ascii) : bool :=
  Char.is_upper_az c || Ascii.eqb c "|" || Char.is_lower_az c.

(** [\b([A-Za-z0-9._%+-]+)@([A-Za-z0-9.-]+\.[A-Z|a-z]{2,})\b]. *)
Definition _email_pattern : regex :=
  Seq WordB
    (Seq (Group 1 (Plus true (Chr local_char)))
       (Seq (Lit "@")
          (Seq (Group 2 (Seq (Plus true (Chr domain_char))
                          (Seq (Lit ".") (AtLeast2 (Chr tld_char)))))
             WordB))).

(** [[a-zA-Z0-9]]. *)
Definition var_char (c : ascii) : bool :=
  Char.is_lower_az c || Char.is_upper_az c || Char.is_digit09 c.

(** [\$v_\(([a-zA-Z0-9])\)\$]. *)
Definition _variable_pattern : regex :=
  Seq (Lits (lit "$v_(")) (Seq (Group 1 (Chr var_char)) (Lits (lit ")$"))).

(** [(?::|;)-*[\(\)\[\]]+]. *)
Definition _smiley_pattern : regex :=
  Seq (Alt (Lit ":") (Lit ";"))
    (Seq (Star true (Lit "-")) (Plus true (Chr (Char.one_of "()[]")))).

(** The (username, domain) tuples found by [re.findall]. *)
Definition email_tuples (text : str) : list (str * str) :=
  map (fun e => (e !!! 0, e !!! 1)) (findall_tuples _email_pattern text).

Definition _extract_emails (self : analyzer) : analyzer :=
  let emails := email_tuples (text self) in
  store "emails"
    (PyList (map (fun e => PyDict (<["domain" := PyStr e.2]>
                                     (<["username" := PyStr e.1]> ∅))) emails))
    self.

(** [replacer]: [f'v[{match.group(1)}]']. *)
Definition replacer (m : rmatch) : str :=
  lit "v[" ++ group_or_empty 1 m ++ lit "]".

Definition substituted_text (text : str) : str :=
  sub _variable_pattern replacer text.

Definition _substitute_variables (self : analyzer) : analyzer :=
  store "substituted_text" (PyStr (substituted_text (text self))) self.

(** [min(l, key=len, default=None)]. *)
Definition min_by_len (l : list str) : option str :=
  match l with
  | [] => None
  | x :: l' =>
      Some (foldl (fun best y =>
                     if (length y <? length best)%nat then y else best) x l')
  end.

Definition word_counts (words : list str) : list (str * nat) :=
  foldl (fun counts word => OrderedDict.count_up word counts) [] words.

Definition _analyze_words (self : analyzer) : analyzer :=
  let words := findall_str word_re (PyStr.lower (text self)) in
  let odd_length_words := filter (fun word => length word `mod` 2 ≠ 0) words in
  let i_words := filter (fun word => PyStr.startswith word "i") words in
  let shortest_i_word := min_by_len i_words in
  let duplicates := map fst (filter (fun wc => 1 < snd wc) (word_counts words)) in
  store "duplicate_words" (PyList (map PyStr duplicates))
    (store "shortest_i_word" (from_option PyStr PyNone shortest_i_word)
       (store "odd_length_words" (PyList (map PyStr odd_length_words)) self)).

(** [^[:;]-*]. *)
Definition smiley_head_re : regex :=
  Seq Bol (Seq (Chr (Char.one_of ":;")) (Star true (Lit "-"))).

(** [len(set(brackets)) == 1 and brackets[0] in '()[]'].  The second test
    is only evaluated when the first holds, so [brackets[0]] exists. *)
Definition uniform_brackets (brackets : str) : bool :=
  bool_decide (size (list_to_set brackets : gset ascii) = 1) &&
  match brackets with
  | b :: _ => Char.one_of "()[]" b
  | [] => false
  end.

(** The list [valid_smileys]. *)
Definition valid_smileys (text : str) : list str :=
  let smileys := findall_str _smiley_pattern text in
  filter (fun smiley =>
            let brackets := sub smiley_head_re (fun _ => []) smiley in
            uniform_brackets brackets) smileys.

Definition _count_smileys (self : analyzer) : analyzer :=
  let valid := valid_smileys (text self) in
  store "smiley_count" (PyLen valid)
    (store "smileys" (PyList (map PyStr valid)) self).

(** [AdvancedTextAnalyzer.analyze]. *)
Definition analyze (self : analyzer) (text : pyval)
  : result (gmap string pyval * analyzer) :=
  '(_, self) ← basic_analyze self text;
  let self := _extract_emails self in
  let self := _substitute_variables self in
  let self := _analyze_words self in
  let self := _count_smileys self in
  Ok (_results self, self).

End Task2.

(* ===================================================================== *)
(** ** file_handler.py and the console loops of Task2.py *)
(* ===================================================================== *)

(** The exceptions that leave these functions, and their outcomes.  A
    [ValueError] carries its message: [select_file] tells its own from the
    one of [int] by the message.  [Uncaught] is an exception of the analyzer
    that the function does not handle. *)
Inductive error : Type :=
| FileNotFoundError
| ValueError_with (message : string)
| IndexError
| EOFError
| Uncaught (e : exn).

Inductive outcome (A : Type) : Type :=
| Return (a : A)
| Throw (e : error).
Arguments Return {A} a.
Arguments Throw {A} e.

(** What [int(input(...))] makes of a line typed: an integer, or [None]
    when [int] raises [ValueError].  The lines typed are the input of the
    loops; [input] raises [EOFError] when none is left. *)
Abbreviation typed_int := (option Z).

Module FileHandler.

Definition cancelled : string := "Операция отменена пользователем".

(** [select_file]: the file chosen and the lines left to read.  [files[i]]
    raises [IndexError] outside the list. *)
Fixpoint select_file (files : list string) (typed : list typed_int)
  : outcome (string * list typed_int) :=
  match typed with
  | [] => Throw EOFError
  | None :: typed' => select_file files typed'
  | Some choice :: typed' =>
      if (choice =? 0)%Z then Throw (ValueError_with cancelled)
      else if (1 <=? choice)%Z && (choice <=? Z.of_nat (length files))%Z
      then match files !! Z.to_nat (choice - 1) with
           | Some file => Return (file, typed')
           | None => Throw IndexError
           end
      else select_file files typed'
  end.


End FileHandler.

Module UserInterface.

(** [get_user_choice]: the choice and the lines left to read. *)
Fixpoint get_user_choice (min_value max_value : Z) (typed : list typed_int)
  : outcome (Z * list typed_int) :=
  match typed with
  | [] => Throw EOFError
  | None :: typed' => get_user_choice min_value max_value typed'
  | Some choice :: typed' =>
      if (min_value <=? choice)%Z && (choice <=? max_value)%Z
      then Return (choice, typed')
      else get_user_choice min_value max_value typed'
  end.

(** The attributes of the interface. *)
Record ui : Type := UI {
  analyzer : option BaseTextAnalyzer.analyzer;
  results : option (gmap string pyval)
}.

(** The loop of [input_text]: the lines typed before the first empty one,
    and the lines left to read. *)
Fixpoint read_lines (typed : list str) (lines : list str)
  : outcome (list str * list str) :=
  match typed with
  | [] => Throw EOFError
  | line :: typed' =>
      if negb (PyStr.truthy line) then Return (lines, typed')
      else read_lines typed' (lines ++ [line])
  end.

(** ['\n'.join(lines)]. *)
Fixpoint join_lines (lines : list str) : str :=
  match lines with
  | [] => []
  | [line] => line
  | line :: lines' => line ++ "010"%char :: join_lines lines'
  end.

(** [process_text], on the attributes: the dictionary of the analysis is
    stored (what is printed and the files that
    [save_results_automatically] writes are not part of them).  Any
    exception is handled in the method; [analyze] raises none (lemma
    [analyze_total]). *)
Definition process_text (self : ui) : ui :=
  match analyzer self with
  | Some a =>
      match TextAnalyzer.analyze a with
      | Ok (report, a') => {| analyzer := Some a'; results := Some report |}
      | Raise _ => self
      end
  | None => self
  end.

(** [input_text]: the attributes afterwards and the lines left to read.
    The [ValueError] of the constructor is handled and leaves the
    attributes as they were. *)
Definition input_text (self : ui) (typed : list str) : outcome (ui * list str) :=
  match read_lines typed [] with
  | Throw e => Throw e
  | Return (lines, typed') =>
      let text := join_lines lines in
      match BaseTextAnalyzer.__init__ (PyStr text) with
      | Ok a =>
          Return (process_text {| analyzer := Some a; results := results self |},
                  typed')
      | Raise ValueError => Return (self, typed')
      | Raise e => Throw (Uncaught e)
      end
  end.

End UserInterface.

(* ===================================================================== *)
(** ** Vocabulary of the statements *)
(* ===================================================================== *)

Section Vocabulary.
Import BaseTextAnalyzer.

(** The analyzer that the constructor builds for a non-empty document [s]
    (see [__init___spec]). *)
Definition fresh (s : str) : analyzer :=
  {| _text := s; _cached_sentences := None |}.

(** The entry [key] of the dictionary that [AdvancedTextAnalyzer.analyze]
    returns for the document [s]. *)
Definition advanced_entry (s : str) (key : string) : option pyval :=
  match Task2.analyze Task2.__init__ (PyStr s) with
  | Ok (results, _) => results !! key
  | Raise _ => None
  end.

(** The entry [key] of the dictionary that [BasicTextAnalyzer.analyze]
    returns for the document [s]. *)
Definition basic_entry (s : str) (key : string) : option pyval :=
  match Task2.basic_analyze Task2.__init__ (PyStr s) with
  | Ok (results, _) => results !! key
  | Raise _ => None
  end.

(** A sentence that is neither empty nor made of whitespace only. *)
Definition nonblank (s : str) : Prop :=
  s <> [] /\ PyStr.all Char.is_space s = false.

(** The key that one iteration of the loop of [get_sentence_types]
    increments: the sentence's last character is looked at, first for [?],
    then for [!]. *)
Definition sentence_type (sentence : str) : string :=
  if PyStr.endswith sentence "?" then TextAnalyzer.interrogative
  else if PyStr.endswith sentence "!" then TextAnalyzer.exclamatory
  else TextAnalyzer.declarative.

(** How many of the sentences have the type [key]. *)
Definition count_type (key : string) (ss : list str) : Z :=
  Z.of_nat (length (filter (fun s => sentence_type s = key) ss)).

(** A pattern without capturing groups. *)
Fixpoint group_free (r : regex) : bool :=
  match r with
  | Seq r1 r2 | Alt r1 r2 => group_free r1 && group_free r2
  | Star _ r1 | NegLook r1 => group_free r1
  | Group _ _ => false
  | _ => true
  end.

(** The matches lie in [text] one after the other: each starts at or after
    the offset [from] where the one before it ended, and its text is the text
    found at its offset. *)
Fixpoint successive (text : str) (from : nat) (ms : list rmatch) : Prop :=
  match ms with
  | [] => True
  | m :: ms' =>
      from <= m_start m /\
      take (length (m_text m)) (drop (m_start m) text) = m_text m /\
      successive text (m_end m) ms'
  end.

(** *** Runs of characters *)

(** The longest prefix of [l] made of characters of the class [p], and what
    follows it. *)
Fixpoint take_run (p : ascii -> bool) (l : str) : str :=
  match l with
  | c :: l' => if p c then c :: take_run p l' else []
  | [] => []
  end.

Fixpoint drop_run (p : ascii -> bool) (l : str) : str :=
  match l with
  | c :: l' => if p c then drop_run p l' else l
  | [] => []
  end.

(** The greedy repetition of a class, by recursion on the text: the longest
    run is tried first, then the shorter ones. *)
Fixpoint greedy_chars (p : ascii -> bool) (k : mstate -> option mstate)
    (pv : option ascii) (l : str) (cs : list (nat * str)) : option mstate :=
  match l with
  | c :: l' =>
      if p c
      then match greedy_chars p k (Some c) l' cs with
           | Some e => Some e
           | None => k {| prev := pv; rest := l; caps := cs |}
           end
      else k {| prev := pv; rest := l; caps := cs |}
  | [] => k {| prev := pv; rest := []; caps := cs |}
  end.

(** [c] put in front of the first piece, in a list of strings and in the
    list that [re.split] returns. *)
Definition add_to_first (c : ascii) (pieces : list str) : list str :=
  match pieces with
  | x :: xs => (c :: x) :: xs
  | [] => []
  end.

Definition cons_head (c : ascii) (parts : list (option str)) : list (option str) :=
  match parts with
  | Some x :: xs => Some (c :: x) :: xs
  | _ => parts
  end.

(** *** Segmentation: the reference definition of the specification *)

(** The spans between the maximal runs of terminators.  [in_run] tells that
    the character before was a terminator, so that the boundary is open
    already and a further terminator belongs to it. *)
Fixpoint spans (in_run : bool) (l : str) : list str :=
  match l with
  | [] => [[]]
  | c :: l' =>
      if Char.one_of ".!?" c
      then if in_run then spans true l' else [] :: spans true l'
      else add_to_first c (spans false l')
  end.

(** The reference definition: split on the runs, trim every span, discard
    the spans that are empty after trimming. *)
Definition segment_ref (text : str) : list str :=
  filter (fun s => s <> []) (PyStr.strip <$> spans false text).

(** *** Segmentation with the terminators kept, stated on the text *)

(** The text [l] is at its end or goes on with whitespace. *)
Definition gap_follows (l : str) : bool :=
  match l with
  | [] => true
  | c :: _ => Char.is_space c
  end.

(** A sentence boundary starts at the head of [l]: a maximal run of
    terminators followed by whitespace or by the end of the text. *)
Definition boundary_here (l : str) : bool :=
  match l with
  | c :: l' =>
      Char.one_of ".!?" c && gap_follows (drop_run (Char.one_of ".!?") l')
  | [] => false
  end.

(** The separator that starts at the head of [l] (the run of terminators and
    the whitespace after it) and the text after it. *)
Definition separator (l : str) : str :=
  take_run (Char.one_of ".!?") l ++
  take_run Char.is_space (drop_run (Char.one_of ".!?") l).

Definition after_separator (l : str) : str :=
  drop_run Char.is_space (drop_run (Char.one_of ".!?") l).

(** The first boundary at or after the head of [l]: the text before it, the
    separator, the text after the separator. *)
Fixpoint find_boundary (l : str) : option (str * str * str) :=
  if boundary_here l then Some ([], separator l, after_separator l)
  else match l with
       | [] => None
       | c :: l' =>
           match find_boundary l' with
           | Some (t, sep, r) => Some (c :: t, sep, r)
           | None => None
           end
       end.

(** A span becomes a sentence when something is left of it after trimming. *)
Definition emit (span : str) : list str :=
  if PyStr.truthy (PyStr.strip span) then [PyStr.strip span] else [].

(** Left to right: at a boundary the span read so far ends with the run of
    terminators, and the separator is passed over ([skip] counts its
    characters still to pass); any other character joins the span.  The last
    span ends with the text. *)
Fixpoint sentences_from (skip : nat) (span : str) (l : str) : list str :=
  match l with
  | [] => emit span
  | c :: l' =>
      match skip with
      | S n => sentences_from n span l'
      | O =>
          if boundary_here l
          then emit (span ++ take_run (Char.one_of ".!?") l) ++
               sentences_from (length (separator l) - 1) [] l'
          else sentences_from 0 (span ++ [c]) l'
      end
  end.

(** The sentences of a text: boundaries are the runs of terminators that
    whitespace or the end of the text follows, and stay with the sentence
    before them. *)
Definition segment_kept (text : str) : list str := sentences_from 0 [] text.

(** *** Variable substitution: the reference definition of the specification *)

(** Alphanumeric: a letter [a]-[z] or [A]-[Z], or a digit. *)
Definition alphanumeric (c : ascii) : bool :=
  Char.is_lower_az c || Char.is_upper_az c || Char.is_digit09 c.

(** An occurrence of [$v_(X)$], [X] one alphanumeric character, at the head
    of [l]: gives [X] and the text after the occurrence. *)
Definition variable_at (l : str) : option (ascii * str) :=
  match PyStr.strip_prefix (lit "$v_(") l with
  | Some (x :: l1) =>
      if alphanumeric x
      then match PyStr.strip_prefix (lit ")$") l1 with
           | Some l2 => Some (x, l2)
           | None => None
           end
      else None
  | _ => None
  end.

(** Left to right: an occurrence is replaced by [v[X]] and its seven
    characters are passed over ([skip] counts those still to pass); any other
    character is copied. *)
Fixpoint substitute_from (skip : nat) (l : str) : str :=
  match l with
  | [] => []
  | c :: l' =>
      match skip with
      | S n => substitute_from n l'
      | O =>
          match variable_at l with
          | Some (x, _) => lit "v[" ++ [x] ++ lit "]" ++ substitute_from 6 l'
          | None => c :: substitute_from 0 l'
          end
      end
  end.

(** The reference definition: every occurrence replaced, the rest verbatim. *)
Definition substitute_ref (text : str) : str := substitute_from 0 text.

End Vocabulary.

Section WordVocabulary.

(** *** Words, stated on the text *)

(** The maximal runs of word characters ([\w]) of [l] that pass the test
    [q], from left to right.  [inside] tells that the character before the
    head of [l] is a word character, so that the head does not start a run. *)
Fixpoint words_from (q : str -> bool) (inside : bool) (l : str) : list str :=
  match l with
  | [] => []
  | c :: l' =>
      if Char.is_word c
      then if inside then words_from q true l'
           else (if q (take_run Char.is_word l) then [take_run Char.is_word l] else [])
                ++ words_from q true l'
      else words_from q false l'
  end.

(** The maximal runs of word characters of a text. *)
Definition word_runs (text : str) : list str := words_from (fun _ => true) false text.

(** A run made of letters only. *)
Definition letters_only (w : str) : bool := forallb TextAnalyzerMixin.letter w.

(** A run of at least two characters that starts with [i] or [I]. *)
Definition i_word (w : str) : bool :=
  match w with
  | c :: _ :: _ => Char.one_of "iI" c
  | _ => false
  end.

(** How often [w] occurs in [l]. *)
Definition occurrences (w : str) (l : list str) : nat :=
  length (filter (fun x => x = w) l).

(** The distinct elements of [l], each at the place of its first
    occurrence. *)
Definition first_occurrences (l : list str) : list str :=
  reverse (remove_dups (reverse l)).

(** The patterns that find words: an attempt succeeds at the start of a run
    of word characters that passes the test [q], and takes the whole run. *)
Definition finds_runs (r : regex) (q : str -> bool) : Prop :=
  forall b pv l,
    attempt r b {| prev := pv; rest := l; caps := [] |} =
    if negb (is_word_opt pv) && is_word_opt (head l) && q (take_run Char.is_word l)
    then Some (after (take_run Char.is_word l) (drop_run Char.is_word l)
                 {| prev := pv; rest := l; caps := [] |})
    else None.

End WordVocabulary.

Section SentenceVocabulary.
Import BaseTextAnalyzer.

(** *** Sentences and the cache, stated on the text *)

(** The characters of [s] that are not whitespace, in order. *)
Definition without_spaces (s : str) : str :=
  filter (fun c => Char.is_space c = false) s.

(** The string ends with [.], [!] or [?]. *)
Definition ends_with_terminator (s : str) : bool :=
  match last s with
  | Some c => Char.one_of ".!?" c
  | None => false
  end.

(** The cached sentence list, if any, is the segmentation of the current
    document. *)
Definition coherent (self : analyzer) : Prop :=
  match _cached_sentences self with
  | Some ss => ss = segment_kept (_text self)
  | None => True
  end.

(** The instances that a program can hold: built by the constructor, then
    passed through the setter of [text] and the methods that fill the
    cache. *)
Inductive reachable : analyzer -> Prop :=
| reach_init v self :
    __init__ v = Ok self -> reachable self
| reach_set_text self v self' :
    reachable self -> set_text self v = Ok self' -> reachable self'
| reach_sentences self ss self' :
    reachable self -> TextAnalyzer.sentences self = Ok (ss, self') ->
    reachable self'
| reach_get_sentence_types self types self' :
    reachable self -> TextAnalyzer.get_sentence_types self = Ok (types, self') ->
    reachable self'
| reach_get_average_sentence_length self avg self' :
    reachable self ->
    TextAnalyzer.get_average_sentence_length self = Ok (avg, self') ->
    reachable self'
| reach_analyze self report self' :
    reachable self -> TextAnalyzer.analyze self = Ok (report, self') ->
    reachable self'.

(** A method keeps the document and the coherence of the cache. *)
Definition preserves {A} (m : M A) : Prop :=
  forall self a self',
    coherent self -> m self = Ok (a, self') ->
    coherent self' /\ _text self' = _text self.

(** The number of word characters ([\w]) of [s]. *)
Definition word_chars (s : str) : nat :=
  length (filter (fun c => Char.is_word c = true) s).

End SentenceVocabulary.

Section TokenVocabulary.

(** *** Tokens, stated on the text *)

(** The character before the cursor once [w] has been passed. *)
Definition prev_after (w : str) (pv : option ascii) : option ascii :=
  match last w with Some c => Some c | None => pv end.

(** Left to right: where [tok] finds a token at the cursor, it is listed and
    its characters are passed over ([skip] counts those still to pass); the
    search goes on one character further otherwise.  [pv] is the character
    before the cursor. *)
Fixpoint tokens_from (tok : option ascii -> str -> option str)
    (skip : nat) (pv : option ascii) (l : str) : list str :=
  match l with
  | [] => []
  | c :: l' =>
      match skip with
      | S n => tokens_from tok n (Some c) l'
      | O =>
          match tok pv l with
          | Some w => w :: tokens_from tok (length w - 1) (Some c) l'
          | None => tokens_from tok 0 (Some c) l'
          end
      end
  end.

(** The pattern [r] finds the tokens of [tok]: an attempt at the cursor
    succeeds exactly where [tok] gives a token, a non-empty prefix of the
    text, and stops behind it. *)
Definition finds_tokens (r : regex) (tok : option ascii -> str -> option str)
  : Prop :=
  forall b pv l,
    match tok pv l with
    | Some w =>
        w <> [] /\
        exists l2, l = w ++ l2 /\
          exists cs, attempt r b {| prev := pv; rest := l; caps := [] |} =
                     Some {| prev := prev_after w pv; rest := l2; caps := cs |}
    | None => attempt r b {| prev := pv; rest := l; caps := [] |} = None
    end.

(** The candidate of [AdvancedTextAnalyzer._count_smileys] at the head of
    [l]: a colon or a semicolon, the hyphens after it, and the brackets
    after them, of which there is at least one. *)
Definition smiley_candidate (l : str) : option str :=
  match l with
  | h :: l' =>
      if Char.one_of ":;" h
      then match take_run (Char.one_of "()[]") (drop_run (Ascii.eqb "-") l') with
           | [] => None
           | b => Some (h :: take_run (Ascii.eqb "-") l' ++ b)
           end
      else None
  | [] => None
  end.

(** The smiley of [TextAnalyzer.count_smileys] at the head of [l]: a colon
    or a semicolon, the hyphens after it, a bracket and its repetitions, of
    which there is at least one. *)
Definition smiley_repeated (l : str) : option str :=
  match l with
  | h :: l' =>
      if Char.one_of ";:" h
      then match drop_run (Ascii.eqb "-") l' with
           | c :: r =>
               if Char.one_of "()[]" c
               then match take_run (Ascii.eqb c) r with
                    | [] => None
                    | b => Some (h :: take_run (Ascii.eqb "-") l' ++ c :: b)
                    end
               else None
           | [] => None
           end
      else None
  | [] => None
  end.

(** A smiley whose brackets are all the same one. *)
Definition uniform_smiley (smiley : str) : bool :=
  match smiley with
  | h :: l' =>
      match drop_run (Ascii.eqb "-") l' with
      | c :: b => Char.one_of "()[]" c && forallb (Ascii.eqb c) b
      | [] => false
      end
  | [] => false
  end.

End TokenVocabulary.

Section StretchVocabulary.

(** *** Stretches of a text *)

(** The stretches of characters of the class [p] that the characters
    outside [p] separate (a stretch may be empty). *)
Fixpoint stretches (p : ascii -> bool) (l : str) : list str :=
  match l with
  | [] => [[]]
  | c :: l' =>
      if p c then add_to_first c (stretches p l') else [] :: stretches p l'
  end.

(** The string holds the character [m]. *)
Definition has_mark (m : ascii) (s : str) : bool := existsb (Ascii.eqb m) s.

(** The number of stretches of [p] that hold the character [m]. *)
Definition marked_stretches (p : ascii -> bool) (m : ascii) (text : str) : nat :=
  length (filter (fun s => has_mark m s) (stretches p text)).

(** The match of [p*m] at the head of [l], for a greedy repetition: the
    characters of [p] up to the last [m] that the run of [p] at the head of
    [l] holds or that ends it; with the match, the text after it. *)
Fixpoint upto_last_mark (p : ascii -> bool) (m : ascii) (l : str)
  : option (str * str) :=
  match l with
  | [] => None
  | c :: l' =>
      let here := if Ascii.eqb m c then Some ([c], l') else None in
      if p c
      then match upto_last_mark p m l' with
           | Some (w, l2) => Some (c :: w, l2)
           | None => here
           end
      else here
  end.

(** [[^!?]], [[^.]]. *)
Definition not_exclamation_or_question (c : ascii) : bool :=
  negb (Char.one_of "!?" c).
Definition not_period (c : ascii) : bool := negb (Char.one_of "." c).

End StretchVocabulary.

Section ConsoleVocabulary.

(** A line typed that makes [select_file] ask again: not an integer, or an
    integer other than 0 outside [1 .. len(files)]. *)
Definition asked_again (files : list string) (x : typed_int) : Prop :=
  match x with
  | None => True
  | Some z => z <> 0%Z /\ ~ (1 <= z <= Z.of_nat (length files))%Z
  end.

(** A line typed that makes [get_user_choice] ask again. *)
Definition out_of_range (min_value max_value : Z) (x : typed_int) : Prop :=
  match x with
  | None => True
  | Some z => ~ (min_value <= z <= max_value)%Z
  end.

End ConsoleVocabulary.

(* ===================================================================== *)
(** ** Properties of the matcher *)
(* ===================================================================== *)

Section MatcherFacts.

Lemma strip_prefix_Some w s l :
  PyStr.strip_prefix w s = Some l -> s = w ++ l.
Proof.
  revert s. induction w as [|a w IH]; intros s H; simpl in H.
  { by injection H as ->. }
  destruct s as [|b s]; [discriminate|].
  destruct (Ascii.eqb_spec a b) as [->|]; [|discriminate].
  simpl. f_equal. by apply IH.
Qed.

(** What a repetition loop inherits from its body. *)
Lemma star_loop_inv body greedy k (keep : Prop) :
  (forall s k' e, body s k' = Some e ->
     exists s', k' s' = Some e /\ rest s' `suffix_of` rest s /\
       (keep -> caps s' = caps s)) ->
  forall fuel s e, star_loop body greedy k fuel s = Some e ->
    exists s', k s' = Some e /\ rest s' `suffix_of` rest s /\
      (keep -> caps s' = caps s).
Proof.
  intros Hbody fuel. induction fuel as [|fuel IH]; intros s e H; simpl in H.
  { by exists s. }
  assert (Hagain : forall e',
    body s (fun s1 => if (length (rest s1) <? length (rest s))%nat
                      then star_loop body greedy k fuel s1 else None) = Some e' ->
    exists s', k s' = Some e' /\ rest s' `suffix_of` rest s /\
      (keep -> caps s' = caps s)).
  { intros e' He'. apply Hbody in He' as (s1 & Hs1 & Hsuf & Hcaps).
    destruct (length (rest s1) <? length (rest s))%nat; [|discriminate].
    apply IH in Hs1 as (s' & Hk & Hsuf' & Hcaps'). exists s'.
    split; [done|]. split; [by etrans|].
    intros Hkeep. by rewrite Hcaps', Hcaps. }
  destruct greedy.
  - destruct (body s _) as [e'|] eqn:Hb.
    + injection H as ->. by apply Hagain.
    + by exists s.
  - destruct (k s) as [e'|] eqn:Hk.
    + injection H as ->. by exists s.
    + by apply Hagain.
Qed.

(** Every outcome of the matcher is an outcome of its continuation, reached
    at a state further on in the text, with the same groups when the pattern
    has none. *)
Lemma exec_inv r : forall s k e,
  exec r s k = Some e ->
  exists s', k s' = Some e /\ rest s' `suffix_of` rest s /\
    (group_free r = true -> caps s' = caps s).
Proof.
  induction r as [|p|r1 IH1 r2 IH2|r1 IH1 r2 IH2|g r1 IH1|n r1 IH1|n| | | |r1 IH1];
    intros s k e H; simpl in H.
  - by exists s.
  - destruct (rest s) as [|c l] eqn:Hr; [discriminate|].
    destruct (p c); [|discriminate].
    eexists; split; [exact H|]. simpl. split; [by apply suffix_cons_r|done].
  - apply IH1 in H as (s1 & H & Hs1 & Hc1). apply IH2 in H as (s2 & H & Hs2 & Hc2).
    exists s2. split; [done|]. split; [by etrans|].
    simpl. intros [H1 H2]%andb_true_iff. by rewrite Hc2, Hc1.
  - simpl. destruct (exec r1 s k) as [e'|] eqn:H1.
    + injection H as ->. apply IH1 in H1 as (s' & ? & ? & Hc).
      exists s'. repeat split; try done. intros [? ?]%andb_true_iff. by apply Hc.
    + apply IH2 in H as (s' & ? & ? & Hc).
      exists s'. repeat split; try done. intros [? ?]%andb_true_iff. by apply Hc.
  - eapply star_loop_inv; [|exact H]. intros; by apply IH1.
  - apply IH1 in H as (s1 & H & Hs1 & _). eexists; split; [exact H|].
    split; [done|]. simpl. discriminate.
  - destruct (cap n (caps s)) as [w|]; [|discriminate].
    destruct (PyStr.strip_prefix w (rest s)) as [l|] eqn:Hp; [|discriminate].
    eexists; split; [exact H|]. simpl. split; [|done].
    apply strip_prefix_Some in Hp as ->. by apply suffix_app_r.
  - destruct (xorb _ _); [|discriminate]. by exists s.
  - destruct (prev s); [discriminate|]. by exists s.
  - destruct (rest s) as [|c [|d l]] eqn:Hr; try discriminate.
    + exists s. by rewrite Hr.
    + destruct (Ascii.eqb c "010"); [|discriminate]. exists s. by rewrite Hr.
  - destruct (exec r1 s Some); [discriminate|]. by exists s.
Qed.

Lemma suffix_consumed (s e : mstate) :
  rest e `suffix_of` rest s -> rest s = consumed s e ++ rest e.
Proof.
  intros [w Hw]. unfold consumed. rewrite Hw, length_app.
  replace (length w + length (rest e) - length (rest e)) with (length w) by lia.
  by rewrite take_app_length.
Qed.

(** An attempt yields a state further on, strictly so when it has to
    advance. *)
Lemma attempt_inv r b s e :
  attempt r b s = Some e ->
  rest s = consumed s e ++ rest e /\ (b = true -> consumed s e <> []).
Proof.
  unfold attempt. intros H. apply exec_inv in H as (s' & H & Hsuf & _).
  destruct (b && _) eqn:Hb; [discriminate|]. injection H as <-.
  split; [by apply suffix_consumed|].
  intros -> Hnil. simpl in Hb. apply Nat.eqb_neq in Hb. apply Hb.
  f_equal. rewrite (suffix_consumed s s' Hsuf), Hnil. done.
Qed.

(** A match found by the scan splits the text into what was skipped, the
    match and what is left, and starts where the skipped text ends. *)
Lemma search_from_inv r : forall l b i skipped pv m,
  search_from r b i skipped pv l = Some m ->
  exists pre,
    m_pre m = rev skipped ++ pre /\
    l = pre ++ m_text m ++ m_rest m /\
    m_start m = i + length pre /\
    (b = true -> pre = [] -> m_text m <> []).
Proof.
  induction l as [|c l IH]; intros b i skipped pv m H; simpl in H.
  - destruct (attempt r b _) as [e|] eqn:Ha; [|discriminate].
    injection H as <-. apply attempt_inv in Ha as [Hsplit Hadv].
    exists []. simpl in *. rewrite app_nil_r. repeat split; auto with lia.
  - destruct (attempt r b _) as [e|] eqn:Ha.
    + injection H as <-. apply attempt_inv in Ha as [Hsplit Hadv].
      exists []. simpl in *. rewrite app_nil_r. repeat split; auto with lia.
    + apply IH in H as (pre & Hpre & Hl & Hstart & _).
      exists (c :: pre). simpl in Hpre. rewrite <- app_assoc in Hpre.
      repeat split; simpl; auto with lia. by rewrite Hl.
Qed.

Lemma consumed_app (s e : mstate) w :
  rest s = w ++ rest e -> consumed s e = w.
Proof.
  intros H. unfold consumed. rewrite H, length_app.
  replace (length w + length (rest e) - length (rest e)) with (length w) by lia.
  by rewrite take_app_length.
Qed.

(** A scan entered at offset [i] after [skipped] finds what a scan entered at
    offset 0 finds. *)
Lemma search_from_shift r : forall l b i skipped pv,
  search_from r b i skipped pv l =
  shifted i skipped <$> search_from r b 0 [] pv l.
Proof.
  induction l as [|c l IH]; intros b i skipped pv; simpl;
    destruct (attempt r b _) as [e|]; simpl; try done;
    try (unfold shifted, found; simpl; by rewrite Nat.add_0_r, app_nil_r).
  rewrite (IH false (S i) (c :: skipped)), (IH false 1 [c]).
  destruct (search_from r false 0 [] (Some c) l) as [m|]; simpl; [|done].
  unfold shifted. simpl. rewrite <- !app_assoc. simpl.
  do 2 f_equal. lia.
Qed.

(** One step of the loop of [re.sub], for a replacement that looks at the
    matched text and at the groups only: a match at the cursor is replaced,
    else the character at the cursor is copied. *)
Lemma sub_from_step r repl fuel b pv l :
  (forall i skipped m, repl (shifted i skipped m) = repl m) ->
  sub_from (S fuel) r repl b pv l =
  let s := {| prev := pv; rest := l; caps := [] |} in
  match attempt r b s with
  | Some e =>
      repl (found 0 [] s e) ++
      sub_from fuel r repl (is_empty (found 0 [] s e)) (prev e) (rest e)
  | None =>
      match l with
      | [] => []
      | c :: l' => c :: sub_from (S fuel) r repl false (Some c) l'
      end
  end.
Proof.
  intros Hrepl. destruct l as [|c l]; simpl;
    destruct (attempt r b _) as [e|]; simpl; try done.
  rewrite (search_from_shift r l false 1 [c]).
  destruct (search_from r false 0 [] (Some c) l) as [m|]; simpl; [|done].
  by rewrite Hrepl.
Qed.

(** Inversions for the constructs of the patterns. *)
Lemma exec_Seq r1 r2 s k :
  exec (Seq r1 r2) s k = exec r1 s (fun s1 => exec r2 s1 k).
Proof. done. Qed.

Lemma exec_Chr_nil p pv cs k :
  exec (Chr p) {| prev := pv; rest := []; caps := cs |} k = None.
Proof. done. Qed.

Lemma exec_Chr_cons p pv c l cs k :
  exec (Chr p) {| prev := pv; rest := c :: l; caps := cs |} k =
  if p c then k {| prev := Some c; rest := l; caps := cs |} else None.
Proof. done. Qed.

Lemma exec_Star g r s k :
  exec (Star g r) s k = star_loop (exec r) g k (length (rest s)) s.
Proof. done. Qed.

Lemma exec_Alt r1 r2 s k :
  exec (Alt r1 r2) s k =
  match exec r1 s k with Some e => Some e | None => exec r2 s k end.
Proof. done. Qed.

Lemma exec_WordB_inv s k e : exec WordB s k = Some e -> k s = Some e.
Proof. simpl. by destruct (xorb _ _). Qed.

Lemma exec_Lit_inv c s k e :
  exec (Lit c) s k = Some e ->
  exists l, rest s = c :: l /\ k (after [c] l s) = Some e.
Proof.
  simpl. destruct (rest s) as [|d l]; [done|].
  destruct (Ascii.eqb_spec c d) as [->|]; [|done]. by exists l.
Qed.

Lemma exec_Group_inv n r s k e :
  exec (Group n r) s k = Some e ->
  exists s1, k (set_cap n (consumed s s1) s1) = Some e /\
    rest s1 `suffix_of` rest s /\ (group_free r = true -> caps s1 = caps s).
Proof. simpl. intros H. by apply exec_inv in H. Qed.

(** One step of the loop of [re.split]: a match at the cursor closes an
    empty piece, else the character at the cursor joins the first piece of
    what follows. *)
Lemma split_from_step r fuel b pv l :
  split_from (S fuel) r b pv l =
  let s := {| prev := pv; rest := l; caps := [] |} in
  match attempt r b s with
  | Some e =>
      Some [] :: map (fun j => cap j (caps e)) (seq 1 (ngroups r)) ++
      split_from fuel r (is_empty (found 0 [] s e)) (prev e) (rest e)
  | None =>
      match l with
      | [] => [Some []]
      | c :: l' => cons_head c (split_from (S fuel) r false (Some c) l')
      end
  end.
Proof.
  destruct l as [|c l]; simpl;
    destruct (attempt r b _) as [e|]; simpl; try done.
  rewrite (search_from_shift r l false 1 [c]).
  by destruct (search_from r false 0 [] (Some c) l) as [m|].
Qed.

Lemma split_from_head fuel r b pv l :
  exists x xs, split_from fuel r b pv l = Some x :: xs.
Proof.
  destruct fuel as [|fuel]; simpl; [by eexists _, _|].
  destruct (search_from r b 0 [] pv l); by eexists _, _.
Qed.

(** The repetition of a character class, read on the text. *)
Lemma star_loop_greedy_Chr p k : forall fuel pv l cs,
  length l <= fuel ->
  star_loop (exec (Chr p)) true k fuel {| prev := pv; rest := l; caps := cs |} =
  greedy_chars p k pv l cs.
Proof.
  induction fuel as [|fuel IH]; intros pv l cs Hl.
  { destruct l; [done|simpl in Hl; lia]. }
  destruct l as [|c l]; [done|]. cbn [star_loop exec rest greedy_chars].
  destruct (p c); [|done].
  cbn [after rest]. replace (length l <? length (c :: l))%nat with true
    by (symmetry; apply Nat.ltb_lt; simpl; lia).
  unfold after. cbn [last prev caps]. rewrite IH by (simpl in Hl; lia). done.
Qed.

Lemma after_cons w d c l1 pv l2 cs :
  after w d {| prev := Some c; rest := l1; caps := cs |} =
  after (c :: w) d {| prev := pv; rest := l2; caps := cs |}.
Proof.
  unfold after. cbn [prev caps]. f_equal.
  destruct w as [|x w]; [done|].
  rewrite last_cons_cons. destruct (last (x :: w)) eqn:Hl; [done|].
  by apply last_None in Hl.
Qed.

Lemma after_app w v d s :
  v <> [] -> after (w ++ v) d s = after v d s.
Proof.
  intros Hv. unfold after. f_equal. rewrite last_app.
  destruct (last v) eqn:Hl; [done|]. by apply last_None in Hl.
Qed.

Lemma exec_Group n r s k :
  exec (Group n r) s k = exec r s (fun s1 => k (set_cap n (consumed s s1) s1)).
Proof. done. Qed.

Lemma after_take_run_cons p c l pv cs :
  after (take_run p l) (drop_run p l) {| prev := Some c; rest := l; caps := cs |} =
  after (c :: take_run p l) (drop_run p l)
    {| prev := pv; rest := c :: l; caps := cs |}.
Proof.
  unfold after. cbn [prev caps]. f_equal.
  destruct (take_run p l) as [|d w]; [done|].
  rewrite last_cons_cons. destruct (last (d :: w)) eqn:Hl; [done|].
  by apply last_None in Hl.
Qed.

(** When the continuation fails wherever the run goes on, the repetition
    comes down to the continuation at the end of the longest run. *)
Lemma greedy_chars_end p k cs :
  (forall pv c l, p c = true ->
     k {| prev := pv; rest := c :: l; caps := cs |} = None) ->
  forall l pv,
    greedy_chars p k pv l cs =
    k (after (take_run p l) (drop_run p l) {| prev := pv; rest := l; caps := cs |}).
Proof.
  intros Hk. induction l as [|c l IH]; intros pv; [done|].
  cbn [greedy_chars take_run drop_run]. destruct (p c) eqn:Hc; [|done].
  rewrite IH, after_take_run_cons with (pv := pv).
  destruct (k _); [done|]. by apply Hk.
Qed.

(** When the continuation accepts the end of the longest run, the repetition
    stops there. *)
Lemma greedy_chars_longest p k cs : forall l pv,
  is_Some (k (after (take_run p l) (drop_run p l)
                {| prev := pv; rest := l; caps := cs |})) ->
  greedy_chars p k pv l cs =
  k (after (take_run p l) (drop_run p l) {| prev := pv; rest := l; caps := cs |}).
Proof.
  induction l as [|c l IH]; intros pv Hk; [done|].
  cbn [greedy_chars take_run drop_run] in *. destruct (p c) eqn:Hc; [|done].
  rewrite <- after_take_run_cons in *. rewrite IH by done.
  by destruct Hk as [e ->].
Qed.

Lemma drop_run_length p l : length (drop_run p l) <= length l.
Proof. induction l as [|c l IH]; simpl; [done|]. destruct (p c); simpl; lia. Qed.

Lemma take_drop_run p l : take_run p l ++ drop_run p l = l.
Proof. induction l as [|c l IH]; simpl; [done|]. destruct (p c); simpl; by f_equal. Qed.

(** *** The bounds on the loops are not reached *)

(** The matcher only looks at its continuation on states further on in the
    text. *)
Lemma star_loop_ext body greedy :
  (forall s k1 k2,
     (forall s', length (rest s') <= length (rest s) -> k1 s' = k2 s') ->
     body s k1 = body s k2) ->
  forall fuel s k1 k2,
    (forall s', length (rest s') <= length (rest s) -> k1 s' = k2 s') ->
    star_loop body greedy k1 fuel s = star_loop body greedy k2 fuel s.
Proof.
  intros Hbody fuel. induction fuel as [|fuel IH]; intros s k1 k2 Hk; simpl.
  { by apply Hk. }
  rewrite (Hk s) by done.
  rewrite (Hbody s _ (fun s1 =>
    if (length (rest s1) <? length (rest s))%nat
    then star_loop body greedy k2 fuel s1 else None)); [done|].
  intros s1 Hs1. destruct (length (rest s1) <? length (rest s))%nat eqn:Hlt; [|done].
  apply IH. intros s' Hs'. apply Hk. lia.
Qed.

Lemma exec_ext r : forall s k1 k2,
  (forall s', length (rest s') <= length (rest s) -> k1 s' = k2 s') ->
  exec r s k1 = exec r s k2.
Proof.
  induction r as [|p|r1 IH1 r2 IH2|r1 IH1 r2 IH2|g r1 IH1|n r1 IH1|n| | | |r1 IH1];
    intros s k1 k2 Hk; simpl; try (by rewrite (Hk s)).
  - destruct (rest s) as [|c l] eqn:Hr; [done|]. destruct (p c); [|done].
    apply Hk. simpl. lia.
  - apply IH1. intros s1 Hs1. apply IH2. intros s2 Hs2. apply Hk. lia.
  - by rewrite (IH1 s k1 k2 Hk), (IH2 s k1 k2 Hk).
  - by apply star_loop_ext.
  - apply IH1. intros s1 Hs1. by apply Hk.
  - destruct (cap n (caps s)) as [w|]; [|done].
    destruct (PyStr.strip_prefix _ _) as [l|] eqn:Hp; [|done].
    apply Hk. simpl. apply strip_prefix_Some in Hp. rewrite Hp, length_app. lia.
Qed.

(** A repetition never runs out of iterations: any bound not below the
    length of the text left gives the same outcome. *)
Lemma star_loop_fuel r greedy k : forall fuel1 fuel2 s,
  length (rest s) <= fuel1 -> length (rest s) <= fuel2 ->
  star_loop (exec r) greedy k fuel1 s = star_loop (exec r) greedy k fuel2 s.
Proof.
  assert (Hstuck : forall fuel s, rest s = [] ->
            star_loop (exec r) greedy k fuel s = k s).
  { intros [|fuel] s Hs; [done|]. simpl.
    destruct (exec r s _) as [e|] eqn:He.
    - apply exec_inv in He as (s1 & He & _ & _). rewrite Hs in He.
      unfold Nat.ltb in He. simpl in He. discriminate.
    - destruct greedy; [done|]. by destruct (k s). }
  induction fuel1 as [|fuel1 IH]; intros fuel2 s H1 H2.
  { assert (rest s = []) by (destruct (rest s); [done|simpl in H1; lia]).
    by rewrite !Hstuck. }
  destruct fuel2 as [|fuel2].
  { assert (rest s = []) by (destruct (rest s); [done|simpl in H2; lia]).
    by rewrite !Hstuck. }
  simpl. erewrite exec_ext; [reflexivity|].
  intros s1 Hs1. cbv beta.
  destruct (length (rest s1) <? length (rest s))%nat eqn:Hlt; [|done].
  apply Nat.ltb_lt in Hlt. apply IH; lia.
Qed.

(** After a match the scan has less left to do: less text, or the same text
    and the obligation to advance. *)
Lemma search_from_progress r l b i skipped pv m :
  search_from r b i skipped pv l = Some m ->
  2 * length (m_rest m) + (if is_empty m then 0 else 1) <
  2 * length l + (if b then 0 else 1).
Proof.
  intros H. apply search_from_inv in H as (pre & _ & Hl & _ & Hadv).
  rewrite Hl, !length_app. unfold is_empty.
  destruct (m_text m) as [|c w] eqn:Ht.
  - destruct pre as [|d pre]; simpl; [|destruct b; lia].
    destruct b; [|lia]. by specialize (Hadv eq_refl eq_refl).
  - simpl. destruct b; lia.
Qed.

(** The scanning loops never run out of iterations. *)
Lemma finditer_from_fuel r : forall fuel1 fuel2 (b : bool) i pv (l : str),
  2 * length l + (if b then 0 else 1) < fuel1 ->
  2 * length l + (if b then 0 else 1) < fuel2 ->
  finditer_from fuel1 r b i pv l = finditer_from fuel2 r b i pv l.
Proof.
  induction fuel1 as [|fuel1 IH]; intros fuel2 b i pv l H1 H2; [lia|].
  destruct fuel2 as [|fuel2]; [lia|]. simpl.
  destruct (search_from r b i [] pv l) as [m|] eqn:Hs; [|done].
  apply search_from_progress in Hs. f_equal. apply IH; lia.
Qed.

Lemma sub_from_fuel r repl : forall fuel1 fuel2 (b : bool) pv (l : str),
  2 * length l + (if b then 0 else 1) < fuel1 ->
  2 * length l + (if b then 0 else 1) < fuel2 ->
  sub_from fuel1 r repl b pv l = sub_from fuel2 r repl b pv l.
Proof.
  induction fuel1 as [|fuel1 IH]; intros fuel2 b pv l H1 H2; [lia|].
  destruct fuel2 as [|fuel2]; [lia|]. simpl.
  destruct (search_from r b 0 [] pv l) as [m|] eqn:Hs; [|done].
  apply search_from_progress in Hs. do 2 f_equal. apply IH; lia.
Qed.

Lemma split_from_fuel r : forall fuel1 fuel2 (b : bool) pv (l : str),
  2 * length l + (if b then 0 else 1) < fuel1 ->
  2 * length l + (if b then 0 else 1) < fuel2 ->
  split_from fuel1 r b pv l = split_from fuel2 r b pv l.
Proof.
  induction fuel1 as [|fuel1 IH]; intros fuel2 b pv l H1 H2; [lia|].
  destruct fuel2 as [|fuel2]; [lia|]. simpl.
  destruct (search_from r b 0 [] pv l) as [m|] eqn:Hs; [|done].
  apply search_from_progress in Hs. do 2 f_equal. apply IH; lia.
Qed.

(** In particular more iterations than [scan_fuel] allows change nothing. *)
Lemma finditer_complete r text fuel :
  scan_fuel text <= fuel -> finditer_from fuel r false 0 None text = finditer r text.
Proof. intros H. apply finditer_from_fuel; unfold scan_fuel in *; lia. Qed.

(** A match found by the scan comes from an attempt at some cursor. *)
Lemma search_from_found r : forall l b i skipped pv m,
  search_from r b i skipped pv l = Some m ->
  exists b' i' skipped' s e,
    caps s = [] /\ attempt r b' s = Some e /\ m = found i' skipped' s e.
Proof.
  induction l as [|c l IH]; intros b i skipped pv m H; simpl in H;
    destruct (attempt r b _) as [e|] eqn:Ha; try discriminate;
    try (injection H as <-; eexists b, i, skipped, _, e;
         split; [|split; [exact Ha|reflexivity]]; reflexivity).
  by apply IH in H.
Qed.

(** What holds of every match of a scan holds of the matches [finditer]
    lists. *)
Lemma finditer_from_Forall r (P : rmatch -> Prop) :
  (forall b i skipped pv l m, search_from r b i skipped pv l = Some m -> P m) ->
  forall fuel b i pv l, Forall P (finditer_from fuel r b i pv l).
Proof.
  intros HP fuel. induction fuel as [|fuel IH]; intros b i pv l; simpl; [done|].
  destruct (search_from r b i [] pv l) as [m|] eqn:Hs; [|done].
  constructor; [by eapply HP|apply IH].
Qed.

(** The matches of [finditer] lie in the text in the order of the list,
    without overlap. *)
Lemma finditer_from_successive r text : forall fuel b i pv l,
  drop i text = l -> successive text i (finditer_from fuel r b i pv l).
Proof.
  intros fuel. induction fuel as [|fuel IH]; intros b i pv l Hl; simpl; [done|].
  destruct (search_from r b i [] pv l) as [m|] eqn:Hs; [|done].
  apply search_from_inv in Hs as (pre & _ & Hsplit & Hstart & _).
  assert (Hat : drop (m_start m) text = m_text m ++ m_rest m).
  { rewrite Hstart, <- drop_drop, Hl, Hsplit.
    by rewrite drop_app_length. }
  cbn [successive]. split; [lia|]. split.
  - by rewrite Hat, take_app_length.
  - apply IH. unfold m_end. rewrite <- drop_drop, Hat.
    by rewrite drop_app_length.
Qed.

Lemma finditer_successive r text : successive text 0 (finditer r text).
Proof. by apply finditer_from_successive. Qed.

End MatcherFacts.

(* ===================================================================== *)
(** ** The constructor and the setter (base_analyzer.py) *)
(* ===================================================================== *)

Section Validation.
Import BaseTextAnalyzer.

Lemma rejected_spec v :
  rejected v = match v with PyStr (_ :: _) => false | _ => true end.
Proof.
  unfold rejected. destruct v as [| | | |[|c s]| | |]; simpl; try done;
    by rewrite orb_true_r.
Qed.

(** Past the guard the argument is a string: the constructor and the setter
    raise nothing but [ValueError]. *)
Lemma __init___no_TypeError v : __init__ v <> Raise TypeError.
Proof.
  unfold __init__. rewrite rejected_spec.
  destruct v as [| | | |[|c s]| | |]; simpl; congruence.
Qed.

Lemma __init___spec v :
  __init__ v =
  match v with
  | PyStr (c :: s) => Ok {| _text := c :: s; _cached_sentences := None |}
  | _ => Raise ValueError
  end.
Proof.
  unfold __init__. rewrite rejected_spec. by destruct v as [| | | |[|c s]| | |].
Qed.

Lemma set_text_spec self v :
  set_text self v =
  match v with
  | PyStr (c :: s) => Ok {| _text := c :: s; _cached_sentences := None |}
  | _ => Raise ValueError
  end.
Proof.
  unfold set_text. rewrite rejected_spec. by destruct v as [| | | |[|c s]| | |].
Qed.

(** Claim C3, counterexample: a document of two spaces consists only of
    whitespace, and the constructor accepts it. *)
Lemma C3_whitespace_document_accepted :
  PyStr.all Char.is_space (lit "  ") = true /\
  __init__ (PyStr (lit "  ")) =
    Ok {| _text := lit "  "; _cached_sentences := None |} /\
  __init__ (PyStr (lit "  ")) <> Raise ValueError.
Proof. repeat split. discriminate. Qed.

(** Claim C3, amended: the constructor and the setter of [text] raise
    [ValueError] exactly when the argument is not a string or is the empty
    string; every non-empty string (also one of whitespace only) is accepted
    and stored with an empty sentence cache, so that no extraction has run
    by then. *)
Theorem C3_validation (v : pyval) :
  __init__ v =
    match v with
    | PyStr (c :: s) => Ok {| _text := c :: s; _cached_sentences := None |}
    | _ => Raise ValueError
    end /\
  forall self : analyzer,
    set_text self v =
      match v with
      | PyStr (c :: s) => Ok {| _text := c :: s; _cached_sentences := None |}
      | _ => Raise ValueError
      end.
Proof. split; [apply __init___spec|]. intros self. apply set_text_spec. Qed.

End Validation.

(* ===================================================================== *)
(** ** Evaluations at concrete documents *)
(* ===================================================================== *)

Section Evaluations.
Import BaseTextAnalyzer.

(** Claim C2 at the inputs that separate the two smiley counters.  The
    pattern of [TextAnalyzer.count_smileys] asks for a bracket followed by
    at least one repetition of it: it misses the one-bracket smiley [:)]
    and counts the first two brackets of [:-))]].  The counter of
    [AdvancedTextAnalyzer] counts the former and rejects the latter.  Both
    count [:-)))] once and [:-)]] not at all. *)
Theorem C2_smiley_counters_differ :
  TextAnalyzer.count_smileys (fresh (lit ":)")) = 0 /\
  advanced_entry (lit ":)") "smiley_count" = Some (PyInt 1) /\
  TextAnalyzer.count_smileys (fresh (lit ":-))]")) = 1 /\
  advanced_entry (lit ":-))]") "smiley_count" = Some (PyInt 0) /\
  TextAnalyzer.count_smileys (fresh (lit ":-)))")) = 1 /\
  advanced_entry (lit ":-)))") "smiley_count" = Some (PyInt 1) /\
  TextAnalyzer.count_smileys (fresh (lit ":-)]")) = 0 /\
  advanced_entry (lit ":-)]") "smiley_count" = Some (PyInt 0).
Proof. repeat split; vm_compute; reflexivity. Qed.

(** Claim C8 at the document [i]: the pattern of
    [TextAnalyzer.get_shortest_i_word] asks for a second word character, so
    the one-letter word is not found and the result is the empty string,
    whereas [AdvancedTextAnalyzer._analyze_words] reports the word. *)
Theorem C8_one_letter_i_word :
  TextAnalyzer.get_shortest_i_word (fresh (lit "i")) = [] /\
  advanced_entry (lit "i") "shortest_i_word" = Some (PyStr (lit "i")).
Proof. split; vm_compute; reflexivity. Qed.

(** Claim C9: the document [Wow!.] holds a fragment ended by [!] and one
    ended by [.]; [BasicTextAnalyzer] finds one sentence in it and counts it
    both as declarative and as exclamatory, so the three class counts add up
    to 2, not to the total of 1. *)
Theorem C9_classes_overlap :
  exists text : str,
    "."%char ∈ text /\ "!"%char ∈ text /\
    exists total declarative interrogative exclamatory : Z,
      basic_entry text "total_sentences" = Some (PyInt total) /\
      basic_entry text "declarative_sentences" = Some (PyInt declarative) /\
      basic_entry text "interrogative_sentences" = Some (PyInt interrogative) /\
      basic_entry text "exclamatory_sentences" = Some (PyInt exclamatory) /\
      total = 1%Z /\ declarative = 1%Z /\ exclamatory = 1%Z /\
      (declarative + interrogative + exclamatory)%Z <> total.
Proof.
  exists (lit "Wow!."). split; [|split].
  - apply list_elem_of_In. vm_compute. tauto.
  - apply list_elem_of_In. vm_compute. tauto.
  - exists 1%Z, 1%Z, 0%Z, 1%Z. repeat split; try (vm_compute; reflexivity).
    discriminate.
Qed.

End Evaluations.

(* ===================================================================== *)
(** ** Segmentation never fails and never yields a blank sentence *)
(* ===================================================================== *)

Section Segmentation.
Import BaseTextAnalyzer TextAnalyzer.

(** A capturing group around the whole pattern always takes part in the
    match and holds the matched text. *)
Lemma attempt_group n r b s e :
  attempt (Group n r) b s = Some e -> cap n (caps e) = Some (consumed s e).
Proof.
  unfold attempt. simpl. intros H. apply exec_inv in H as (s1 & H & _ & _).
  destruct (b && _); [discriminate|]. injection H as <-.
  simpl. by rewrite Nat.eqb_refl.
Qed.

Lemma search_from_group n r : forall l b i skipped pv m,
  search_from (Group n r) b i skipped pv l = Some m ->
  group n m = Some (m_text m).
Proof.
  induction l as [|c l IH]; intros b i skipped pv m H; simpl in H;
    destruct (attempt (Group n r) b _) as [e|] eqn:Ha; try discriminate;
    try (injection H as <-; by apply attempt_group in Ha).
  by apply IH in H.
Qed.

Lemma split_parts_are_strings fuel : forall b pv l,
  Forall is_Some (split_from fuel split_re b pv l).
Proof.
  induction fuel as [|fuel IH]; intros b pv l; simpl.
  { repeat constructor. by eexists. }
  destruct (search_from split_re b 0 [] pv l) as [m|] eqn:Hs.
  - constructor; [by eexists|]. simpl.
    constructor; [|by apply IH].
    apply search_from_group in Hs. rewrite Hs. by eexists.
  - repeat constructor. by eexists.
Qed.

Lemma lstrip_head s c l : PyStr.lstrip s = c :: l -> Char.is_space c = false.
Proof.
  induction s as [|d s IH]; simpl; [discriminate|].
  destruct (Char.is_space d) eqn:Hd; [done|]. by intros [= <- _].
Qed.

Lemma strip_nonblank s :
  PyStr.truthy (PyStr.strip s) = true -> nonblank (PyStr.strip s).
Proof.
  unfold PyStr.strip. destruct (PyStr.lstrip _) as [|c l] eqn:Hl; [done|].
  intros _. split; [done|]. simpl. by rewrite (lstrip_head _ _ _ Hl).
Qed.

(** The loop over the parts runs to its end when every part is a string,
    and only adds non-blank sentences. *)
Lemma collect_ok parts : forall ss cur,
  Forall is_Some parts -> Forall nonblank ss ->
  exists ss' cur', collect parts ss cur = Ok (ss', cur') /\ Forall nonblank ss'.
Proof.
  induction parts as [|part parts IH]; intros ss cur Hparts Hss; simpl.
  { by eexists _, _. }
  apply Forall_cons in Hparts as [[w ->] Hparts].
  destruct (search boundary_re w).
  - destruct (PyStr.truthy _) eqn:Ht; [|by apply IH].
    apply IH; [done|]. apply Forall_app. split; [done|].
    constructor; [|done]. by apply strip_nonblank.
  - by apply IH.
Qed.

Lemma _split_into_sentences_ok self :
  exists ss, _split_into_sentences self = Ok ss /\ Forall nonblank ss.
Proof.
  unfold _split_into_sentences, split.
  destruct (collect_ok _ [] []
              (split_parts_are_strings (scan_fuel (text self)) false None (text self)))
    as (ss & cur & -> & Hss); [done|].
  simpl. destruct (PyStr.truthy _) eqn:Ht; eexists; split; try done.
  apply Forall_app. split; [done|]. constructor; [|done]. by apply strip_nonblank.
Qed.

(** The property [sentences]: a first read segments the text and fills the
    cache, a later read returns the cached list. *)
Lemma sentences_fresh self ss :
  _cached_sentences self = None -> _split_into_sentences self = Ok ss ->
  sentences self = Ok (ss, {| _text := _text self; _cached_sentences := Some ss |}).
Proof. unfold sentences, BaseTextAnalyzer.sentences. by intros -> ->. Qed.

Lemma sentences_cached self ss :
  _cached_sentences self = Some ss -> sentences self = Ok (ss, self).
Proof. unfold sentences, BaseTextAnalyzer.sentences. by intros ->. Qed.

(** Reading [sentences] always succeeds, and leaves an instance with the
    same text whose cache holds the list read. *)
Lemma sentences_ok self :
  exists ss self', sentences self = Ok (ss, self') /\
    _text self' = _text self /\ _cached_sentences self' = Some ss /\
    (_cached_sentences self = None -> _split_into_sentences self = Ok ss).
Proof.
  destruct (_cached_sentences self) as [ss|] eqn:Hc.
  - exists ss, self. by rewrite (sentences_cached _ _ Hc).
  - destruct (_split_into_sentences_ok self) as (ss & Hs & _).
    eexists ss, _. by rewrite (sentences_fresh _ _ Hc Hs).
Qed.

(** Claim C6: for every non-empty document, the constructor accepts it and
    segmentation returns a list of sentences none of which is empty or made
    of whitespace only. *)
Theorem C6_no_blank_sentence (text : str) :
  text <> [] ->
  exists self ss,
    __init__ (PyStr text) = Ok self /\
    _split_into_sentences self = Ok ss /\
    Forall (fun s => s <> [] /\ PyStr.all Char.is_space s = false) ss.
Proof.
  intros Htext. destruct text as [|c text]; [done|].
  destruct (_split_into_sentences_ok (fresh (c :: text))) as (ss & Hs & Hss).
  by exists (fresh (c :: text)), ss.
Qed.

Lemma C6_no_blank_sentence_witness :
  exists self ss,
    __init__ (PyStr (lit "Wait!! ? Go.")) = Ok self /\
    _split_into_sentences self = Ok ss /\
    Forall (fun s => s <> [] /\ PyStr.all Char.is_space s = false) ss.
Proof. apply (C6_no_blank_sentence (lit "Wait!! ? Go.")). discriminate. Defined.

End Segmentation.

(* ===================================================================== *)
(** ** Sentence types *)
(* ===================================================================== *)

Section SentenceTypes.
Import BaseTextAnalyzer TextAnalyzer.

Lemma classify_incr types s : classify types s = incr (sentence_type s) types.
Proof.
  unfold classify, sentence_type.
  by destruct (PyStr.endswith s "?"), (PyStr.endswith s "!").
Qed.

Lemma count_type_cons key s ss :
  count_type key (s :: ss) =
  ((if decide (sentence_type s = key) then 1 else 0) + count_type key ss)%Z.
Proof.
  unfold count_type. rewrite filter_cons.
  destruct (decide (sentence_type s = key)); simpl; lia.
Qed.

(** After the loop, every key holds its initial value plus the number of
    sentences of that type. *)
Lemma foldl_classify key ss : forall types,
  foldl classify types ss !! key =
  (fun n => n + count_type key ss)%Z <$> types !! key.
Proof.
  induction ss as [|s ss IH]; intros types; simpl.
  { unfold count_type. simpl. destruct (types !! key); simpl; f_equal; lia. }
  rewrite IH, classify_incr, count_type_cons. unfold incr.
  rewrite lookup_alter.
  destruct (decide (sentence_type s = key)) as [->|Hne].
  - destruct (types !! key); simpl; f_equal; lia.
  - destruct (types !! key); simpl; f_equal; lia.
Qed.

(** Every sentence has exactly one of the three types. *)
Lemma count_type_total ss :
  (count_type declarative ss + count_type interrogative ss +
   count_type exclamatory ss)%Z = Z.of_nat (length ss).
Proof.
  induction ss as [|s ss IH]; [done|].
  rewrite !count_type_cons. simpl length. rewrite Nat2Z.inj_succ, <- IH.
  unfold sentence_type.
  unfold declarative, interrogative, exclamatory.
  destruct (PyStr.endswith s "?"), (PyStr.endswith s "!");
    repeat case_decide; try discriminate; try congruence; lia.
Qed.

Lemma get_sentence_types_run self ss self' :
  sentences self = Ok (ss, self') ->
  exists types,
    get_sentence_types self = Ok (types, self') /\
    types !! declarative = Some (count_type declarative ss) /\
    types !! interrogative = Some (count_type interrogative ss) /\
    types !! exclamatory = Some (count_type exclamatory ss).
Proof.
  intros Hs. eexists. unfold get_sentence_types, bind, ret. rewrite Hs.
  split; [reflexivity|]. rewrite !foldl_classify. by repeat split.
Qed.

(** Claim C4: [get_sentence_types] gives every sentence of the segmentation
    (the list that [sentences] returns, which for a new analyzer is the result
    of [_split_into_sentences]) exactly one type, chosen by its last character
    ([?] first, then [!], else declarative); the three counts are the numbers
    of sentences of each type and add up to the number of sentences.  The
    document
    [Hi! Are you ok? Yes.] has three sentences, of types exclamatory,
    interrogative and declarative. *)
Theorem C4_sentence_types :
  (forall self : analyzer,
     exists ss types self',
       sentences self = Ok (ss, self') /\
       (_cached_sentences self = None -> _split_into_sentences self = Ok ss) /\
       get_sentence_types self = Ok (types, self') /\
       types !! declarative = Some (count_type declarative ss) /\
       types !! interrogative = Some (count_type interrogative ss) /\
       types !! exclamatory = Some (count_type exclamatory ss) /\
       (count_type declarative ss + count_type interrogative ss +
        count_type exclamatory ss)%Z = Z.of_nat (length ss)) /\
  (exists self',
     sentences (fresh (lit "Hi! Are you ok? Yes.")) =
       Ok ([lit "Hi!"; lit "Are you ok?"; lit "Yes."], self') /\
     sentence_type <$> [lit "Hi!"; lit "Are you ok?"; lit "Yes."] =
       [exclamatory; interrogative; declarative]).
Proof.
  split.
  - intros self. destruct (sentences_ok self) as (ss & self' & Hs & _ & _ & Hseg).
    destruct (get_sentence_types_run _ _ _ Hs) as (types & Ht & Hd & Hi & He).
    exists ss, types, self'. repeat split; try done. apply count_type_total.
  - eexists. split; vm_compute; reflexivity.
Qed.

End SentenceTypes.

(* ===================================================================== *)
(** ** [analyze] is repeatable *)
(* ===================================================================== *)

Section Analyze.
Import BaseTextAnalyzer TextAnalyzer.

Lemma bind_run {A B} (m : M A) (f : A -> M B) self a self' :
  m self = Ok (a, self') -> bind m f self = f a self'.
Proof. unfold bind. by intros ->. Qed.

(** [analyze] only depends on the instance through the text and the list
    that [sentences] returns. *)
Lemma analyze_after_sentences self ss self' :
  sentences self = Ok (ss, self') -> _cached_sentences self' = Some ss ->
  analyze self = analyze self'.
Proof.
  intros Hs Hc. unfold analyze.
  rewrite (bind_run sentences _ self ss self' Hs).
  by rewrite (bind_run sentences _ self' ss self' (sentences_cached _ _ Hc)).
Qed.

(** With the cache filled, [analyze] returns and leaves the instance as it
    is. *)
Lemma analyze_cached self ss :
  _cached_sentences self = Some ss ->
  exists report, analyze self = Ok (report, self).
Proof.
  intros Hc. destruct ss; eexists;
    unfold analyze, get_sentence_types, get_average_sentence_length, bind, ret, reads;
    rewrite !(sentences_cached _ _ Hc); cbn [negb];
    rewrite ?(sentences_cached _ _ Hc); reflexivity.
Qed.

(** Claim C10: for every document the constructor accepts, [analyze]
    returns a report; a second call on the same analyzer, which then reads
    the sentence cache filled by the first, returns the same report; the
    text held by the analyzer is the same before and after. *)
Theorem C10_analyze_repeatable (v : pyval) (self : analyzer) :
  __init__ v = Ok self ->
  exists report self1 self2,
    analyze self = Ok (report, self1) /\
    analyze self1 = Ok (report, self2) /\
    v = PyStr (text self) /\
    text self1 = text self /\ text self2 = text self.
Proof.
  intros Hinit.
  destruct (sentences_ok self) as (ss & self1 & Hs & Htext & Hc & _).
  destruct (analyze_cached self1 ss Hc) as (report & Hrun).
  exists report, self1, self1.
  rewrite (analyze_after_sentences _ _ _ Hs Hc).
  repeat split; try done.
  pose proof (__init___spec v) as Hv. rewrite Hinit in Hv.
  destruct v as [| | | |[|c s]| | |]; try discriminate. by injection Hv as ->.
Qed.

Lemma C10_analyze_repeatable_witness :
  exists report self1 self2,
    analyze (fresh (lit "Hi! Mail a.b@example.com :-)) now.")) = Ok (report, self1) /\
    analyze self1 = Ok (report, self2) /\
    PyStr (lit "Hi! Mail a.b@example.com :-)) now.") =
      PyStr (text (fresh (lit "Hi! Mail a.b@example.com :-)) now."))) /\
    text self1 = text (fresh (lit "Hi! Mail a.b@example.com :-)) now.")) /\
    text self2 = text (fresh (lit "Hi! Mail a.b@example.com :-)) now.")).
Proof.
  apply (C10_analyze_repeatable (PyStr (lit "Hi! Mail a.b@example.com :-)) now."))).
  reflexivity.
Defined.

End Analyze.

(* ===================================================================== *)
(** ** Variable substitution *)
(* ===================================================================== *)

Section Substitution.
Import BaseTextAnalyzer.

(** A run of literal characters matches exactly that prefix. *)
Lemma exec_Lits_cons w : forall c s k,
  exec (Lits (c :: w)) s k =
  match PyStr.strip_prefix (c :: w) (rest s) with
  | Some l => k (after (c :: w) l s)
  | None => None
  end.
Proof.
  induction w as [|c' w IH]; intros c s k.
  - cbn [Lits Lit exec PyStr.strip_prefix].
    destruct (rest s) as [|d l]; [done|]. by destruct (Ascii.eqb_spec c d) as [->|].
  - change (Lits (c :: c' :: w)) with (Seq (Lit c) (Lits (c' :: w))).
    cbn [exec Lit]. destruct (rest s) as [|d l] eqn:Hr; [done|].
    change (PyStr.strip_prefix (c :: c' :: w) (d :: l)) with
      (if Ascii.eqb c d then PyStr.strip_prefix (c' :: w) l else None).
    destruct (Ascii.eqb_spec c d) as [->|]; [|done].
    rewrite IH. cbn [rest after].
    destruct (PyStr.strip_prefix (c' :: w) l) as [l2|]; [|done].
    f_equal. unfold after. cbn [caps prev]. f_equal.
    change (last (d :: c' :: w)) with (last (c' :: w)).
    destruct (last (c' :: w)) eqn:Hl; [done|]. by apply last_None in Hl.
Qed.

Lemma exec_Lits w : w <> [] -> forall s k,
  exec (Lits w) s k =
  match PyStr.strip_prefix w (rest s) with
  | Some l => k (after w l s)
  | None => None
  end.
Proof. destruct w as [|c w]; [done|]. intros _. apply exec_Lits_cons. Qed.

(** A group around one character class. *)
Lemma exec_Group_Chr n p s k :
  exec (Group n (Chr p)) s k =
  match rest s with
  | c :: l => if p c then k (set_cap n [c] (after [c] l s)) else None
  | [] => None
  end.
Proof.
  cbn [exec]. destruct (rest s) as [|c l] eqn:Hr; [done|].
  destruct (p c); [|done]. f_equal. f_equal.
  apply consumed_app. by rewrite Hr.
Qed.

Lemma variable_at_Some l x l2 :
  variable_at l = Some (x, l2) -> l = lit "$v_(" ++ x :: lit ")$" ++ l2.
Proof.
  unfold variable_at.
  destruct (PyStr.strip_prefix (lit "$v_(") l) as [[|y l1]|] eqn:H1; try done.
  destruct (alphanumeric y); [|done].
  destruct (PyStr.strip_prefix (lit ")$") l1) as [l3|] eqn:H2; [|done].
  intros [= -> ->].
  apply strip_prefix_Some in H1 as ->. by apply strip_prefix_Some in H2 as ->.
Qed.

(** The pattern of the source matches at the cursor exactly when an
    occurrence starts there; the match is the occurrence and its group is
    [X]. *)
Lemma attempt_variable pattern b pv l :
  pattern = TextAnalyzer.math_var_re \/ pattern = Task2._variable_pattern ->
  attempt pattern b {| prev := pv; rest := l; caps := [] |} =
  match variable_at l with
  | Some (x, l2) => Some {| prev := Some "$"%char; rest := l2; caps := [(1, [x])] |}
  | None => None
  end.
Proof.
  intros Hp.
  assert (pattern =
    Seq (Lits (lit "$v_(")) (Seq (Group 1 (Chr alphanumeric)) (Lits (lit ")$"))))
    as -> by (by destruct Hp as [-> | ->]).
  unfold attempt, variable_at.
  rewrite exec_Seq, exec_Lits by done. cbn [rest].
  destruct (PyStr.strip_prefix (lit "$v_(") l) as [l1|] eqn:H1; [|done].
  rewrite exec_Seq, exec_Group_Chr. cbn [rest after].
  destruct l1 as [|x l1]; [done|].
  destruct (alphanumeric x); [|done].
  rewrite exec_Lits by done. cbn [rest set_cap after].
  destruct (PyStr.strip_prefix (lit ")$") l1) as [l2|] eqn:H2; [|done].
  cbn [rest]. apply strip_prefix_Some in H1, H2. subst l l1.
  replace (length l2 =? length _)%nat with false; [by rewrite andb_false_r|].
  symmetry. apply Nat.eqb_neq. rewrite !length_app. simpl. lia.
Qed.

Lemma substitute_from_skip w l :
  substitute_from (length w) (w ++ l) = substitute_from 0 l.
Proof. induction w as [|c w IH]; [done|]. simpl. exact IH. Qed.

(** [re.sub] with either pattern of the source and its replacement is the
    substitution of the specification. *)
Lemma sub_variable pattern repl :
  pattern = TextAnalyzer.math_var_re \/ pattern = Task2._variable_pattern ->
  (forall m, repl m = lit "v[" ++ group_or_empty 1 m ++ lit "]") ->
  forall n l, length l <= n ->
  forall fuel b pv, length l < fuel ->
  sub_from fuel pattern repl b pv l = substitute_from 0 l.
Proof.
  intros Hp Hrepl n. induction n as [n IH] using lt_wf_ind.
  intros l Hn fuel b pv Hfuel. destruct fuel as [|fuel]; [lia|].
  rewrite sub_from_step by (intros; by rewrite !Hrepl).
  cbn zeta. rewrite (attempt_variable pattern b pv l Hp).
  destruct l as [|c l'].
  { done. }
  cbn [substitute_from].
  destruct (variable_at (c :: l')) as [[x l2]|] eqn:Hv.
  - rewrite Hrepl. unfold group_or_empty, group, found. cbn [m_caps caps cap].
    cbn [Nat.eqb]. apply variable_at_Some in Hv.
    injection Hv as -> ->.
    change (substitute_from 6 _) with
      (substitute_from (length (lit "v_(" ++ x :: lit ")$"))
         ((lit "v_(" ++ x :: lit ")$") ++ l2)).
    rewrite substitute_from_skip. rewrite <- !app_assoc. do 3 f_equal.
    simpl in Hn, Hfuel. apply (IH (length l2)); cbn [rest]; lia.
  - f_equal. simpl in Hn, Hfuel. apply (IH (length l')); lia.
Qed.

(** Where no occurrence starts, the substitution copies the text. *)
Lemma substitute_ref_no_occurrence text :
  (forall i, variable_at (drop i text) = None) -> substitute_ref text = text.
Proof.
  unfold substitute_ref. induction text as [|c text IH]; intros H; [done|].
  cbn [substitute_from]. pose proof (H 0) as H0. cbn [drop] in H0.
  rewrite H0. f_equal. apply IH.
  intros i. apply (H (S i)).
Qed.

(** Claim C7: with both analyzers, variable substitution is the substitution
    of the specification: from left to right every occurrence of [$v_(X)$]
    with [X] one alphanumeric character becomes [v[X]] and every other
    character is copied (so a text without an occurrence is returned as it
    is).  The result is a new string: [replace_math_vars] returns it and
    assigns nothing, [_substitute_variables] stores it under
    ["substituted_text"] and leaves the text of the analyzer as it was.
    [a $v_(3)$ b] becomes [a v[3] b] and [$v_(xy)$] stays. *)
Theorem C7_variable_substitution :
  (forall self : analyzer,
     TextAnalyzer.replace_math_vars self = substitute_ref (text self)) /\
  (forall self : Task2.analyzer,
     Task2._results (Task2._substitute_variables self) !! "substituted_text" =
       Some (PyStr (substitute_ref (Task2.text self))) /\
     Task2.text (Task2._substitute_variables self) = Task2.text self) /\
  (forall text : str,
     (forall i, variable_at (drop i text) = None) -> substitute_ref text = text) /\
  TextAnalyzer.replace_math_vars (fresh (lit "a $v_(3)$ b")) = lit "a v[3] b" /\
  TextAnalyzer.replace_math_vars (fresh (lit "$v_(xy)$")) = lit "$v_(xy)$" /\
  advanced_entry (lit "a $v_(3)$ b") "substituted_text" = Some (PyStr (lit "a v[3] b")) /\
  advanced_entry (lit "$v_(xy)$") "substituted_text" = Some (PyStr (lit "$v_(xy)$")).
Proof.
  split; [|split; [|split; [|repeat split; vm_compute; reflexivity]]].
  - intros self. unfold TextAnalyzer.replace_math_vars, sub, substitute_ref.
    apply (sub_variable _ _ (or_introl eq_refl)) with (n := length (text self));
      [done | done | unfold scan_fuel; lia].
  - intros self. split; [|done].
    unfold Task2._substitute_variables, Task2.store. cbn [Task2._results].
    rewrite lookup_insert_eq. do 2 f_equal.
    unfold Task2.substituted_text, sub, substitute_ref.
    apply (sub_variable _ _ (or_intror eq_refl)) with (n := length (Task2.text self));
      [done | done | unfold scan_fuel; lia].
  - apply substitute_ref_no_occurrence.
Qed.

End Substitution.

(* ===================================================================== *)
(** ** Email extraction *)
(* ===================================================================== *)

Section Emails.
Import BaseTextAnalyzer.

(** A match of the pattern of [AdvancedTextAnalyzer] is a user name, [@] and
    a domain; the two groups hold the user name and the domain. *)
Lemma attempt_email_pattern b s e :
  caps s = [] ->
  attempt Task2._email_pattern b s = Some e ->
  exists username domain,
    caps e = [(2, domain); (1, username)] /\
    consumed s e = username ++ "@"%char :: domain.
Proof.
  intros Hcaps. unfold attempt, Task2._email_pattern. intros H.
  rewrite exec_Seq in H. apply exec_WordB_inv in H.
  rewrite exec_Seq in H. apply exec_Group_inv in H as (s1 & H & Hs1 & Hc1).
  rewrite exec_Seq in H. apply exec_Lit_inv in H as (l & Hr & H).
  rewrite exec_Seq in H. apply exec_Group_inv in H as (s2 & H & Hs2 & Hc2).
  apply exec_WordB_inv in H.
  destruct (b && _); [done|]. injection H as <-.
  pose proof (suffix_consumed _ _ Hs1) as E1.
  pose proof (suffix_consumed _ _ Hs2) as E2.
  cbn [rest set_cap after] in E2.
  eexists _, _. split.
  - cbn [caps set_cap after] in *. by rewrite Hc2, Hc1, Hcaps.
  - apply consumed_app. cbn [rest set_cap].
    rewrite <- app_assoc. cbn [app]. by rewrite <- E2, <- Hr.
Qed.

(** A match of the pattern of [TextAnalyzer] always has its second group,
    the address. *)
Lemma attempt_email_re b s e :
  attempt TextAnalyzer.email_re b s = Some e -> is_Some (cap 2 (caps e)).
Proof.
  unfold attempt, TextAnalyzer.email_re. intros H.
  rewrite exec_Seq in H. apply exec_inv in H as (s1 & H & _ & _).
  rewrite exec_Seq in H. apply exec_Group_inv in H as (s2 & H & _ & _).
  apply exec_inv in H as (s3 & H & _ & Hc3).
  destruct (b && _); [done|]. injection H as <-.
  rewrite Hc3 by done. cbn [caps set_cap cap]. by rewrite Nat.eqb_refl.
Qed.

(** The tuples that [AdvancedTextAnalyzer] builds are the two groups of the
    successive matches. *)
Lemma email_tuples_groups text :
  Task2.email_tuples text =
  (fun m => (group_or_empty 1 m, group_or_empty 2 m)) <$>
    finditer Task2._email_pattern text.
Proof.
  unfold Task2.email_tuples, findall_tuples.
  change (ngroups Task2._email_pattern) with 2.
  rewrite <- list_fmap_compose. done.
Qed.

(** Claim C1, counterexample: on the document of the claim,
    [TextAnalyzer.get_emails_and_names] yields one pair whose first component
    is the whole address and whose second component, the display name, is
    empty; it is not the pair of the local part and the domain. *)
Lemma C1_address_and_name_pair :
  TextAnalyzer.get_emails_and_names
    (fresh (lit "contact me at a.b@example.com please")) =
    [(Some (lit "a.b@example.com"), [])] /\
  TextAnalyzer.get_emails_and_names
    (fresh (lit "contact me at a.b@example.com please")) <>
    [(Some (lit "a.b"), lit "example.com")].
Proof. split; [vm_compute; reflexivity|]. vm_compute. discriminate. Qed.

(** Claim C1, amended: both extractors yield one entry per match, for the
    successive non-overlapping matches in their order in the text (the scan
    is not cut short by its bound), with no deduplication.  [AdvancedTextAnalyzer._extract_emails] yields the pair of
    the user name and the domain, which joined by [@] are the matched text,
    and for [contact me at a.b@example.com please] exactly the pair
    ([a.b], [example.com]).  [TextAnalyzer.get_emails_and_names] yields the
    pair of the address and the display name, and for that document exactly
    ([a.b@example.com], the empty string). *)
Theorem C1_email_extraction :
  (forall text : str,
     let ms := finditer Task2._email_pattern text in
     successive text 0 ms /\
     (forall fuel, scan_fuel text <= fuel ->
        finditer_from fuel Task2._email_pattern false 0 None text = ms) /\
     Task2.email_tuples text =
       (fun m => (group_or_empty 1 m, group_or_empty 2 m)) <$> ms /\
     Forall (fun m => m_text m =
                        group_or_empty 1 m ++ "@"%char :: group_or_empty 2 m) ms) /\
  (forall self : analyzer,
     let ms := finditer TextAnalyzer.email_re (text self) in
     successive (text self) 0 ms /\
     (forall fuel, scan_fuel (text self) <= fuel ->
        finditer_from fuel TextAnalyzer.email_re false 0 None (text self) = ms) /\
     TextAnalyzer.get_emails_and_names self = TextAnalyzer.email_entry <$> ms /\
     Forall (fun m => is_Some (group 2 m)) ms) /\
  Task2.email_tuples (lit "contact me at a.b@example.com please") =
    [(lit "a.b", lit "example.com")] /\
  advanced_entry (lit "contact me at a.b@example.com please") "emails" =
    Some (PyList [PyDict (<["domain" := PyStr (lit "example.com")]>
                            (<["username" := PyStr (lit "a.b")]> ∅))]) /\
  TextAnalyzer.get_emails_and_names
    (fresh (lit "contact me at a.b@example.com please")) =
    [(Some (lit "a.b@example.com"), [])] /\
  Task2.email_tuples (lit "to a@b.cd and a@b.cd") =
    [(lit "a", lit "b.cd"); (lit "a", lit "b.cd")] /\
  TextAnalyzer.get_emails_and_names (fresh (lit "to a@b.cd and a@b.cd")) =
    [(Some (lit "a@b.cd"), []); (Some (lit "a@b.cd"), [])].
Proof.
  split; [|split; [|repeat split; vm_compute; reflexivity]].
  - intros text ms. split; [apply finditer_successive|].
    split; [intros fuel Hfuel; by apply finditer_complete|].
    split; [apply email_tuples_groups|].
    apply finditer_from_Forall. intros b i skipped pv l m Hs.
    apply search_from_found in Hs as (b' & i' & skipped' & s & e & Hc & Ha & ->).
    apply attempt_email_pattern in Ha as (username & domain & Hcaps & Htext);
      [|done].
    unfold group_or_empty, group, found. cbn [m_caps m_text].
    by rewrite Hcaps.
  - intros self ms. split; [apply finditer_successive|].
    split; [intros fuel Hfuel; by apply finditer_complete|]. split; [done|].
    apply finditer_from_Forall. intros b i skipped pv l m Hs.
    apply search_from_found in Hs as (b' & i' & skipped' & s & e & Hc & Ha & ->).
    by apply attempt_email_re in Ha.
Qed.

End Emails.

(* ===================================================================== *)
(** ** Sentence count of [BasicTextAnalyzer] *)
(* ===================================================================== *)

Section SentenceCount.

(** [[.!?]+] matches at a terminator and takes the whole run. *)
Lemma attempt_terminators b pv l :
  attempt Task2.terminators_re b {| prev := pv; rest := l; caps := [] |} =
  match l with
  | c :: l' =>
      if Task2.terminator c
      then Some (after (c :: take_run Task2.terminator l')
                   (drop_run Task2.terminator l')
                   {| prev := pv; rest := l; caps := [] |})
      else None
  | [] => None
  end.
Proof.
  unfold attempt, Task2.terminators_re, Plus. rewrite exec_Seq.
  destruct l as [|c l]; [done|]. rewrite exec_Chr_cons.
  destruct (Task2.terminator c); [|done].
  rewrite exec_Star. cbn [rest]. rewrite star_loop_greedy_Chr by done.
  rewrite greedy_chars_longest; rewrite after_take_run_cons with (pv := pv);
    cbn [after rest];
    replace (length (drop_run Task2.terminator l) =? length (c :: l))%nat
      with false
      by (symmetry; apply Nat.eqb_neq;
          pose proof (drop_run_length Task2.terminator l); simpl; lia);
    by rewrite andb_false_r.
Qed.

Lemma spans_in_run l :
  spans true l = spans false (drop_run Task2.terminator l).
Proof.
  induction l as [|c l IH]; [done|]. cbn [spans drop_run].
  change (Char.one_of ".!?" c) with (Task2.terminator c).
  destruct (Task2.terminator c) eqn:Hc; [done|]. cbn [spans].
  change (Char.one_of ".!?" c) with (Task2.terminator c). by rewrite Hc.
Qed.

Lemma omap_id_Some (x : str) (l : list (option str)) :
  omap id (Some x :: l) = x :: omap id l.
Proof. done. Qed.

(** [re.split(r'[.!?]+', text)] gives the spans between the maximal runs. *)
Lemma split_terminators n : forall l, length l <= n ->
  forall fuel b pv, length l < fuel ->
  omap id (split_from fuel Task2.terminators_re b pv l) = spans false l.
Proof.
  induction n as [n IH] using lt_wf_ind.
  intros l Hn fuel b pv Hfuel. destruct fuel as [|fuel]; [lia|].
  rewrite split_from_step. cbn zeta. rewrite attempt_terminators.
  destruct l as [|c l]; [done|]. cbn [spans].
  change (Char.one_of ".!?" c) with (Task2.terminator c).
  destruct (Task2.terminator c).
  - change (ngroups Task2.terminators_re) with 0. cbn [seq map app after rest].
    rewrite omap_id_Some. f_equal. rewrite spans_in_run.
    pose proof (drop_run_length Task2.terminator l). simpl in Hn, Hfuel.
    apply (IH (length (drop_run Task2.terminator l))); lia.
  - destruct (split_from_head (S fuel) Task2.terminators_re false (Some c) l)
      as (x & xs & Hx).
    simpl in Hn, Hfuel.
    rewrite <- (IH (length l) ltac:(lia) l ltac:(lia) (S fuel) false (Some c))
      by lia.
    rewrite Hx. cbn [cons_head]. by rewrite !omap_id_Some.
Qed.

Lemma pieces_spans text : Task2.pieces text = spans false text.
Proof.
  unfold Task2.pieces, split.
  apply (split_terminators (length text)); unfold scan_fuel; lia.
Qed.

Lemma stripped_nonempty_filter l :
  Task2.stripped_nonempty l = filter (fun s => s <> []) (PyStr.strip <$> l).
Proof.
  unfold Task2.stripped_nonempty. induction l as [|x l IH]; [done|].
  rewrite fmap_cons, !filter_cons. rewrite <- IH.
  destruct (PyStr.strip x) eqn:Hx; simpl; [done|]. by rewrite Hx.
Qed.

(** The sentences that [_count_sentences] counts are those of the reference
    definition. *)
Lemma count_sentences_ref text :
  Task2.stripped_nonempty (Task2.pieces text) = segment_ref text.
Proof. by rewrite stripped_nonempty_filter, pieces_spans. Qed.

End SentenceCount.

(* ===================================================================== *)
(** ** Segmentation of [TextAnalyzer] *)
(* ===================================================================== *)

Section SentenceBoundaries.
Import BaseTextAnalyzer TextAnalyzer.

Lemma terminator_not_space c : terminator c = true -> Char.is_space c = false.
Proof.
  by destruct c as [[] [] [] [] [] [] [] []].
Qed.

Lemma newline_is_space c : Ascii.eqb c "010" = true -> Char.is_space c = true.
Proof. intros H. apply Ascii.eqb_eq in H. by subst c. Qed.

Lemma separator_split l : l = separator l ++ after_separator l.
Proof.
  unfold separator, after_separator.
  by rewrite <- app_assoc, !take_drop_run.
Qed.

Lemma after_separator_length c l :
  length (after_separator (c :: l)) <= length (c :: l).
Proof.
  unfold after_separator.
  etrans; [apply drop_run_length|apply drop_run_length].
Qed.

Lemma after_separator_shorter l :
  boundary_here l = true -> length (after_separator l) < length l.
Proof.
  destruct l as [|c l]; [done|]. unfold boundary_here, after_separator.
  cbn [drop_run]. destruct (Char.one_of ".!?" c); [|done]. intros _.
  pose proof (drop_run_length Char.is_space (drop_run (Char.one_of ".!?") l)).
  pose proof (drop_run_length (Char.one_of ".!?") l). simpl. lia.
Qed.

(** The pattern [[.!?]+(?:\s+|$)] at the cursor: it matches exactly at a
    boundary, and then takes the whole separator, provided the continuation
    accepts the state after it. *)
Lemma exec_boundary pv l cs k :
  (boundary_here l = true ->
   is_Some (k (after (separator l) (after_separator l)
                 {| prev := pv; rest := l; caps := cs |}))) ->
  exec boundary_re {| prev := pv; rest := l; caps := cs |} k =
  if boundary_here l
  then k (after (separator l) (after_separator l)
            {| prev := pv; rest := l; caps := cs |})
  else None.
Proof.
  intros Hk. unfold boundary_re, Plus. rewrite !exec_Seq.
  destruct l as [|c l]; [done|]. rewrite exec_Chr_cons.
  unfold boundary_here, separator, after_separator in *.
  cbn [take_run drop_run] in *.
  change (Char.one_of ".!?") with terminator in *.
  destruct (terminator c) eqn:Hc; [|done]. cbn [andb] in *.
  rewrite exec_Star. cbn [rest]. rewrite star_loop_greedy_Chr by done.
  rewrite greedy_chars_end.
  2: { intros pv' c' l' Hc'. rewrite exec_Alt, exec_Seq, exec_Chr_cons.
       rewrite (terminator_not_space c' Hc'). cbn [exec rest].
       destruct l' as [|? ?]; [|done].
       destruct (Ascii.eqb c' "010") eqn:Hnl; [|done].
       apply newline_is_space in Hnl.
       by rewrite (terminator_not_space c' Hc') in Hnl. }
  rewrite (after_cons _ _ c l pv (c :: l)).
  destruct (drop_run terminator l) as [|x d] eqn:Hd.
  - cbn [gap_follows take_run drop_run] in *.
    rewrite exec_Alt, exec_Seq. unfold after at 1 2. rewrite exec_Chr_nil.
    cbn [exec rest]. by rewrite app_nil_r.
  - cbn [gap_follows take_run drop_run] in *.
    rewrite exec_Alt, exec_Seq. unfold after at 1. rewrite exec_Chr_cons.
    destruct (Char.is_space x) eqn:Hx.
    + rewrite exec_Star. cbn [rest]. rewrite star_loop_greedy_Chr by done.
      assert (Hst :
        after (take_run Char.is_space d) (drop_run Char.is_space d)
          {| prev := Some x; rest := d; caps := cs |} =
        after ((c :: take_run terminator l) ++ x :: take_run Char.is_space d)
          (drop_run Char.is_space d)
          {| prev := pv; rest := c :: l; caps := cs |}).
      { rewrite after_app by done. apply after_cons. }
      cbn [caps]. rewrite greedy_chars_longest; rewrite Hst; [|by apply Hk].
      by destruct (Hk eq_refl) as [e ->].
    + cbn [exec rest after]. destruct d as [|? ?]; [|done].
      destruct (Ascii.eqb x "010") eqn:Hnl; [|done].
      apply newline_is_space in Hnl. congruence.
Qed.

(** [re.search] and [re.split] try their pattern at the cursor. *)
Lemma attempt_boundary_re b pv l :
  attempt boundary_re b {| prev := pv; rest := l; caps := [] |} =
  if boundary_here l
  then Some (after (separator l) (after_separator l)
               {| prev := pv; rest := l; caps := [] |})
  else None.
Proof.
  unfold attempt.
  assert (Hacc : boundary_here l = true ->
    (b && (length (after_separator l) =? length l)%nat) = false).
  { intros H%after_separator_shorter. rewrite andb_false_iff. right.
    apply Nat.eqb_neq. lia. }
  rewrite exec_boundary; cbn [after rest].
  - destruct (boundary_here l); [|done]. by rewrite Hacc.
  - intros H. by rewrite (Hacc H).
Qed.

Lemma attempt_split_re b pv l :
  attempt split_re b {| prev := pv; rest := l; caps := [] |} =
  if boundary_here l
  then Some (set_cap 1 (separator l)
               (after (separator l) (after_separator l)
                  {| prev := pv; rest := l; caps := [] |}))
  else None.
Proof.
  unfold attempt, split_re. rewrite exec_Group.
  assert (Hacc : boundary_here l = true ->
    (b && (length (after_separator l) =? length l)%nat) = false).
  { intros H%after_separator_shorter. rewrite andb_false_iff. right.
    apply Nat.eqb_neq. lia. }
  assert (Hcons :
    consumed {| prev := pv; rest := l; caps := [] |}
      (after (separator l) (after_separator l)
         {| prev := pv; rest := l; caps := [] |}) = separator l).
  { apply consumed_app. cbn [rest after]. apply separator_split. }
  rewrite exec_boundary; cbn [after rest set_cap] in *.
  - destruct (boundary_here l); [|done]. rewrite Hacc by done.
    unfold set_cap. cbn [prev rest caps]. by rewrite Hcons.
  - intros H. by rewrite (Hacc H).
Qed.

(** *** The parts that [re.split] returns *)

Lemma split_from_boundary : forall l fuel b pv,
  match find_boundary l with
  | Some (t, sep, r) =>
      exists b' pv',
        split_from (S fuel) split_re b pv l =
        Some t :: Some sep :: split_from fuel split_re b' pv' r
  | None => split_from (S fuel) split_re b pv l = [Some l]
  end.
Proof.
  induction l as [|c l IH]; intros fuel b pv;
    rewrite split_from_step; cbn zeta; rewrite attempt_split_re;
    cbn [find_boundary]; destruct (boundary_here _) eqn:Hb;
    try (eexists _, _; change (ngroups split_re) with 1;
         cbn [seq map app caps set_cap cap]; by rewrite Nat.eqb_refl);
    try done.
  specialize (IH fuel false (Some c)).
  destruct (find_boundary l) as [[[t sep] r]|].
  - destruct IH as (b' & pv' & ->). by eexists _, _.
  - by rewrite IH.
Qed.

(** *** What [re.search] finds in a part *)

Lemma search_boundary_None : forall l b i skipped pv,
  find_boundary l = None -> search_from boundary_re b i skipped pv l = None.
Proof.
  induction l as [|c l IH]; intros b i skipped pv; cbn [find_boundary search_from];
    rewrite attempt_boundary_re; destruct (boundary_here _); try done.
  destruct (find_boundary l) as [[[t sep] r]|] eqn:Hf; [done|].
  intros _. by apply IH.
Qed.

Lemma search_boundary_Some l b i skipped pv :
  boundary_here l = true -> is_Some (search_from boundary_re b i skipped pv l).
Proof.
  intros Hb. destruct l as [|c l]; cbn [search_from];
    rewrite attempt_boundary_re, Hb; by eexists.
Qed.

(** *** The text before the first boundary, and the separator *)

Lemma find_boundary_split : forall l t sep r,
  find_boundary l = Some (t, sep, r) ->
  exists l0, l = t ++ l0 /\ boundary_here l0 = true /\
    sep = separator l0 /\ r = after_separator l0.
Proof.
  induction l as [|c l IH]; intros t sep r; cbn [find_boundary];
    destruct (boundary_here _) eqn:Hb; try done;
    try (intros [= <- <- <-]; by eexists).
  destruct (find_boundary l) as [[[t' sep'] r']|] eqn:Hf; [|done].
  intros [= <- <- <-]. destruct (IH _ _ _ eq_refl) as (l0 & -> & ? & ? & ?).
  by exists l0.
Qed.

Lemma gap_after_prefix t l0 :
  boundary_here l0 = true ->
  gap_follows (drop_run terminator (t ++ l0)) = false ->
  gap_follows (drop_run terminator t) = false.
Proof.
  intros Hl0. induction t as [|d t IH]; cbn [app drop_run].
  - destruct l0 as [|c0 l0]; [done|]. unfold boundary_here in Hl0.
    cbn [drop_run]. change (Char.one_of ".!?") with terminator in Hl0.
    destruct (terminator c0); [|done]. cbn [andb] in Hl0. congruence.
  - destruct (terminator d); [done|]. done.
Qed.

Lemma find_boundary_prefix : forall l t sep r,
  find_boundary l = Some (t, sep, r) -> find_boundary t = None.
Proof.
  induction l as [|c l IH]; intros t sep r; cbn [find_boundary];
    destruct (boundary_here _) eqn:Hb; try done;
    try (by intros [= <- <- <-]).
  destruct (find_boundary l) as [[[t' sep'] r']|] eqn:Hf; [|done].
  intros [= <- <- <-]. cbn [find_boundary]. rewrite (IH _ _ _ eq_refl).
  destruct (find_boundary_split _ _ _ _ Hf) as (l0 & -> & Hl0 & _ & _).
  replace (boundary_here (c :: t')) with false; [done|].
  symmetry. unfold boundary_here in *.
  change (Char.one_of ".!?") with terminator in *.
  destruct (terminator c); [|done]. cbn [andb] in *.
  by apply (gap_after_prefix t' l0).
Qed.

Lemma take_run_all p l : forallb p (take_run p l) = true.
Proof.
  induction l as [|c l IH]; [done|]. cbn [take_run].
  destruct (p c) eqn:Hc; [|done]. cbn [forallb]. by rewrite Hc, IH.
Qed.

Lemma drop_run_take_run_app p l y :
  drop_run p (take_run p l ++ y) = drop_run p y.
Proof.
  induction l as [|c l IH]; [done|]. cbn [take_run].
  destruct (p c) eqn:Hc; [|done]. cbn [app drop_run]. by rewrite Hc.
Qed.

Lemma separator_boundary l0 :
  boundary_here l0 = true -> boundary_here (separator l0) = true.
Proof.
  destruct l0 as [|c l0]; [done|]. unfold boundary_here, separator.
  cbn [take_run drop_run]. change (Char.one_of ".!?") with terminator.
  destruct (terminator c) eqn:Hc; [|done]. cbn [andb app]. rewrite Hc.
  intros _. cbn [andb]. rewrite drop_run_take_run_app.
  destruct (drop_run terminator l0) as [|x d]; [done|]. cbn [take_run].
  destruct (Char.is_space x) eqn:Hx; [|done]. cbn [drop_run].
  destruct (terminator x) eqn:Htx; [|by cbn [gap_follows]].
  apply terminator_not_space in Htx. congruence.
Qed.

(** *** Trimming *)

Lemma lstrip_spaces_app w y :
  forallb Char.is_space w = true -> PyStr.lstrip (w ++ y) = PyStr.lstrip y.
Proof.
  induction w as [|c w IH]; [done|]. cbn [forallb app PyStr.lstrip].
  intros [Hc Hw]%andb_true_iff. rewrite Hc. by apply IH.
Qed.

Lemma forallb_rev (q : ascii -> bool) (l : str) : forallb q (rev l) = forallb q l.
Proof.
  induction l as [|c l IH]; [done|]. cbn [rev forallb].
  rewrite forallb_app, IH. cbn [forallb]. rewrite andb_true_r. apply andb_comm.
Qed.

Lemma existsb_rev (q : ascii -> bool) (l : str) : existsb q (rev l) = existsb q l.
Proof.
  induction l as [|c l IH]; [done|]. cbn [rev existsb].
  rewrite existsb_app, IH. cbn [existsb]. rewrite orb_false_r. apply orb_comm.
Qed.

Lemma strip_app_spaces x w :
  forallb Char.is_space w = true -> PyStr.strip (x ++ w) = PyStr.strip x.
Proof.
  intros Hw. unfold PyStr.strip, PyStr.rstrip.
  rewrite rev_app_distr, lstrip_spaces_app; [done|]. by rewrite forallb_rev.
Qed.

Lemma emit_app_spaces x w :
  forallb Char.is_space w = true -> emit (x ++ w) = emit x.
Proof. intros Hw. unfold emit. by rewrite strip_app_spaces. Qed.

Lemma lstrip_keeps_text s :
  existsb (fun c => negb (Char.is_space c)) (PyStr.lstrip s) =
  existsb (fun c => negb (Char.is_space c)) s.
Proof.
  induction s as [|c s IH]; [done|]. cbn [PyStr.lstrip].
  destruct (Char.is_space c) eqn:Hc; [|done]. cbn [existsb]. by rewrite Hc.
Qed.

(** A text with a character that is not whitespace is not trimmed away. *)
Lemma strip_keeps_text s :
  existsb (fun c => negb (Char.is_space c)) s = true -> PyStr.strip s <> [].
Proof.
  intros Hs Hnil.
  assert (existsb (fun c => negb (Char.is_space c)) (PyStr.strip s) = true) as H.
  { unfold PyStr.strip, PyStr.rstrip.
    by rewrite lstrip_keeps_text, existsb_rev, lstrip_keeps_text, existsb_rev. }
  by rewrite Hnil in H.
Qed.

(** *** The reference scan *)

Lemma sentences_from_skip w : forall span l,
  sentences_from (length w) span (w ++ l) = sentences_from 0 span l.
Proof.
  induction w as [|c w IH]; intros span l; [done|]. cbn [length app sentences_from].
  apply IH.
Qed.

Lemma sentences_from_boundary span l :
  boundary_here l = true ->
  sentences_from 0 span l =
  emit (span ++ take_run terminator l) ++ sentences_from 0 [] (after_separator l).
Proof.
  intros Hb. destruct l as [|c l]; [done|]. cbn [sentences_from]. rewrite Hb.
  f_equal. unfold boundary_here in Hb. apply andb_true_iff in Hb as [Hc _].
  unfold separator, after_separator. cbn [take_run drop_run]. rewrite Hc.
  cbn [app length]. rewrite Nat.sub_succ, Nat.sub_0_r.
  rewrite <- (sentences_from_skip
    (take_run (Char.one_of ".!?") l ++
     take_run Char.is_space (drop_run (Char.one_of ".!?") l))).
  f_equal. by rewrite <- app_assoc, !take_drop_run.
Qed.

Lemma sentences_from_found : forall l span t sep r,
  find_boundary l = Some (t, sep, r) ->
  sentences_from 0 span l = emit (span ++ t ++ sep) ++ sentences_from 0 [] r.
Proof.
  induction l as [|c l IH]; intros span t sep r; cbn [find_boundary];
    destruct (boundary_here _) eqn:Hb; try done.
  - intros [= <- <- <-]. rewrite sentences_from_boundary by done.
    cbn [app]. unfold separator. f_equal.
    symmetry. rewrite app_assoc. apply emit_app_spaces, take_run_all.
  - destruct (find_boundary l) as [[[t' sep'] r']|] eqn:Hf; [|done].
    intros [= <- <- <-]. cbn [sentences_from]. rewrite Hb.
    rewrite (IH _ _ _ _ eq_refl). by rewrite <- app_assoc.
Qed.

Lemma sentences_from_none : forall l span,
  find_boundary l = None -> sentences_from 0 span l = emit (span ++ l).
Proof.
  induction l as [|c l IH]; intros span; cbn [find_boundary];
    destruct (boundary_here _) eqn:Hb; try done.
  - intros _. cbn [sentences_from]. by rewrite app_nil_r.
  - destruct (find_boundary l) as [[[t' sep'] r']|] eqn:Hf; [done|].
    intros _. cbn [sentences_from]. rewrite Hb, IH by done.
    by rewrite <- app_assoc.
Qed.

(** *** The loop over the parts *)

Lemma emit_append ss span :
  (if PyStr.truthy (PyStr.strip span) then ss ++ [PyStr.strip span] else ss) =
  ss ++ emit span.
Proof. unfold emit. destruct (PyStr.truthy _); [done|]. by rewrite app_nil_r. Qed.

(** The loop and the step after it, on the parts of a text, add to the
    sentences those of the reference scan. *)
Lemma collect_segment n : forall l, length l <= n ->
  forall fuel b pv ss cur, length l < fuel ->
  (collect (split_from fuel split_re b pv l) ss cur ≫= fun '(ss', cur') =>
     if PyStr.truthy (PyStr.strip cur')
     then Ok (ss' ++ [PyStr.strip cur']) else Ok ss') =
  Ok (ss ++ sentences_from 0 cur l).
Proof.
  induction n as [n IH] using lt_wf_ind.
  intros l Hn fuel b pv ss cur Hfuel. destruct fuel as [|fuel]; [lia|].
  pose proof (split_from_boundary l fuel b pv) as Hparts.
  destruct (find_boundary l) as [[[t sep] r]|] eqn:Hf.
  - destruct Hparts as (b' & pv' & ->).
    destruct (find_boundary_split _ _ _ _ Hf) as (l0 & Hl & Hl0 & Hsep & Hr).
    cbn [collect]. unfold search at 1.
    rewrite (search_boundary_None t) by (by eapply find_boundary_prefix).
    unfold search at 1.
    destruct (search_boundary_Some sep false 0 [] None) as [m ->].
    { subst sep. by apply separator_boundary. }
    rewrite (sentences_from_found l cur t sep r Hf).
    assert (Hlen : length r < length l).
    { subst l r. rewrite length_app.
      pose proof (after_separator_shorter l0 Hl0). lia. }
    rewrite app_assoc, <- (app_assoc cur t sep).
    rewrite <- (IH (length r) ltac:(lia) r ltac:(lia) fuel b' pv' _ []) by lia.
    unfold emit. destruct (PyStr.truthy _); [done|by rewrite app_nil_r].
  - rewrite Hparts. cbn [collect]. unfold search.
    rewrite (search_boundary_None l) by done. cbn [collect mbind result_bind].
    rewrite (sentences_from_none l cur Hf), <- emit_append.
    by destruct (PyStr.truthy _).
Qed.

(** [_split_into_sentences] is the reference scan. *)
Lemma _split_into_sentences_kept self :
  _split_into_sentences self = Ok (segment_kept (text self)).
Proof.
  unfold _split_into_sentences, split, segment_kept.
  rewrite <- (app_nil_l (sentences_from 0 [] (text self))).
  rewrite <- (collect_segment (length (text self)) (text self) ltac:(lia)
                (scan_fuel (text self)) false None [] [])
    by (unfold scan_fuel; lia).
  reflexivity.
Qed.

(** *** Documents without terminators *)

Lemma find_boundary_no_terminator l :
  existsb (Char.one_of ".!?") l = false -> find_boundary l = None.
Proof.
  induction l as [|c l IH]; [done|]. cbn [existsb find_boundary boundary_here].
  intros [Hc Hl]%orb_false_iff. rewrite Hc. cbn [andb]. by rewrite IH.
Qed.

Lemma spans_no_terminator l :
  existsb (Char.one_of ".!?") l = false -> spans false l = [l].
Proof.
  induction l as [|c l IH]; [done|]. cbn [existsb spans].
  intros [Hc Hl]%orb_false_iff. by rewrite Hc, IH.
Qed.

(** Claim C5, counterexample: [TextAnalyzer._split_into_sentences] keeps the
    terminators in the sentences, and does not split at a terminator that is
    followed by a letter; the reference definition does neither. *)
Lemma C5_terminators_kept :
  _split_into_sentences (fresh (lit "Hi! Are you ok? Yes.")) =
    Ok [lit "Hi!"; lit "Are you ok?"; lit "Yes."] /\
  segment_ref (lit "Hi! Are you ok? Yes.") =
    [lit "Hi"; lit "Are you ok"; lit "Yes"] /\
  _split_into_sentences (fresh (lit "a.b c")) = Ok [lit "a.b c"] /\
  segment_ref (lit "a.b c") = [lit "a"; lit "b c"] /\
  _split_into_sentences (fresh (lit "Hi! Are you ok? Yes.")) <>
    Ok (segment_ref (lit "Hi! Are you ok? Yes.")).
Proof. repeat split; try (vm_compute; reflexivity). vm_compute. discriminate. Qed.

(** Claim C5, amended: the list of sentences that
    [BasicTextAnalyzer._count_sentences] counts is the reference definition
    (split on every maximal run of terminators, trim, discard the empty
    spans).  [TextAnalyzer._split_into_sentences] is a different scan: a
    maximal run of terminators ends a sentence only when whitespace or the
    end of the text follows it, the run stays at the end of its sentence and
    the whitespace after it is passed over; the spans are trimmed and the
    empty ones discarded.  With both, a document without terminators that has
    a character other than whitespace gives one sentence, the whole trimmed
    text. *)
Theorem C5_segmentation :
  (forall self : Task2.analyzer,
     Task2.stripped_nonempty (Task2.pieces (Task2.text self)) =
       segment_ref (Task2.text self) /\
     Task2._results (Task2._count_sentences self) !! "total_sentences" =
       Some (PyLen (segment_ref (Task2.text self)))) /\
  (forall self : analyzer,
     _split_into_sentences self = Ok (segment_kept (text self))) /\
  (forall text : str,
     existsb (Char.one_of ".!?") text = false ->
     existsb (fun c => negb (Char.is_space c)) text = true ->
     segment_ref text = [PyStr.strip text] /\
     segment_kept text = [PyStr.strip text]).
Proof.
  split; [|split].
  - intros self. split; [apply count_sentences_ref|].
    unfold Task2._count_sentences, Task2.store. cbn [Task2._results].
    by rewrite lookup_insert_eq, count_sentences_ref.
  - apply _split_into_sentences_kept.
  - intros text Hterm Htext. apply strip_keeps_text in Htext. split.
    + unfold segment_ref. rewrite spans_no_terminator by done.
      cbn [fmap list_fmap]. rewrite filter_cons, decide_True by done.
      by rewrite filter_nil.
    + unfold segment_kept.
      rewrite sentences_from_none by (by apply find_boundary_no_terminator).
      unfold emit. cbn [app]. by destruct (PyStr.strip text).
Qed.

End SentenceBoundaries.

(* ===================================================================== *)
(** ** Further properties of the analyzers and of the console functions *)
(* ===================================================================== *)

Section Words.
Import BaseTextAnalyzer TextAnalyzerMixin.

(** The matches of a scan entered at offset [i] are those of a scan entered
    at offset 0, moved by [i]. *)
Lemma finditer_from_shift r : forall fuel b i pv l,
  finditer_from fuel r b i pv l =
  shifted i [] <$> finditer_from fuel r b 0 pv l.
Proof.
  induction fuel as [|fuel IH]; intros b i pv l; [done|]. simpl.
  rewrite (search_from_shift r l b i []).
  destruct (search_from r b 0 [] pv l) as [m|]; simpl; [|done].
  f_equal. rewrite (IH _ (m_end (shifted i [] m))), (IH _ (m_end m)).
  rewrite <- list_fmap_compose. apply list_fmap_ext. intros _ m' _.
  unfold shifted, m_end. simpl. f_equal. lia.
Qed.

(** One step of the loop of [re.findall], for a projection of the matches
    that looks at the matched text and at the groups only. *)
Lemma findall_from_step {A} (f : rmatch -> A) r fuel b i pv l :
  (forall j skipped m, f (shifted j skipped m) = f m) ->
  f <$> finditer_from (S fuel) r b i pv l =
  let s := {| prev := pv; rest := l; caps := [] |} in
  match attempt r b s with
  | Some e =>
      f (found 0 [] s e) ::
      (f <$> finditer_from fuel r (is_empty (found 0 [] s e)) 0 (prev e) (rest e))
  | None =>
      match l with
      | [] => []
      | c :: l' => f <$> finditer_from (S fuel) r false 0 (Some c) l'
      end
  end.
Proof.
  intros Hf.
  assert (Hi : forall fuel b i pv l,
    f <$> finditer_from fuel r b i pv l = f <$> finditer_from fuel r b 0 pv l).
  { intros. rewrite finditer_from_shift, <- list_fmap_compose.
    apply list_fmap_ext. intros _ m _. apply Hf. }
  rewrite Hi. destruct l as [|c l].
  - cbn [finditer_from search_from fmap list_fmap].
    destruct (attempt r b _) as [e|]; [|done].
    simpl. f_equal; try apply Hi.
  - cbn [finditer_from search_from].
    destruct (attempt r b _) as [e|].
    + simpl. f_equal; try apply Hi.
    + rewrite (search_from_shift r l false 1 [c]).
      destruct (search_from r false 0 [] (Some c) l) as [m|]; simpl; [|done].
      rewrite Hf. f_equal. rewrite Hi. symmetry. apply Hi.
Qed.


Lemma exec_WordB s k :
  exec WordB s k =
  if xorb (is_word_opt (prev s)) (is_word_opt (head (rest s))) then k s else None.
Proof. done. Qed.

(** As [greedy_chars_end], for a continuation that fails where the run goes
    on once the character before the cursor is known to satisfy [P]. *)
Lemma greedy_chars_end_inv p k cs (P : option ascii -> Prop) :
  (forall c, p c = true -> P (Some c)) ->
  (forall pv c l, P pv -> p c = true ->
     k {| prev := pv; rest := c :: l; caps := cs |} = None) ->
  forall l pv, P pv ->
    greedy_chars p k pv l cs =
    k (after (take_run p l) (drop_run p l) {| prev := pv; rest := l; caps := cs |}).
Proof.
  intros HP Hk. induction l as [|c l IH]; intros pv Hpv; [done|].
  cbn [greedy_chars take_run drop_run]. destruct (p c) eqn:Hc; [|done].
  rewrite IH by auto. rewrite after_take_run_cons with (pv := pv).
  destruct (k _); [done|]. by apply Hk.
Qed.

(** A run of characters of a class of word characters fills the run of word
    characters it lies in exactly when no word character follows it. *)
Lemma run_within p l :
  (forall c, p c = true -> Char.is_word c = true) ->
  forallb p (take_run Char.is_word l) = negb (is_word_opt (head (drop_run p l))).
Proof.
  intros Hp. induction l as [|c l IH]; [done|]. cbn [take_run drop_run].
  destruct (Char.is_word c) eqn:Hw.
  - cbn [forallb]. destruct (p c) eqn:Hc; [done|]. simpl. by rewrite Hw.
  - destruct (p c) eqn:Hc; [by rewrite (Hp c Hc) in Hw|]. simpl. by rewrite Hw.
Qed.

Lemma run_same p l :
  (forall c, p c = true -> Char.is_word c = true) ->
  forallb p (take_run Char.is_word l) = true ->
  take_run p l = take_run Char.is_word l /\ drop_run p l = drop_run Char.is_word l.
Proof.
  intros Hp. induction l as [|c l IH]; [done|]. cbn [take_run drop_run].
  destruct (Char.is_word c) eqn:Hw.
  - cbn [forallb]. intros [Hc H]%andb_true_iff. rewrite Hc.
    destruct (IH H) as [-> ->]. done.
  - intros _. destruct (p c) eqn:Hc; [by rewrite (Hp c Hc) in Hw|done].
Qed.

Lemma after_run_prev p (P : ascii -> Prop) c l d cs :
  (forall x, p x = true -> P x) -> P c ->
  exists x, prev (after (take_run p l) d {| prev := Some c; rest := l; caps := cs |})
            = Some x /\ P x.
Proof.
  intros Hp Hc. unfold after. cbn [prev].
  destruct (last (take_run p l)) as [x|] eqn:Hl; [|by exists c].
  exists x. split; [done|]. apply Hp.
  apply last_Some_elem_of in Hl.
  pose proof (take_run_all p l) as Hall.
  rewrite forallb_forall in Hall. apply Hall. by apply list_elem_of_In.
Qed.

(** [p+\b] for a class [p] of word characters: it takes the whole run of
    word characters at the cursor, which has to consist of characters of
    [p]. *)
Lemma exec_run_WordB p pv l cs k :
  (forall c, p c = true -> Char.is_word c = true) ->
  exec (Seq (Plus true (Chr p)) WordB) {| prev := pv; rest := l; caps := cs |} k =
  if is_word_opt (head l) && forallb p (take_run Char.is_word l)
  then k (after (take_run Char.is_word l) (drop_run Char.is_word l)
            {| prev := pv; rest := l; caps := cs |})
  else None.
Proof.
  intros Hp. unfold Plus. rewrite !exec_Seq.
  destruct l as [|c l]; [done|]. rewrite exec_Chr_cons.
  cbn [head is_word_opt take_run drop_run].
  destruct (p c) eqn:Hc.
  - rewrite (Hp c Hc). cbn [forallb andb]. rewrite Hc. cbn [andb].
    rewrite exec_Star. cbn [rest].
    rewrite star_loop_greedy_Chr by done.
    rewrite (greedy_chars_end_inv p _ cs (fun pv => is_word_opt pv = true));
      [|intros x Hx; simpl; by apply Hp
       |intros pv' x l' Hpv Hx; rewrite exec_WordB; cbn [prev rest head is_word_opt];
        by rewrite Hpv, (Hp x Hx)
       |simpl; by apply Hp].
    rewrite exec_WordB.
    destruct (after_run_prev p (fun x => Char.is_word x = true) c l
                (drop_run p l) cs) as (x & Hx & Hwx); [done|by apply Hp|].
    rewrite Hx. cbn [is_word_opt]. rewrite Hwx. cbn [xorb].
    replace (rest (after (take_run p l) (drop_run p l)
                {| prev := Some c; rest := l; caps := cs |})) with (drop_run p l)
      by done.
    pose proof (run_within p l Hp) as Hrun.
    destruct (forallb p (take_run Char.is_word l)) eqn:Hall;
      destruct (is_word_opt (head (drop_run p l))); try done.
    destruct (run_same p l Hp Hall) as [-> ->].
    by rewrite after_take_run_cons with (pv := pv).
  - destruct (Char.is_word c); [|done]. cbn [forallb]. by rewrite Hc.
Qed.


Lemma drop_run_word_shorter l :
  is_word_opt (head l) = true -> length (drop_run Char.is_word l) < length l.
Proof.
  destruct l as [|c l]; [done|]. simpl. intros ->.
  pose proof (drop_run_length Char.is_word l). lia.
Qed.

Lemma attempt_done (b : bool) (n : nat) (e : mstate) :
  length (rest e) < n ->
  (if b && (length (rest e) =? n)%nat then None else Some e) = Some e.
Proof.
  intros H. replace (length (rest e) =? n)%nat with false;
    [by rewrite andb_false_r|].
  symmetry. apply Nat.eqb_neq. lia.
Qed.

(** [\b p+ \b]. *)
Lemma finds_runs_class p :
  (forall c, p c = true -> Char.is_word c = true) ->
  finds_runs (Seq WordB (Seq (Plus true (Chr p)) WordB)) (forallb p).
Proof.
  intros Hp b pv l. unfold attempt. rewrite exec_Seq, exec_WordB.
  cbn [prev rest]. rewrite exec_run_WordB by done.
  destruct (is_word_opt pv), (is_word_opt (head l)) eqn:Hh; try done.
  cbn [xorb negb andb]. destruct (forallb p _); [|done].
  apply attempt_done. by apply drop_run_word_shorter.
Qed.

Lemma letter_is_word c : letter c = true -> Char.is_word c = true.
Proof. by destruct c as [[] [] [] [] [] [] [] []]. Qed.

Lemma finds_runs_word_re : finds_runs word_re letters_only.
Proof. apply finds_runs_class, letter_is_word. Qed.

Lemma finds_runs_Task2_word_re : finds_runs Task2.word_re (fun _ => true).
Proof.
  intros b pv l. rewrite (finds_runs_class Char.is_word) by done.
  by rewrite take_run_all.
Qed.

(** [\b[iI]\w+\b]. *)
Lemma finds_runs_i_word_re : finds_runs TextAnalyzer.i_word_re i_word.
Proof.
  intros b pv l. unfold attempt, TextAnalyzer.i_word_re.
  rewrite exec_Seq, exec_WordB. cbn [prev rest]. rewrite exec_Seq.
  destruct l as [|c l].
  { by destruct (xorb _ _), (is_word_opt pv). }
  rewrite exec_Chr_cons, exec_run_WordB by done. rewrite take_run_all, andb_true_r.
  cbn [head is_word_opt take_run drop_run].
  destruct (Char.one_of "iI" c) eqn:Hi.
  - assert (Hw : Char.is_word c = true).
    { revert Hi. by destruct c as [[] [] [] [] [] [] [] []]. }
    rewrite Hw. destruct (is_word_opt pv); [done|]. cbn [xorb negb andb].
    destruct l as [|d l]; [done|]. cbn [head is_word_opt take_run drop_run].
    destruct (Char.is_word d) eqn:Hd.
    + cbn [i_word]. rewrite Hi.
      rewrite (after_cons _ _ c (d :: l) pv (c :: d :: l)).
      rewrite attempt_done; [done|].
      cbn [after rest length]. pose proof (drop_run_length Char.is_word l). lia.
    + cbn [i_word]. done.
  - replace (if xorb (is_word_opt pv) (Char.is_word c) then None else None)
      with (@None mstate) by (by destruct (xorb _ _)).
    destruct (Char.is_word c); [|by rewrite andb_false_r].
    cbn [i_word]. destruct (take_run Char.is_word l); rewrite ?Hi;
      by rewrite andb_false_r.
Qed.

Lemma exec_NegLook r s k :
  exec (NegLook r) s k =
  match exec r s Some with Some _ => None | None => k s end.
Proof. done. Qed.

(** [\b(?!v_\b)[a-zA-Zа-яА-Я]+\b]: where the look-ahead finds [v_], the run
    of word characters holds an underscore and is no run of letters. *)
Lemma finds_runs_repeated_re : finds_runs TextAnalyzer.repeated_re letters_only.
Proof.
  intros b pv l. rewrite <- (finds_runs_word_re b pv l).
  unfold attempt, TextAnalyzer.repeated_re, word_re.
  rewrite !exec_Seq, !exec_WordB. cbn [prev rest].
  destruct (xorb _ _); [|done].
  rewrite exec_Seq, exec_NegLook.
  destruct (exec (Seq (Lits (lit "v_")) WordB) _ Some) as [e|] eqn:Hn; [|done].
  rewrite exec_Seq, exec_Lits in Hn by done. cbn [rest] in Hn.
  destruct (PyStr.strip_prefix (lit "v_") l) as [l2|] eqn:Hl; [|done].
  apply strip_prefix_Some in Hl as ->. clear Hn.
  symmetry. by rewrite (exec_run_WordB letter pv _ [] _ letter_is_word).
Qed.

(** Inside a run, the runs found are those found after it. *)
Lemma words_from_inside q l :
  words_from q true l = words_from q true (drop_run Char.is_word l).
Proof.
  induction l as [|c l IH]; [done|]. cbn [words_from drop_run].
  destruct (Char.is_word c) eqn:Hc; [done|]. cbn [words_from]. by rewrite Hc.
Qed.

Lemma words_from_after_run q b l :
  words_from q b (drop_run Char.is_word l) =
  words_from q true (drop_run Char.is_word l).
Proof.
  induction l as [|c l IH]; [by destruct b|]. cbn [drop_run].
  destruct (Char.is_word c) eqn:Hc; [done|]. cbn [words_from]. by rewrite Hc.
Qed.

(** The scan of [re.findall] with a pattern that finds words. *)
Lemma findall_words r q :
  finds_runs r q ->
  forall n l, length l <= n ->
  forall fuel b i pv, length l < fuel ->
  m_text <$> finditer_from fuel r b i pv l = words_from q (is_word_opt pv) l.
Proof.
  intros Hr. induction n as [n IH] using lt_wf_ind.
  intros l Hn fuel b i pv Hfuel.
  destruct fuel as [|fuel]; [lia|].
  rewrite findall_from_step by done. cbn zeta. rewrite Hr.
  destruct (negb (is_word_opt pv) && is_word_opt (head l) &&
            q (take_run Char.is_word l)) eqn:Hcond.
  - apply andb_true_iff in Hcond as [[Hpv Hh]%andb_true_iff Hq].
    apply negb_true_iff in Hpv. rewrite Hpv.
    pose proof (drop_run_word_shorter l Hh) as Hlt.
    destruct l as [|c l]; [done|]. simpl in Hh.
    cbn [words_from]. rewrite Hh, Hq.
    remember (c :: l) as l0 eqn:Hl0.
    cbn [found m_text fmap list_fmap app]. f_equal.
    + apply consumed_app. cbn [rest after]. symmetry. apply take_drop_run.
    + cbn [after rest prev].
      rewrite (IH (length (drop_run Char.is_word l0))) by (simpl in *; lia).
      rewrite words_from_after_run. rewrite Hl0. cbn [drop_run]. rewrite Hh.
      symmetry. apply words_from_inside.
  - destruct l as [|c l]; [done|].
    rewrite (IH (length l)) by (simpl in *; lia).
    cbn [is_word_opt words_from]. cbn [head is_word_opt] in Hcond.
    destruct (Char.is_word c); [|done].
    destruct (is_word_opt pv); [done|]. cbn [negb andb] in Hcond.
    by rewrite Hcond.
Qed.

Lemma findall_str_words r q text :
  finds_runs r q -> ngroups r = 0 ->
  findall_str r text = words_from q false text.
Proof.
  intros Hr Hg. unfold findall_str, finditer. rewrite Hg.
  apply (findall_words r q Hr (length text)); [done|]. unfold scan_fuel. lia.
Qed.

(** The runs that pass a test are the runs, filtered. *)
Lemma words_from_filter q : forall l b,
  words_from q b l = filter (fun w => q w) (words_from (fun _ => true) b l).
Proof.
  induction l as [|c l IH]; intros b; [done|]. cbn [words_from].
  destruct (Char.is_word c); [|done]. destruct b; [done|].
  rewrite filter_app, <- IH. f_equal.
  rewrite filter_cons. destruct (decide _) as [Hq|Hq].
  - by rewrite (Is_true_true_1 _ Hq).
  - by rewrite (Is_true_false_1 _ Hq).
Qed.

End Words.

Section Counting.
Import BaseTextAnalyzer TextAnalyzerMixin.

Lemma occurrences_snoc x l w :
  occurrences x (l ++ [w]) = occurrences x l + (if decide (w = x) then 1 else 0).
Proof.
  unfold occurrences. rewrite filter_app, length_app. f_equal.
  rewrite filter_cons. by destruct (decide (w = x)).
Qed.

Lemma occurrences_not_elem_of x l : x ∉ l -> occurrences x l = 0.
Proof.
  unfold occurrences. induction l as [|y l IH]; [done|].
  intros [Hy Hl]%not_elem_of_cons. rewrite filter_cons.
  destruct (decide (y = x)); [done|]. by apply IH.
Qed.

Lemma occurrences_elem_of x l : x ∈ l <-> 1 <= occurrences x l.
Proof.
  split.
  - intros H. destruct (occurrences x l) eqn:Ho; [|lia].
    unfold occurrences in Ho. apply length_zero_iff_nil in Ho.
    by apply (filter_nil_not_elem_of _ _ x) in Ho.
  - intros H. destruct (decide (x ∈ l)) as [|Hn]; [done|].
    apply occurrences_not_elem_of in Hn. lia.
Qed.

(** [counts[w] = counts.get(w, 0) + 1] on the keys and on the counts. *)
Lemma count_up_keys w : forall counts,
  (OrderedDict.count_up w counts).*1 =
  if decide (w ∈ counts.*1) then counts.*1 else counts.*1 ++ [w].
Proof.
  induction counts as [|[x n] counts IH]; [done|]. cbn [OrderedDict.count_up].
  case_bool_decide as Hx.
  - subst x. cbn [fmap list_fmap fst]. rewrite decide_True; [done|]. left.
  - cbn [fmap list_fmap fst]. fold (counts.*1). rewrite IH.
    destruct (decide (w ∈ counts.*1)) as [Hw|Hw].
    + rewrite decide_True; [done|]. by right.
    + rewrite decide_False; [done|]. by intros [?|?]%elem_of_cons.
Qed.

Lemma count_up_counts w l : forall counts,
  (w ∉ counts.*1 -> occurrences w l = 0) ->
  NoDup counts.*1 ->
  Forall (fun wc => wc.2 = occurrences wc.1 l) counts ->
  Forall (fun wc => wc.2 = occurrences wc.1 (l ++ [w]))
    (OrderedDict.count_up w counts).
Proof.
  induction counts as [|[x n] counts IH]; intros Hw Hnd Hc.
  { constructor; [|done]. simpl. rewrite occurrences_snoc, decide_True by done.
    rewrite Hw; [done|]. apply not_elem_of_nil. }
  cbn [OrderedDict.count_up]. apply Forall_cons in Hc as [Hx Hc].
  apply NoDup_cons in Hnd as [Hx' Hnd]. simpl in Hx.
  case_bool_decide as Hxw.
  - subst x. constructor.
    + simpl. rewrite occurrences_snoc, decide_True by done. lia.
    + rewrite Forall_forall in Hc. apply Forall_forall. intros [y m] Hy.
      simpl. rewrite occurrences_snoc, decide_False.
      * rewrite Nat.add_0_r. by apply (Hc (y, m)).
      * intros ->. apply Hx'. apply list_elem_of_fmap. by exists (y, m).
  - constructor.
    + simpl. rewrite occurrences_snoc, decide_False by done. lia.
    + apply IH; [|done..]. intros Hn. apply Hw.
      by intros [?|?]%elem_of_cons.
Qed.

Lemma first_occurrences_snoc l w :
  first_occurrences (l ++ [w]) =
  if decide (w ∈ l) then first_occurrences l else first_occurrences l ++ [w].
Proof.
  unfold first_occurrences. rewrite reverse_snoc. cbn [remove_dups].
  destruct (decide_rel _ w (reverse l)) as [Hw|Hw].
  - rewrite decide_True; [done|]. by apply elem_of_reverse.
  - rewrite decide_False; [by rewrite reverse_cons|]. by rewrite <- elem_of_reverse.
Qed.

Lemma elem_of_first_occurrences l w : w ∈ first_occurrences l <-> w ∈ l.
Proof.
  unfold first_occurrences.
  by rewrite elem_of_reverse, elem_of_remove_dups, elem_of_reverse.
Qed.

Lemma NoDup_first_occurrences l : NoDup (first_occurrences l).
Proof.
  unfold first_occurrences. rewrite reverse_Permutation. apply NoDup_remove_dups.
Qed.

(** The dictionary of counts built word by word: its keys are the distinct
    words in order of first occurrence, its values their numbers of
    occurrences. *)
Lemma counts_spec l :
  let counts := foldl (fun counts word => OrderedDict.count_up word counts) [] l in
  counts.*1 = first_occurrences l /\
  Forall (fun wc => wc.2 = occurrences wc.1 l) counts.
Proof.
  induction l as [|w l IH] using rev_ind; [done|].
  cbn zeta in *. rewrite foldl_snoc. destruct IH as [Hk Hc]. split.
  - rewrite count_up_keys, first_occurrences_snoc, Hk.
    destruct (decide (w ∈ first_occurrences l)) as [Hw|Hw].
    + rewrite decide_True; [done|]. by apply elem_of_first_occurrences.
    + rewrite decide_False; [done|]. by rewrite <- elem_of_first_occurrences.
  - apply count_up_counts; [|rewrite Hk; apply NoDup_first_occurrences|done].
    rewrite Hk. intros Hw. apply occurrences_not_elem_of.
    by rewrite <- elem_of_first_occurrences.
Qed.

Lemma repeated_keys l (counts : list (str * nat)) :
  Forall (fun wc => wc.2 = occurrences wc.1 l) counts ->
  (filter (fun wc => 1 < wc.2) counts).*1 =
  filter (fun w => 2 <= occurrences w l) counts.*1.
Proof.
  induction counts as [|[x n] counts IH]; [done|].
  intros [Hx Hc]%Forall_cons. simpl in Hx. cbn [fmap list_fmap fst].
  rewrite !filter_cons. cbn [snd]. rewrite <- Hx.
  destruct (decide (1 < n)).
  - rewrite decide_True by lia. cbn [fmap list_fmap fst]. f_equal. by apply IH.
  - rewrite decide_False by lia. by apply IH.
Qed.

(** The words listed as repeated, for the word list [l]. *)
Lemma repeated_spec l :
  (filter (fun wc => 1 < wc.2)
     (foldl (fun counts word => OrderedDict.count_up word counts) [] l)).*1 =
  filter (fun w => 2 <= occurrences w l) (first_occurrences l).
Proof.
  destruct (counts_spec l) as [Hk Hc]. cbn zeta in *.
  by rewrite (repeated_keys l _ Hc), Hk.
Qed.

End Counting.

Section WordMetrics.
Import BaseTextAnalyzer TextAnalyzerMixin.

Lemma take_run_word_cons c l :
  Char.is_word c = true ->
  take_run Char.is_word (c :: l) = c :: take_run Char.is_word l.
Proof. intros H. simpl. by rewrite H. Qed.

(** Every run found is a non-empty run of word characters that passes the
    test. *)
Lemma words_from_Forall q : forall l b,
  Forall (fun w => w <> [] /\ forallb Char.is_word w = true /\ q w = true)
    (words_from q b l).
Proof.
  induction l as [|c l IH]; intros b; [constructor|]. cbn [words_from].
  destruct (Char.is_word c) eqn:Hc; [|done]. destruct b; [done|].
  apply Forall_app. split; [|done].
  destruct (q _) eqn:Hq; [|constructor]. constructor; [|constructor].
  split; [by rewrite take_run_word_cons|]. split; [apply take_run_all|done].
Qed.


Lemma get_all_words_runs self :
  get_all_words self = filter (fun w => letters_only w) (word_runs (text self)).
Proof.
  unfold get_all_words, word_runs.
  rewrite (findall_str_words word_re letters_only) by (done || apply finds_runs_word_re).
  apply words_from_filter.
Qed.

Lemma sum_len_ge (l : list str) :
  Forall (fun w => w <> []) l -> length l <= TextAnalyzer.sum_len l.
Proof.
  induction 1 as [|w l Hw _ IH]; [done|]. simpl.
  destruct w; [done|]. simpl. lia.
Qed.

(** [min(key=len)] over a non-empty list: the first of the shortest
    elements. *)
Lemma min_by_len_spec x l :
  let best := foldl (fun best y => if (length y <? length best)%nat then y else best)
                x l in
  exists l1 l2 : list str,
    x :: l = l1 ++ best :: l2 /\
    Forall (fun y => length best < length y) l1 /\
    Forall (fun y => length best <= length y) l2.
Proof.
  induction l as [|y l IH] using rev_ind; cbn zeta in *.
  { by exists [], []. }
  rewrite foldl_snoc. destruct IH as (l1 & l2 & Hl & H1 & H2).
  set (best := foldl _ x l) in *.
  destruct (length y <? length best)%nat eqn:Hy.
  - apply Nat.ltb_lt in Hy. exists (l1 ++ best :: l2), [].
    split; [by rewrite app_comm_cons, Hl|]. split; [|constructor].
    apply Forall_app. split; [|constructor].
    + eapply Forall_impl; [exact H1|]. simpl. lia.
    + done.
    + eapply Forall_impl; [exact H2|]. simpl. lia.
  - apply Nat.ltb_ge in Hy. exists l1, (l2 ++ [y]).
    split; [by rewrite app_comm_cons, Hl, <- app_assoc|]. split; [done|].
    apply Forall_app. split; [done|]. by constructor.
Qed.

End WordMetrics.

Section SentenceFacts.
Import BaseTextAnalyzer TextAnalyzer.

Lemma without_spaces_app x y :
  without_spaces (x ++ y) = without_spaces x ++ without_spaces y.
Proof. apply filter_app. Qed.

Lemma without_spaces_rev s : without_spaces (rev s) = rev (without_spaces s).
Proof.
  induction s as [|c s IH]; [done|]. simpl. rewrite without_spaces_app, IH.
  unfold without_spaces at 2 3. rewrite !filter_cons, filter_nil.
  destruct (decide (Char.is_space c = false)); [done|]. by rewrite app_nil_r.
Qed.

Lemma without_spaces_lstrip s : without_spaces (PyStr.lstrip s) = without_spaces s.
Proof.
  induction s as [|c s IH]; [done|]. simpl.
  destruct (Char.is_space c) eqn:Hc; [|done].
  rewrite IH. unfold without_spaces. rewrite (filter_cons _ c).
  rewrite decide_False; [done|]. by rewrite Hc.
Qed.

(** Trimming removes whitespace only. *)
Lemma without_spaces_strip s : without_spaces (PyStr.strip s) = without_spaces s.
Proof.
  unfold PyStr.strip, PyStr.rstrip.
  by rewrite without_spaces_lstrip, without_spaces_rev, without_spaces_lstrip,
    without_spaces_rev, rev_involutive.
Qed.

Lemma without_spaces_nil s :
  without_spaces s = [] <-> forallb Char.is_space s = true.
Proof.
  induction s as [|c s IH]; [done|]. unfold without_spaces in *.
  rewrite filter_cons. simpl. destruct (Char.is_space c) eqn:Hc.
  - rewrite decide_False by done. by rewrite IH.
  - rewrite decide_True by done. done.
Qed.

Lemma without_spaces_emit x :
  without_spaces (concat (emit x)) = without_spaces x.
Proof.
  unfold emit. destruct (PyStr.strip x) eqn:Hs; simpl.
  - by rewrite <- (without_spaces_strip x), Hs.
  - by rewrite app_nil_r, <- Hs, without_spaces_strip.
Qed.

Lemma find_boundary_text l t sep r :
  find_boundary l = Some (t, sep, r) ->
  l = t ++ sep ++ r /\ length r < length l.
Proof.
  intros H. apply find_boundary_split in H as (l0 & -> & Hb & -> & ->).
  split; [by rewrite <- separator_split|].
  apply after_separator_shorter in Hb. rewrite length_app. lia.
Qed.

(** Segmentation loses whitespace only. *)
Lemma without_spaces_sentences n : forall l span, length l <= n ->
  without_spaces (concat (sentences_from 0 span l)) = without_spaces (span ++ l).
Proof.
  induction n as [n IH] using lt_wf_ind. intros l span Hn.
  destruct (find_boundary l) as [[[t sep] r]|] eqn:Hf.
  - rewrite (sentences_from_found _ _ _ _ _ Hf).
    apply find_boundary_text in Hf as [Hl Hr].
    rewrite concat_app, without_spaces_app, without_spaces_emit.
    rewrite (IH (length r)) by lia. rewrite Hl.
    rewrite <- without_spaces_app. f_equal. by rewrite <- !app_assoc.
  - rewrite (sentences_from_none _ _ Hf). apply without_spaces_emit.
Qed.

Lemma nonblank_without_spaces s : nonblank s -> without_spaces s <> [].
Proof.
  intros [_ H] Hn. apply without_spaces_nil in Hn. unfold PyStr.all in H.
  by rewrite Hn in H.
Qed.

Lemma emit_nonblank x : Forall nonblank (emit x).
Proof.
  unfold emit. destruct (PyStr.truthy _) eqn:Ht; [|constructor].
  constructor; [|constructor]. by apply strip_nonblank.
Qed.

Lemma sentences_from_nonblank n : forall l span, length l <= n ->
  Forall nonblank (sentences_from 0 span l).
Proof.
  induction n as [n IH] using lt_wf_ind. intros l span Hn.
  destruct (find_boundary l) as [[[t sep] r]|] eqn:Hf.
  - rewrite (sentences_from_found _ _ _ _ _ Hf).
    apply find_boundary_text in Hf as [Hl Hr].
    apply Forall_app. split; [apply emit_nonblank|]. apply (IH (length r)); lia.
  - rewrite (sentences_from_none _ _ Hf). apply emit_nonblank.
Qed.

Lemma segment_kept_nonblank text : Forall nonblank (segment_kept text).
Proof. by apply (sentences_from_nonblank (length text)). Qed.

Lemma segment_kept_nil text :
  segment_kept text = [] <-> forallb Char.is_space text = true.
Proof.
  rewrite <- without_spaces_nil.
  pose proof (without_spaces_sentences (length text) text [] (le_n _)) as Hw.
  fold (segment_kept text) in Hw. simpl in Hw. rewrite <- Hw.
  split; [by intros ->|].
  pose proof (segment_kept_nonblank text) as Hnb.
  destruct (segment_kept text) as [|s ss]; [done|].
  apply Forall_cons in Hnb as [Hs _]. simpl. rewrite without_spaces_app.
  intros [H _]%app_eq_nil. by apply nonblank_without_spaces in Hs.
Qed.

End SentenceFacts.

Section SentenceEnds.
Import BaseTextAnalyzer TextAnalyzer.

Lemma last_lstrip x c :
  last x = Some c -> Char.is_space c = false -> last (PyStr.lstrip x) = Some c.
Proof.
  intros Hl Hc. induction x as [|a x IH]; [done|]. cbn [PyStr.lstrip].
  destruct (Char.is_space a) eqn:Ha; [|done].
  destruct x as [|b x]; [simpl in Hl; congruence|].
  rewrite last_cons_cons in Hl. by apply IH.
Qed.

Lemma rstrip_last x c :
  last x = Some c -> Char.is_space c = false -> PyStr.rstrip x = x.
Proof.
  intros Hl Hc. apply last_Some in Hl as [y ->]. unfold PyStr.rstrip.
  rewrite rev_app_distr. simpl. rewrite Hc. simpl. by rewrite rev_involutive.
Qed.

Lemma strip_last x c :
  last x = Some c -> Char.is_space c = false -> last (PyStr.strip x) = Some c.
Proof.
  intros Hl Hc. unfold PyStr.strip. rewrite (rstrip_last x c) by done.
  by apply last_lstrip.
Qed.

Lemma last_take_run p c l :
  p c = true -> exists d, last (take_run p (c :: l)) = Some d /\ p d = true.
Proof.
  intros Hc. destruct (last (take_run p (c :: l))) as [d|] eqn:Hl.
  - exists d. split; [done|]. apply last_Some_elem_of in Hl.
    pose proof (take_run_all p (c :: l)) as Hall.
    rewrite forallb_forall in Hall. apply Hall. by apply list_elem_of_In.
  - apply last_None in Hl. simpl in Hl. by rewrite Hc in Hl.
Qed.

(** The sentence that a boundary closes ends with its terminators. *)
Lemma emit_boundary x l0 :
  boundary_here l0 = true ->
  exists s, emit (x ++ separator l0) = [s] /\ ends_with_terminator s = true.
Proof.
  intros Hb. unfold separator. rewrite !app_assoc.
  rewrite emit_app_spaces by apply take_run_all.
  destruct l0 as [|c l0]; [done|]. simpl in Hb.
  apply andb_true_iff in Hb as [Hc _].
  destruct (last_take_run (Char.one_of ".!?") c l0 Hc) as (d & Hd & Hpd).
  assert (Hlast : last (PyStr.strip (x ++ take_run (Char.one_of ".!?") (c :: l0)))
                  = Some d).
  { apply strip_last; [|by apply terminator_not_space].
    rewrite last_app, Hd. done. }
  unfold emit. destruct (PyStr.strip _) as [|a s] eqn:Hs; [done|].
  cbn [PyStr.truthy]. eexists; split; [done|].
  unfold ends_with_terminator. by rewrite Hlast.
Qed.

(** All the sentences but the last one end with a terminator. *)
Lemma sentences_from_ends n : forall l span, length l <= n ->
  exists init tail,
    sentences_from 0 span l = init ++ tail /\
    Forall (fun s => ends_with_terminator s = true) init /\
    length tail <= 1.
Proof.
  induction n as [n IH] using lt_wf_ind. intros l span Hn.
  destruct (find_boundary l) as [[[t sep] r]|] eqn:Hf.
  - rewrite (sentences_from_found _ _ _ _ _ Hf).
    pose proof (find_boundary_text _ _ _ _ Hf) as [Hl Hr].
    apply find_boundary_split in Hf as (l0 & _ & Hb & -> & _).
    destruct (IH (length r) ltac:(lia) r [] ltac:(lia)) as (init & tail & -> & Hi & Ht).
    rewrite (app_assoc span t).
    destruct (emit_boundary (span ++ t) l0 Hb) as (s & -> & Hs).
    exists (s :: init), tail. split; [done|]. split; [by constructor|done].
  - rewrite (sentences_from_none _ _ Hf). exists [], (emit (span ++ l)).
    split; [done|]. split; [constructor|].
    unfold emit. destruct (PyStr.truthy _); simpl; lia.
Qed.

Lemma sum_len_app (a b : list str) :
  sum_len (a ++ b) = sum_len a + sum_len b.
Proof. induction a as [|x a IH]; simpl; [done|]. rewrite IH. lia. Qed.

Lemma lstrip_length s : length (PyStr.lstrip s) <= length s.
Proof.
  induction s as [|c s IH]; [done|]. simpl. destruct (Char.is_space c); simpl; lia.
Qed.

Lemma strip_length s : length (PyStr.strip s) <= length s.
Proof.
  unfold PyStr.strip, PyStr.rstrip.
  etrans; [apply lstrip_length|]. rewrite length_rev.
  etrans; [apply lstrip_length|]. by rewrite length_rev.
Qed.

Lemma sum_len_emit x : sum_len (emit x) <= length x.
Proof.
  unfold emit. destruct (PyStr.truthy _); simpl; [|lia].
  pose proof (strip_length x). lia.
Qed.

(** The sentences are taken from the text: together they are not longer. *)
Lemma sum_len_sentences n : forall l span, length l <= n ->
  sum_len (sentences_from 0 span l) <= length span + length l.
Proof.
  induction n as [n IH] using lt_wf_ind. intros l span Hn.
  destruct (find_boundary l) as [[[t sep] r]|] eqn:Hf.
  - rewrite (sentences_from_found _ _ _ _ _ Hf).
    apply find_boundary_text in Hf as [Hl Hr].
    rewrite sum_len_app.
    pose proof (sum_len_emit (span ++ t ++ sep)) as He.
    pose proof (IH (length r) ltac:(lia) r [] ltac:(lia)) as Hr'.
    rewrite Hl. rewrite !length_app in *. simpl in Hr'. lia.
  - rewrite (sentences_from_none _ _ Hf).
    etrans; [apply sum_len_emit|]. by rewrite length_app.
Qed.

End SentenceEnds.

Section Cache.
Import BaseTextAnalyzer TextAnalyzer.

(** With a coherent cache the property [sentences] is the segmentation of
    the current document, and it leaves the cache filled and coherent. *)
Lemma sentences_coherent self :
  coherent self ->
  exists self',
    sentences self = Ok (segment_kept (text self), self') /\
    _text self' = _text self /\
    _cached_sentences self' = Some (segment_kept (text self)) /\
    coherent self'.
Proof.
  intros Hc. unfold coherent in Hc.
  destruct (_cached_sentences self) as [ss|] eqn:Hcache.
  - subst ss. exists self. rewrite (sentences_cached self _ Hcache).
    split; [done|]. split; [done|]. split; [done|].
    unfold coherent. by rewrite Hcache.
  - eexists. rewrite (sentences_fresh self _ Hcache (_split_into_sentences_kept self)).
    split; [done|]. split; [done|]. split; [done|]. done.
Qed.

Lemma preserves_ret {A} (a : A) : preserves (ret a).
Proof. intros self a' self' Hc H. injection H as _ <-. done. Qed.

Lemma preserves_reads {A} (f : analyzer -> A) : preserves (reads f).
Proof. intros self a' self' Hc H. injection H as _ <-. done. Qed.

Lemma preserves_bind {A B} (m : M A) (f : A -> M B) :
  preserves m -> (forall a, preserves (f a)) -> preserves (bind m f).
Proof.
  intros Hm Hf self b self' Hc H. unfold bind in H.
  destruct (m self) as [[a self1]|e] eqn:Hm1; [|done].
  destruct (Hm _ _ _ Hc Hm1) as [Hc1 Ht1].
  destruct (Hf a _ _ _ Hc1 H) as [Hc' Ht']. split; [done|]. by rewrite Ht'.
Qed.

Lemma preserves_sentences : preserves sentences.
Proof.
  intros self ss self' Hc H.
  destruct (sentences_coherent self Hc) as (self1 & Hs & Ht & _ & Hc1).
  rewrite Hs in H. injection H as _ <-. done.
Qed.

Lemma preserves_get_sentence_types : preserves get_sentence_types.
Proof.
  apply preserves_bind; [apply preserves_sentences|]. intros; apply preserves_ret.
Qed.

Lemma preserves_get_average_sentence_length :
  preserves get_average_sentence_length.
Proof.
  apply preserves_bind; [apply preserves_sentences|]. intros ss.
  destruct (negb _); [apply preserves_ret|].
  apply preserves_bind; [apply preserves_sentences|]. intros ss1.
  apply preserves_bind; [apply preserves_sentences|]. intros; apply preserves_ret.
Qed.

Lemma preserves_analyze : preserves analyze.
Proof.
  apply preserves_bind; [apply preserves_sentences|]. intros ss.
  apply preserves_bind; [apply preserves_get_sentence_types|]. intros types.
  apply preserves_bind; [apply preserves_get_average_sentence_length|]. intros avg.
  apply preserves_bind; [apply preserves_reads|]. intros; apply preserves_ret.
Qed.

(** Every instance a program can hold has a non-empty document and a
    coherent cache. *)
Lemma reachable_invariant self :
  reachable self -> _text self <> [] /\ coherent self.
Proof.
  induction 1 as [v self Hi|self v self' _ _ Hs|self ss self' _ [Ht Hc] Hs
                 |self ty self' _ [Ht Hc] Hs|self avg self' _ [Ht Hc] Hs
                 |self rep self' _ [Ht Hc] Hs].
  - rewrite __init___spec in Hi. destruct v as [| | | |[|c s]| | |]; try done.
    by injection Hi as <-.
  - rewrite set_text_spec in Hs. destruct v as [| | | |[|c s]| | |]; try done.
    by injection Hs as <-.
  - destruct (preserves_sentences _ _ _ Hc Hs) as [? ->]. done.
  - destruct (preserves_get_sentence_types _ _ _ Hc Hs) as [? ->]. done.
  - destruct (preserves_get_average_sentence_length _ _ _ Hc Hs) as [? ->]. done.
  - destruct (preserves_analyze _ _ _ Hc Hs) as [? ->]. done.
Qed.

(** The average sentence length, for a coherent cache. *)
Lemma get_average_sentence_length_coherent self :
  coherent self ->
  exists self',
    get_average_sentence_length self =
      Ok (match segment_kept (text self) with
          | [] => FZero
          | ss => FDiv (Z.of_nat (sum_len ss)) (Z.of_nat (length ss))
          end, self') /\
    _text self' = _text self /\ coherent self'.
Proof.
  intros Hc. destruct (sentences_coherent self Hc) as (self1 & Hs & Ht & Hcache & Hc1).
  assert (Hs1 : sentences self1 = Ok (segment_kept (text self), self1))
    by by apply sentences_cached.
  exists self1. split; [|done]. unfold get_average_sentence_length.
  rewrite (bind_run _ _ _ _ _ Hs).
  destruct (segment_kept (text self)) as [|s ss] eqn:Hseg; [done|]. cbn [negb].
  rewrite (bind_run _ _ _ _ _ Hs1). by rewrite (bind_run _ _ _ _ _ Hs1).
Qed.

End Cache.

Section BasicAverages.

Lemma word_chars_cons c s :
  word_chars (c :: s) = (if Char.is_word c then 1 else 0) + word_chars s.
Proof.
  unfold word_chars. rewrite filter_cons.
  destruct (Char.is_word c) eqn:Hc.
  - by rewrite decide_True.
  - by rewrite decide_False.
Qed.

Lemma word_chars_app x y : word_chars (x ++ y) = word_chars x + word_chars y.
Proof. unfold word_chars. by rewrite filter_app, length_app. Qed.

Lemma space_not_word c : Char.is_space c = true -> Char.is_word c = false.
Proof. by destruct c as [[] [] [] [] [] [] [] []]. Qed.

Lemma word_chars_without_spaces s : word_chars (without_spaces s) = word_chars s.
Proof.
  induction s as [|c s IH]; [done|]. unfold without_spaces in *.
  rewrite filter_cons, (word_chars_cons c s).
  destruct (Char.is_space c) eqn:Hc.
  - rewrite decide_False by done. by rewrite IH, (space_not_word c Hc).
  - rewrite decide_True by done. by rewrite word_chars_cons, IH.
Qed.

(** Trimming keeps the word characters. *)
Lemma word_chars_strip s : word_chars (PyStr.strip s) = word_chars s.
Proof.
  by rewrite <- word_chars_without_spaces, without_spaces_strip,
    word_chars_without_spaces.
Qed.

(** The runs of word characters hold the word characters of the text. *)
Lemma sum_len_words_from : forall l (b : bool),
  Task2.sum_len (words_from (fun _ => true) b l) +
  (if b then length (take_run Char.is_word l) else 0) = word_chars l.
Proof.
  induction l as [|c l IH]; intros b; [by destruct b|].
  rewrite word_chars_cons. cbn [words_from take_run].
  destruct (Char.is_word c) eqn:Hc.
  - specialize (IH true). destruct b; simpl in *; lia.
  - specialize (IH false). destruct b; simpl in *; lia.
Qed.

Lemma sum_len_word_runs text : Task2.sum_len (word_runs text) = word_chars text.
Proof. rewrite <- (sum_len_words_from text false). unfold word_runs. lia. Qed.

Lemma findall_Task2_words s : findall_str Task2.word_re s = word_runs s.
Proof. by apply findall_str_words; [apply finds_runs_Task2_word_re|]. Qed.

(** The total of the word characters over a list of strings. *)
Lemma foldl_word_chars (ss : list str) : forall total,
  foldl (fun total sentence =>
           total + Task2.sum_len (findall_str Task2.word_re sentence)) total ss =
  total + foldr (fun s acc => word_chars s + acc) 0 ss.
Proof.
  induction ss as [|s ss IH]; intros total; simpl; [lia|].
  rewrite IH, findall_Task2_words, sum_len_word_runs. lia.
Qed.

Lemma add_to_first_word_chars c (pieces : list str) :
  pieces <> [] ->
  foldr (fun s acc => word_chars s + acc) 0 (add_to_first c pieces) =
  (if Char.is_word c then 1 else 0) + foldr (fun s acc => word_chars s + acc) 0 pieces.
Proof.
  destruct pieces as [|x xs]; [done|]. intros _. simpl.
  rewrite word_chars_cons. lia.
Qed.

Lemma spans_nonempty b l : spans b l <> [].
Proof.
  revert b. induction l as [|c l IH]; intros b; [done|]. simpl.
  destruct (Char.one_of ".!?" c).
  - destruct b; [apply IH|done].
  - specialize (IH false). by destruct (spans false l).
Qed.

Lemma terminator_not_word c : Char.one_of ".!?" c = true -> Char.is_word c = false.
Proof. by destruct c as [[] [] [] [] [] [] [] []]. Qed.

(** The spans between the terminators hold the word characters of the
    text. *)
Lemma spans_word_chars : forall l b,
  foldr (fun s acc => word_chars s + acc) 0 (spans b l) = word_chars l.
Proof.
  induction l as [|c l IH]; intros b; [done|]. cbn [spans].
  rewrite word_chars_cons. destruct (Char.one_of ".!?" c) eqn:Hc.
  - rewrite (terminator_not_word c Hc). destruct b; simpl; by rewrite IH.
  - rewrite add_to_first_word_chars by apply spans_nonempty. by rewrite IH.
Qed.

Lemma stripped_nonempty_word_chars (l : list str) :
  foldr (fun s acc => word_chars s + acc) 0 (Task2.stripped_nonempty l) =
  foldr (fun s acc => word_chars s + acc) 0 l.
Proof.
  unfold Task2.stripped_nonempty. induction l as [|x l IH]; [done|].
  rewrite filter_cons. destruct (decide _) as [Hx|Hx]; simpl.
  - by rewrite IH, word_chars_strip.
  - rewrite IH. rewrite <- (word_chars_strip x).
    destruct (PyStr.strip x); [done|]. by destruct Hx.
Qed.

Lemma total_word_chars text :
  foldl (fun total sentence =>
           total + Task2.sum_len (findall_str Task2.word_re sentence)) 0
    (Task2.stripped_nonempty (Task2.pieces text)) = word_chars text.
Proof.
  by rewrite foldl_word_chars, stripped_nonempty_word_chars, pieces_spans,
    spans_word_chars.
Qed.

End BasicAverages.

Section Tokens.

Lemma prev_after_cons c w pv : prev_after (c :: w) pv = prev_after w (Some c).
Proof.
  unfold prev_after. destruct w as [|d w]; [done|]. rewrite last_cons_cons.
  destruct (last (d :: w)) eqn:Hl; [done|]. by apply last_None in Hl.
Qed.

Lemma tokens_from_skip tok w : forall pv r,
  tokens_from tok (length w) pv (w ++ r) = tokens_from tok 0 (prev_after w pv) r.
Proof.
  induction w as [|c w IH]; intros pv r.
  { simpl. by destruct r. }
  simpl. by rewrite IH, prev_after_cons.
Qed.

(** The scan of [re.findall] with a pattern that finds tokens. *)
Lemma findall_tokens r tok :
  finds_tokens r tok ->
  forall n l, length l <= n ->
  forall fuel b i pv, length l < fuel ->
  m_text <$> finditer_from fuel r b i pv l = tokens_from tok 0 pv l.
Proof.
  intros Hr. induction n as [n IH] using lt_wf_ind.
  intros l Hn fuel b i pv Hfuel.
  destruct fuel as [|fuel]; [lia|].
  rewrite findall_from_step by done. cbn zeta.
  specialize (Hr b pv l). destruct (tok pv l) as [w|] eqn:Htok.
  - destruct Hr as (Hw & l2 & Hl & cs & ->).
    cbn [found m_text prev rest]. subst l.
    destruct w as [|c w]; [done|].
    rewrite (IH (length l2)); [|rewrite length_app in Hn; simpl in Hn; lia
                               |done|rewrite length_app in Hfuel; simpl in Hfuel; lia].
    rewrite <- app_comm_cons. cbn [tokens_from]. rewrite app_comm_cons, Htok.
    replace (length (c :: w) - 1) with (length w) by (simpl; lia).
    rewrite tokens_from_skip, prev_after_cons.
    f_equal. by apply consumed_app.
  - rewrite Hr. destruct l as [|c l]; [done|].
    rewrite (IH (length l)) by (simpl in *; lia).
    cbn [tokens_from]. by rewrite Htok.
Qed.

Lemma finditer_tokens r tok text :
  finds_tokens r tok ->
  m_text <$> finditer r text = tokens_from tok 0 None text.
Proof.
  intros Hr. apply (findall_tokens r tok Hr (length text)); [done|].
  unfold scan_fuel. lia.
Qed.

(** Every token listed is one that [tok] gives somewhere. *)
Lemma tokens_from_Forall tok (P : str -> Prop) :
  (forall pv l w, tok pv l = Some w -> P w) ->
  forall l skip pv, Forall P (tokens_from tok skip pv l).
Proof.
  intros HP. induction l as [|c l IH]; intros skip pv; [constructor|].
  cbn [tokens_from]. destruct skip; [|done].
  destruct (tok pv (c :: l)) as [w|] eqn:Ht; [|done].
  constructor; [by eapply HP|done].
Qed.

End Tokens.

Section Smileys.
Import BaseTextAnalyzer.

Lemma after_record w l s :
  after w l s = {| prev := prev_after w (prev s); rest := l; caps := caps s |}.
Proof. done. Qed.

Lemma prev_after_app x y pv :
  prev_after (x ++ y) pv = prev_after y (prev_after x pv).
Proof.
  revert pv. induction x as [|c x IH]; intros pv; [done|].
  rewrite <- app_comm_cons, !prev_after_cons. apply IH.
Qed.

(** [(?::|;)]. *)
Lemma exec_colon_or_semicolon pv h l cs k :
  exec (Alt (Lit ":") (Lit ";")) {| prev := pv; rest := h :: l; caps := cs |} k =
  if Char.one_of ":;" h then k {| prev := Some h; rest := l; caps := cs |} else None.
Proof.
  rewrite exec_Alt. unfold Lit. rewrite !exec_Chr_cons.
  change (Char.one_of ":;" h) with ((h =? ":")%char || ((h =? ";")%char || false)).
  rewrite (Ascii.eqb_sym h ":"), (Ascii.eqb_sym h ";"), orb_false_r.
  destruct (Ascii.eqb_spec ":" h) as [<-|]; [by destruct (k _)|].
  by destruct (";" =? h)%char.
Qed.

(** The repetition of a class, when what follows it accepts the end of the
    longest run wherever it is. *)
Lemma exec_Star_longest p pv l cs k :
  is_Some (k (after (take_run p l) (drop_run p l)
                {| prev := pv; rest := l; caps := cs |})) ->
  exec (Star true (Chr p)) {| prev := pv; rest := l; caps := cs |} k =
  k (after (take_run p l) (drop_run p l) {| prev := pv; rest := l; caps := cs |}).
Proof.
  intros Hk. rewrite exec_Star. cbn [rest].
  rewrite star_loop_greedy_Chr by done. by apply greedy_chars_longest.
Qed.

(** The repetition of a class, when what follows it fails where the run
    goes on. *)
Lemma exec_Star_end p pv l cs k :
  (forall pv c l, p c = true ->
     k {| prev := pv; rest := c :: l; caps := cs |} = None) ->
  exec (Star true (Chr p)) {| prev := pv; rest := l; caps := cs |} k =
  k (after (take_run p l) (drop_run p l) {| prev := pv; rest := l; caps := cs |}).
Proof.
  intros Hk. rewrite exec_Star. cbn [rest].
  rewrite star_loop_greedy_Chr by done. by apply greedy_chars_end.
Qed.

Lemma hyphen_not_bracket c :
  Ascii.eqb "-" c = true -> Char.one_of "()[]" c = false.
Proof. by intros <-%Ascii.eqb_eq. Qed.

Lemma attempt_accepts (b : bool) (n : nat) (e : mstate) :
  length (rest e) < n ->
  is_Some (if b && (length (rest e) =? n)%nat then None else Some e).
Proof. intros H. by rewrite attempt_done. Qed.

(** [(?::|;)-*[\(\)\[\]]+]. *)
Lemma finds_tokens_smiley_pattern :
  finds_tokens Task2._smiley_pattern (fun _ => smiley_candidate).
Proof.
  intros b pv l. unfold attempt, Task2._smiley_pattern.
  destruct l as [|h l]; [done|]. cbn [smiley_candidate].
  rewrite exec_Seq, exec_colon_or_semicolon.
  destruct (Char.one_of ":;" h); [|done].
  rewrite exec_Seq. unfold Lit. rewrite exec_Star_end; cycle 1.
  { intros pv' c l' Hc. unfold Plus. rewrite exec_Seq, exec_Chr_cons.
    by rewrite (hyphen_not_bracket c Hc). }
  rewrite after_record. cbn [prev caps].
  pose proof (take_drop_run (Ascii.eqb "-") l) as Hl.
  pose proof (drop_run_length (Ascii.eqb "-") l) as Hlen.
  destruct (drop_run (Ascii.eqb "-") l) as [|c r] eqn:Hr; [done|].
  unfold Plus. rewrite exec_Seq, exec_Chr_cons. cbn [take_run].
  destruct (Char.one_of "()[]" c) eqn:Hc; [|done].
  pose proof (take_drop_run (Char.one_of "()[]") r) as Hr'.
  pose proof (drop_run_length (Char.one_of "()[]") r) as Hlen'.
  rewrite exec_Star_longest;
    [|apply attempt_accepts; cbn [after rest length] in *; lia].
  rewrite attempt_done by (cbn [after rest length] in *; lia).
  split; [done|]. exists (drop_run (Char.one_of "()[]") r). split.
  { rewrite <- app_comm_cons, <- app_assoc, <- app_comm_cons, Hr', <- Hl at 1.
    done. }
  exists []. rewrite after_record. cbn [prev caps]. do 2 f_equal.
  by rewrite prev_after_cons, prev_after_app, prev_after_cons.
Qed.

End Smileys.

Section SmileyFilter.
Import BaseTextAnalyzer.

Lemma filter_ext_Forall {A} (P Q : A -> Prop)
    `{!forall x, Decision (P x)} `{!forall x, Decision (Q x)} (l : list A) :
  Forall (fun x => P x <-> Q x) l -> filter P l = filter Q l.
Proof.
  induction 1 as [|x l Hx _ IH]; [done|]. rewrite !filter_cons, IH.
  destruct (decide (P x)), (decide (Q x)); tauto.
Qed.

(** A candidate, taken apart. *)
Lemma smiley_candidate_Some l w :
  smiley_candidate l = Some w ->
  exists h d c b,
    w = h :: d ++ c :: b /\
    Char.one_of ":;" h = true /\ forallb (Ascii.eqb "-") d = true /\
    forallb (Char.one_of "()[]") (c :: b) = true.
Proof.
  destruct l as [|h l]; [done|]. cbn [smiley_candidate].
  destruct (Char.one_of ":;" h) eqn:Hh; [|done].
  pose proof (take_run_all (Char.one_of "()[]") (drop_run (Ascii.eqb "-") l)) as Hb.
  destruct (take_run (Char.one_of "()[]") _) as [|c b]; [done|].
  intros [= <-]. exists h, (take_run (Ascii.eqb "-") l), c, b.
  split; [done|]. split; [done|]. split; [apply take_run_all|done].
Qed.

Lemma drop_run_hyphens d c b :
  forallb (Ascii.eqb "-") d = true -> Char.one_of "()[]" c = true ->
  drop_run (Ascii.eqb "-") (d ++ c :: b) = c :: b /\
  take_run (Ascii.eqb "-") (d ++ c :: b) = d.
Proof.
  intros Hd Hc. induction d as [|x d IH]; cbn [app drop_run take_run forallb] in *.
  - destruct (Ascii.eqb "-" c) eqn:He; [|done].
    rewrite (hyphen_not_bracket c He) in Hc. discriminate.
  - apply andb_true_iff in Hd as [-> Hd]. destruct (IH Hd) as [-> ->]. done.
Qed.

(** No match of [^[:;]-*] after the start of the string. *)
Lemma sub_head_inside fuel : forall l b c,
  sub_from fuel Task2.smiley_head_re (fun _ => []) b (Some c) l = l.
Proof.
  destruct fuel as [|fuel]; [done|].
  induction l as [|x l IH]; intros b c; rewrite sub_from_step by done; [done|].
  cbn zeta. unfold attempt at 1. cbn [exec prev]. f_equal. apply IH.
Qed.

Lemma exec_Bol_None l cs k :
  exec Bol {| prev := None; rest := l; caps := cs |} k =
  k {| prev := None; rest := l; caps := cs |}.
Proof. done. Qed.

(** [re.sub(r'^[:;]-*', '', smiley)] leaves the brackets of a candidate. *)
Lemma sub_head_candidate h d c b :
  Char.one_of ":;" h = true -> forallb (Ascii.eqb "-") d = true ->
  Char.one_of "()[]" c = true ->
  sub Task2.smiley_head_re (fun _ => []) (h :: d ++ c :: b) = c :: b.
Proof.
  intros Hh Hd Hc. unfold sub, scan_fuel.
  replace (2 * length (h :: d ++ c :: b) + 2)
    with (S (2 * length (h :: d ++ c :: b) + 1)) by lia.
  rewrite sub_from_step by done. cbn zeta.
  unfold attempt, Task2.smiley_head_re.
  rewrite exec_Seq, exec_Bol_None, exec_Seq, exec_Chr_cons, Hh. unfold Lit.
  rewrite exec_Star_longest by done.
  destruct (drop_run_hyphens d c b Hd Hc) as [-> ->].
  cbn [andb app]. rewrite after_record. cbn [prev rest caps].
  unfold prev_after. destruct (last d); apply sub_head_inside.
Qed.

Lemma forallb_eqb_replicate c (b : str) :
  forallb (Ascii.eqb c) b = true -> b = replicate (length b) c.
Proof.
  induction b as [|x b IH]; [done|]. simpl.
  intros [->%Ascii.eqb_eq Hb]%andb_true_iff. f_equal. by apply IH.
Qed.

Lemma list_to_set_uniform c (b : str) :
  forallb (Ascii.eqb c) b = true -> (list_to_set (c :: b) : gset ascii) = {[c]}.
Proof.
  induction b as [|x b IH].
  { intros _. simpl. apply (right_id_L ∅ (∪)). }
  cbn [forallb]. intros [->%Ascii.eqb_eq Hb]%andb_true_iff. specialize (IH Hb).
  rewrite list_to_set_cons, IH. apply (idemp_L (∪)).
Qed.

(** [len(set(brackets)) == 1]: the brackets are all the first one. *)
Lemma uniform_brackets_cons c b :
  Task2.uniform_brackets (c :: b) =
  Char.one_of "()[]" c && forallb (Ascii.eqb c) b.
Proof.
  unfold Task2.uniform_brackets. rewrite andb_comm. f_equal.
  destruct (forallb (Ascii.eqb c) b) eqn:Hb.
  - apply bool_decide_eq_true. rewrite (list_to_set_uniform c b Hb).
    apply size_singleton.
  - apply bool_decide_eq_false. intros Hsize.
    assert (Hall : forallb (Ascii.eqb c) b = true); [|congruence].
    apply forallb_forall. intros x Hx%list_elem_of_In. apply Ascii.eqb_eq.
    apply (size_singleton_inv _ c x Hsize); apply elem_of_list_to_set;
      [left|by right].
Qed.

Lemma uniform_candidate l w :
  smiley_candidate l = Some w ->
  Task2.uniform_brackets (sub Task2.smiley_head_re (fun _ => []) w) =
  uniform_smiley w.
Proof.
  intros (h & d & c & b & -> & Hh & Hd & Hb)%smiley_candidate_Some.
  simpl in Hb. apply andb_true_iff in Hb as [Hc Hb].
  rewrite sub_head_candidate by done. cbn [uniform_smiley].
  destruct (drop_run_hyphens d c b Hd Hc) as [-> _].
  apply uniform_brackets_cons.
Qed.

Lemma valid_smileys_candidates text :
  Task2.valid_smileys text =
  filter (fun w => uniform_smiley w)
    (tokens_from (fun _ => smiley_candidate) 0 None text).
Proof.
  unfold Task2.valid_smileys.
  change (findall_str Task2._smiley_pattern text)
    with (m_text <$> finditer Task2._smiley_pattern text).
  rewrite (finditer_tokens _ _ text finds_tokens_smiley_pattern).
  apply filter_ext_Forall. apply tokens_from_Forall.
  intros _ l w Hw. by rewrite (uniform_candidate l w Hw).
Qed.

End SmileyFilter.

Section RepeatedBrackets.
Import BaseTextAnalyzer.

(** A back-reference to a group that holds one character is the class of
    that character. *)
Lemma exec_Backref_char n c pv l cs k :
  cap n cs = Some [c] ->
  exec (Backref n) {| prev := pv; rest := l; caps := cs |} k =
  exec (Chr (Ascii.eqb c)) {| prev := pv; rest := l; caps := cs |} k.
Proof.
  intros Hn. cbn [exec caps rest]. rewrite Hn.
  destruct l as [|d l]; [done|]. cbn [PyStr.strip_prefix].
  by destruct (Ascii.eqb_spec c d) as [->|].
Qed.

Lemma star_loop_Backref_char n c k cs :
  cap n cs = Some [c] ->
  forall fuel pv l, length l <= fuel ->
  star_loop (exec (Backref n)) true k fuel {| prev := pv; rest := l; caps := cs |} =
  greedy_chars (Ascii.eqb c) k pv l cs.
Proof.
  intros Hn. induction fuel as [|fuel IH]; intros pv l Hl.
  { destruct l; [done|simpl in Hl; lia]. }
  destruct l as [|d l].
  { cbn [star_loop]. by rewrite (exec_Backref_char n c). }
  cbn [star_loop greedy_chars]. rewrite (exec_Backref_char n c), exec_Chr_cons by done.
  destruct (Ascii.eqb c d); [|done].
  cbn [rest]. replace (length l <? length (d :: l))%nat with true
    by (symmetry; apply Nat.ltb_lt; simpl; lia).
  rewrite IH by (simpl in Hl; lia). done.
Qed.

(** [[;:]-*([\(\)\[\]])\1+]. *)
Lemma finds_tokens_smiley_re :
  finds_tokens TextAnalyzer.smiley_re (fun _ => smiley_repeated).
Proof.
  intros b pv l. unfold attempt, TextAnalyzer.smiley_re.
  destruct l as [|h l]; [done|]. cbn [smiley_repeated].
  rewrite exec_Seq, exec_Chr_cons.
  destruct (Char.one_of ";:" h); [|done].
  rewrite exec_Seq. unfold Lit. rewrite exec_Star_end; cycle 1.
  { intros pv' c l' Hc. rewrite exec_Seq, exec_Group_Chr. cbn [rest].
    by rewrite (hyphen_not_bracket c Hc). }
  rewrite after_record. cbn [prev caps].
  pose proof (take_drop_run (Ascii.eqb "-") l) as Hl.
  pose proof (drop_run_length (Ascii.eqb "-") l) as Hlen.
  rewrite exec_Seq, exec_Group_Chr. cbn [rest].
  destruct (drop_run (Ascii.eqb "-") l) as [|c r] eqn:Hr; [done|].
  destruct (Char.one_of "()[]" c) eqn:Hc; [|done].
  unfold Plus. rewrite exec_Seq.
  rewrite after_record. unfold set_cap. cbn [prev rest caps].
  rewrite (exec_Backref_char 1 c) by done.
  destruct r as [|d r]; [done|]. rewrite exec_Chr_cons. cbn [take_run].
  destruct (Ascii.eqb c d) eqn:Hd; [|done].
  apply Ascii.eqb_eq in Hd as <-.
  pose proof (take_drop_run (Ascii.eqb c) r) as Hr'.
  pose proof (drop_run_length (Ascii.eqb c) r) as Hlen'.
  rewrite exec_Star. cbn [rest].
  rewrite (star_loop_Backref_char 1 c) by done.
  rewrite greedy_chars_longest;
    [|apply attempt_accepts; cbn [after rest length] in *; lia].
  rewrite attempt_done by (cbn [after rest length] in *; lia).
  split; [done|]. exists (drop_run (Ascii.eqb c) r). split.
  { rewrite <- app_comm_cons, <- app_assoc, <- !app_comm_cons, Hr', <- Hl at 1.
    done. }
  eexists. rewrite after_record. cbn [prev caps]. do 2 f_equal.
  by rewrite prev_after_cons, prev_after_app, !prev_after_cons.
Qed.

(** A smiley of [TextAnalyzer.count_smileys], taken apart. *)
Lemma smiley_repeated_Some l w :
  smiley_repeated l = Some w ->
  exists h d c n,
    w = h :: d ++ replicate (n + 2) c /\
    Char.one_of ";:" h = true /\ forallb (Ascii.eqb "-") d = true /\
    Char.one_of "()[]" c = true.
Proof.
  destruct l as [|h l]; [done|]. cbn [smiley_repeated].
  destruct (Char.one_of ";:" h) eqn:Hh; [|done].
  destruct (drop_run (Ascii.eqb "-") l) as [|c r]; [done|].
  destruct (Char.one_of "()[]" c) eqn:Hc; [|done].
  pose proof (take_run_all (Ascii.eqb c) r) as Hb.
  destruct (take_run (Ascii.eqb c) r) as [|x b]; [done|].
  intros [= <-]. exists h, (take_run (Ascii.eqb "-") l), c, (length b).
  split; [|split; [done|split; [apply take_run_all|done]]].
  do 2 f_equal. rewrite Nat.add_comm. cbn [Nat.add replicate]. f_equal.
  apply forallb_eqb_replicate in Hb. simpl in Hb. done.
Qed.

End RepeatedBrackets.

Section Stretches.

Lemma upto_last_mark_Some p m : forall l w l2,
  upto_last_mark p m l = Some (w, l2) -> l = w ++ l2 /\ w <> [].
Proof.
  induction l as [|c l IH]; intros w l2 H; [done|]. cbn [upto_last_mark] in H.
  assert (Hhere : (if Ascii.eqb m c then Some ([c], l) else None) = Some (w, l2) ->
                  c :: l = w ++ l2 /\ w <> []).
  { destruct (Ascii.eqb m c); [|done]. by intros [= <- <-]. }
  destruct (p c); [|by apply Hhere].
  destruct (upto_last_mark p m l) as [[w' l2']|]; [|by apply Hhere].
  injection H as <- <-. destruct (IH _ _ eq_refl) as [-> _]. done.
Qed.

(** The greedy repetition of a class before a literal, read on the text. *)
Lemma greedy_mark p m n kf :
  (forall e, length (rest e) < n -> kf e = Some e) ->
  forall l pv, length l <= n ->
  greedy_chars p (fun s => exec (Lit m) s kf) pv l [] =
  match upto_last_mark p m l with
  | Some (w, l2) => Some {| prev := prev_after w pv; rest := l2; caps := [] |}
  | None => None
  end.
Proof.
  intros Hk. induction l as [|c l IH]; intros pv Hl; [done|].
  cbn [greedy_chars upto_last_mark].
  assert (Hhere : exec (Lit m) {| prev := pv; rest := c :: l; caps := [] |} kf =
    match (if Ascii.eqb m c then Some ([c], l) else None) with
    | Some (w, l2) => Some {| prev := prev_after w pv; rest := l2; caps := [] |}
    | None => None
    end).
  { unfold Lit. rewrite exec_Chr_cons. destruct (Ascii.eqb m c); [|done].
    apply Hk. simpl in *. lia. }
  destruct (p c); [|done].
  rewrite IH by (simpl in Hl; lia).
  destruct (upto_last_mark p m l) as [[w l2]|]; [|done].
  by rewrite prev_after_cons.
Qed.

(** [p*m]. *)
Lemma finds_tokens_mark p m :
  finds_tokens (Seq (Star true (Chr p)) (Lit m))
    (fun _ l => fst <$> upto_last_mark p m l).
Proof.
  intros b pv l. unfold attempt. rewrite exec_Seq, exec_Star. cbn [rest].
  rewrite star_loop_greedy_Chr by done.
  rewrite (greedy_mark p m (length l)); [|intros e He; by apply attempt_done|done].
  destruct (upto_last_mark p m l) as [[w l2]|] eqn:Hu;
    cbn [fmap option_fmap option_map fst]; [|done].
  destruct (upto_last_mark_Some p m l w l2 Hu) as [Hl Hw].
  split; [done|]. exists l2. split; [done|]. by exists [].
Qed.

Lemma stretches_nonempty p l : stretches p l <> [].
Proof.
  induction l as [|c l IH]; [done|]. simpl. destruct (p c); [|done].
  by destruct (stretches p l).
Qed.

Lemma marked_cons_in p m c l :
  p c = true ->
  marked_stretches p m (c :: l) =
  marked_stretches p m l +
  (if has_mark m (c :: hd [] (stretches p l)) then 1 else 0) -
  (if has_mark m (hd [] (stretches p l)) then 1 else 0).
Proof.
  intros Hc. unfold marked_stretches. cbn [stretches]. rewrite Hc.
  pose proof (stretches_nonempty p l) as Hne.
  destruct (stretches p l) as [|f fs]; [done|]. cbn [add_to_first hd].
  rewrite !filter_cons.
  destruct (decide (has_mark m (c :: f))) as [H1|H1],
           (decide (has_mark m f)) as [H2|H2];
    rewrite ?(Is_true_true_1 _ H1), ?(Is_true_false_1 _ H1),
            ?(Is_true_true_1 _ H2), ?(Is_true_false_1 _ H2); simpl; lia.
Qed.

Lemma marked_cons_out p m c l :
  p c = false -> marked_stretches p m (c :: l) = marked_stretches p m l.
Proof.
  intros Hc. unfold marked_stretches. cbn [stretches]. rewrite Hc.
  rewrite filter_cons. by destruct (decide _).
Qed.

(** The first stretch holds the mark exactly when [p*m] matches at the
    head of the text. *)
Lemma first_stretch_marked p m : p m = true -> forall l,
  has_mark m (hd [] (stretches p l)) = bool_decide (is_Some (upto_last_mark p m l)).
Proof.
  intros Hm. induction l as [|c l IH]; [done|]. cbn [stretches upto_last_mark].
  pose proof (stretches_nonempty p l) as Hne.
  destruct (p c) eqn:Hc.
  - destruct (stretches p l) as [|f fs]; [done|]. cbn [add_to_first hd] in *.
    cbn [has_mark existsb]. fold (has_mark m f). rewrite IH.
    destruct (upto_last_mark p m l) as [[w l2]|].
    + rewrite orb_true_r. symmetry. by apply bool_decide_eq_true.
    + rewrite orb_false_r. destruct (Ascii.eqb m c); symmetry;
        [by apply bool_decide_eq_true|apply bool_decide_eq_false; by intros [? ?]].
  - cbn [hd has_mark existsb]. destruct (Ascii.eqb_spec m c) as [->|]; [congruence|].
    symmetry. apply bool_decide_eq_false. by intros [? ?].
Qed.

(** A match of [p*m] at the head of the text closes one marked stretch. *)
Lemma marked_after_match p m : p m = true -> forall l w l2,
  upto_last_mark p m l = Some (w, l2) ->
  marked_stretches p m l = 1 + marked_stretches p m l2.
Proof.
  intros Hm. induction l as [|c l IH]; intros w l2 H; [done|].
  cbn [upto_last_mark] in H. destruct (p c) eqn:Hc.
  - rewrite (marked_cons_in p m c l Hc). cbn [has_mark existsb].
    fold (has_mark m (hd [] (stretches p l))).
    rewrite (first_stretch_marked p m Hm l).
    destruct (upto_last_mark p m l) as [[w' l2']|] eqn:Hu.
    + injection H as <- <-. rewrite (IH _ _ eq_refl).
      rewrite orb_true_r, bool_decide_eq_true_2 by done. lia.
    + destruct (Ascii.eqb m c); [|done]. injection H as <- <-.
      rewrite bool_decide_eq_false_2 by (by intros [? ?]). simpl. lia.
  - destruct (Ascii.eqb_spec m c) as [->|]; [congruence|done].
Qed.

Lemma marked_no_match p m : p m = true -> forall c l,
  upto_last_mark p m (c :: l) = None ->
  marked_stretches p m (c :: l) = marked_stretches p m l.
Proof.
  intros Hm c l H. cbn [upto_last_mark] in H. destruct (p c) eqn:Hc.
  - rewrite (marked_cons_in p m c l Hc). cbn [has_mark existsb].
    fold (has_mark m (hd [] (stretches p l))).
    rewrite (first_stretch_marked p m Hm l).
    destruct (upto_last_mark p m l) as [[w' l2']|] eqn:Hu; [done|].
    destruct (Ascii.eqb m c); [done|].
    rewrite bool_decide_eq_false_2 by (by intros [? ?]). simpl. lia.
  - by apply marked_cons_out.
Qed.

(** The matches of [p*m] are as many as the stretches that hold the mark. *)
Lemma tokens_marked p m : p m = true ->
  forall n l pv, length l <= n ->
  length (tokens_from (fun _ l => fst <$> upto_last_mark p m l) 0 pv l) =
  marked_stretches p m l.
Proof.
  intros Hm. induction n as [n IH] using lt_wf_ind. intros l pv Hn.
  destruct l as [|c l]; [done|]. cbn [tokens_from].
  destruct (upto_last_mark p m (c :: l)) as [[w l2]|] eqn:Hu;
    cbn [fmap option_fmap option_map fst].
  - rewrite (marked_after_match p m Hm _ _ _ Hu).
    apply upto_last_mark_Some in Hu as [Hl Hw].
    destruct w as [|x w]; [done|]. injection Hl as <- ->.
    cbn [length]. replace (S (length w) - 1) with (length w) by lia.
    rewrite tokens_from_skip. f_equal.
    apply (IH (length l2)); [|done]. rewrite length_cons, length_app in Hn. lia.
  - rewrite (marked_no_match p m Hm _ _ Hu).
    apply (IH (length l)); [simpl in Hn; lia|done].
Qed.

Lemma count_marked p m text : p m = true ->
  length (findall_str (Seq (Star true (Chr p)) (Lit m)) text) =
  marked_stretches p m text.
Proof.
  intros Hm.
  change (findall_str (Seq (Star true (Chr p)) (Lit m)) text)
    with (m_text <$> finditer (Seq (Star true (Chr p)) (Lit m)) text).
  rewrite (finditer_tokens _ _ text (finds_tokens_mark p m)).
  by apply (tokens_marked p m Hm (length text)).
Qed.

End Stretches.

Section AddressShape.
Import BaseTextAnalyzer.

Lemma after_nil s : after [] (rest s) s = s.
Proof. by destruct s. Qed.

Lemma after_after w1 l1 w2 l2 s :
  after w2 l2 (after w1 l1 s) = after (w1 ++ w2) l2 s.
Proof.
  unfold after. cbn [prev caps]. f_equal. rewrite last_app.
  by destruct (last w2).
Qed.

(** What a repetition of a class hands to its continuation: the state after
    some characters of the class. *)
Lemma star_loop_Chr_inv p greedy k : forall fuel s e,
  star_loop (exec (Chr p)) greedy k fuel s = Some e ->
  exists w l, rest s = w ++ l /\ forallb p w = true /\ k (after w l s) = Some e.
Proof.
  induction fuel as [|fuel IH]; intros s e H; cbn [star_loop] in H.
  { exists [], (rest s). by rewrite after_nil. }
  assert (Hagain :
    exec (Chr p) s (fun s1 => if (length (rest s1) <? length (rest s))%nat
                              then star_loop (exec (Chr p)) greedy k fuel s1
                              else None) = Some e ->
    exists w l, rest s = w ++ l /\ forallb p w = true /\ k (after w l s) = Some e).
  { destruct s as [pv [|c l] cs]; [done|]. rewrite exec_Chr_cons.
    destruct (p c) eqn:Hc; [|done]. destruct (_ <? _)%nat; [|done].
    intros (w & l' & Hl & Hw & Hk)%IH. cbn [rest] in Hl. subst l.
    exists (c :: w), l'. split; [done|]. split; [by cbn [forallb]; rewrite Hc|].
    by rewrite <- (after_cons w l' c (w ++ l') pv (c :: w ++ l') cs). }
  assert (Hstop : k s = Some e ->
    exists w l, rest s = w ++ l /\ forallb p w = true /\ k (after w l s) = Some e).
  { intros Hk. exists [], (rest s). by rewrite after_nil. }
  destruct greedy.
  - destruct (exec (Chr p) s _) as [e'|] eqn:Ha.
    + injection H as ->. by apply Hagain.
    + by apply Hstop.
  - destruct (k s) as [e'|] eqn:Hk.
    + injection H as ->. by apply Hstop.
    + by apply Hagain.
Qed.

Lemma exec_Star_Chr_inv p greedy s k e :
  exec (Star greedy (Chr p)) s k = Some e ->
  exists w l, rest s = w ++ l /\ forallb p w = true /\ k (after w l s) = Some e.
Proof. rewrite exec_Star. apply star_loop_Chr_inv. Qed.

Lemma exec_Chr_inv p s k e :
  exec (Chr p) s k = Some e ->
  exists c l, rest s = c :: l /\ p c = true /\ k (after [c] l s) = Some e.
Proof.
  destruct s as [pv [|c l] cs]; [done|]. rewrite exec_Chr_cons.
  destruct (p c) eqn:Hc; [|done]. intros H. by exists c, l.
Qed.

(** [p+]: the state after one or more characters of the class. *)
Lemma exec_Plus_Chr_inv p greedy s k e :
  exec (Plus greedy (Chr p)) s k = Some e ->
  exists w l, rest s = w ++ l /\ w <> [] /\ forallb p w = true /\
    k (after w l s) = Some e.
Proof.
  unfold Plus. rewrite exec_Seq.
  intros (c & l & Hr & Hc & H)%exec_Chr_inv.
  apply exec_Star_Chr_inv in H as (w & l' & Hl & Hw & H). cbn [rest after] in Hl.
  exists (c :: w), l'. split; [by rewrite Hr, Hl|]. split; [done|].
  split; [by cbn [forallb]; rewrite Hc|]. by rewrite after_after in H.
Qed.

(** [p{2,}]. *)
Lemma exec_AtLeast2_Chr_inv p s k e :
  exec (AtLeast2 (Chr p)) s k = Some e ->
  exists w l, rest s = w ++ l /\ 2 <= length w /\ forallb p w = true /\
    k (after w l s) = Some e.
Proof.
  unfold AtLeast2. rewrite exec_Seq.
  intros (c & l & Hr & Hc & H)%exec_Chr_inv. rewrite exec_Seq in H.
  apply exec_Chr_inv in H as (d & l1 & Hr1 & Hd & H).
  apply exec_Star_Chr_inv in H as (w & l' & Hl & Hw & H).
  cbn [rest after] in Hr1, Hl. subst l l1.
  exists (c :: d :: w), l'. split; [done|]. split; [simpl; lia|].
  split; [by cbn [forallb]; rewrite Hc, Hd|].
  by rewrite !after_after in H.
Qed.


(** A match of the pattern of [AdvancedTextAnalyzer], taken apart. *)
Lemma attempt_email_pattern_shape b s e :
  caps s = [] ->
  attempt Task2._email_pattern b s = Some e ->
  exists username host tld,
    caps e = [(2, host ++ "."%char :: tld); (1, username)] /\
    username <> [] /\ forallb Task2.local_char username = true /\
    host <> [] /\ forallb Task2.domain_char host = true /\
    2 <= length tld /\ forallb Task2.tld_char tld = true.
Proof.
  intros Hcaps. unfold attempt, Task2._email_pattern. intros H.
  rewrite exec_Seq in H. apply exec_WordB_inv in H.
  rewrite exec_Seq, exec_Group in H.
  apply exec_Plus_Chr_inv in H as (u & l1 & Hr1 & Hu & Hlu & H).
  rewrite (consumed_app s (after u l1 s) u Hr1) in H.
  rewrite exec_Seq in H. apply exec_Lit_inv in H as (l2 & Hr2 & H).
  rewrite exec_Seq, exec_Group, exec_Seq in H.
  apply exec_Plus_Chr_inv in H as (host & l3 & Hr3 & Hh & Hlh & H).
  rewrite exec_Seq in H. apply exec_Lit_inv in H as (l4 & Hr4 & H).
  apply exec_AtLeast2_Chr_inv in H as (tld & l5 & Hr5 & Ht & Hlt & H).
  apply exec_WordB_inv in H.
  destruct (b && _); [done|]. injection H as <-.
  exists u, host, tld. split; [|done].
  cbn [caps set_cap after rest] in *. rewrite Hcaps. do 2 f_equal.
  f_equal. apply consumed_app. cbn [rest]. subst l3 l4.
  by rewrite <- app_assoc.
Qed.


Lemma exec_Eps s k : exec Eps s k = k s.
Proof. done. Qed.

Lemma exec_Alt_inv r1 r2 s k e :
  exec (Alt r1 r2) s k = Some e -> exec r1 s k = Some e \/ exec r2 s k = Some e.
Proof.
  rewrite exec_Alt. destruct (exec r1 s k) as [e'|]; [|by right].
  intros [= ->]. by left.
Qed.

Lemma exec_Opt_Lit_inv c s k e :
  exec (Opt (Lit c)) s k = Some e ->
  exists s', caps s' = caps s /\ k s' = Some e.
Proof.
  unfold Opt. intros [H|H]%exec_Alt_inv.
  - apply exec_Lit_inv in H as (l & _ & H). by eexists; split; [|exact H].
  - by exists s.
Qed.

(** The address of [TextAnalyzer.email_re], from the state where its group
    starts. *)
Lemma exec_address s k e :
  exec (Group 2 (Seq (Plus true (Chr TextAnalyzer.local_char))
                   (Seq (Lit "@")
                      (Seq (Plus true (Chr TextAnalyzer.domain_char))
                         (Seq (Lit ".") (AtLeast2 (Chr TextAnalyzer.az_char)))))))
    s k = Some e ->
  exists local host tld s',
    k s' = Some e /\
    caps s' = (2, local ++ "@"%char :: host ++ "."%char :: tld) :: caps s /\
    local <> [] /\ forallb TextAnalyzer.local_char local = true /\
    host <> [] /\ forallb TextAnalyzer.domain_char host = true /\
    2 <= length tld /\ forallb TextAnalyzer.az_char tld = true.
Proof.
  rewrite exec_Group, exec_Seq. intros H.
  apply exec_Plus_Chr_inv in H as (u & l1 & Hr1 & Hu & Hlu & H).
  rewrite exec_Seq in H. apply exec_Lit_inv in H as (l2 & Hr2 & H).
  rewrite exec_Seq in H.
  apply exec_Plus_Chr_inv in H as (host & l3 & Hr3 & Hh & Hlh & H).
  rewrite exec_Seq in H. apply exec_Lit_inv in H as (l4 & Hr4 & H).
  apply exec_AtLeast2_Chr_inv in H as (tld & l5 & Hr5 & Ht & Hlt & H).
  eexists u, host, tld, _. split; [exact H|]. split; [|done].
  cbn [caps set_cap after rest] in *. do 2 f_equal.
  apply consumed_app. cbn [rest]. subst l1 l2 l3 l4.
  rewrite Hr1, <- !app_assoc. cbn [app]. by rewrite <- !app_assoc.
Qed.

(** A match of the pattern of [TextAnalyzer], taken apart: the address, and
    the display name when the part in front of [<] matched. *)
Lemma attempt_email_re_shape b s e :
  caps s = [] ->
  attempt TextAnalyzer.email_re b s = Some e ->
  exists local host tld,
    cap 2 (caps e) = Some (local ++ "@"%char :: host ++ "."%char :: tld) /\
    local <> [] /\ forallb TextAnalyzer.local_char local = true /\
    host <> [] /\ forallb TextAnalyzer.domain_char host = true /\
    2 <= length tld /\ forallb TextAnalyzer.az_char tld = true /\
    match cap 1 (caps e) with
    | Some w => forallb TextAnalyzer.name_char w = true
    | None => True
    end.
Proof.
  intros Hcaps. unfold attempt, TextAnalyzer.email_re. intros H.
  rewrite exec_Seq in H. unfold Opt at 1 in H.
  apply exec_Alt_inv in H as [H|H].
  - rewrite exec_Seq, exec_Group in H.
    apply exec_Star_Chr_inv in H as (w & l1 & Hr1 & Hw & H).
    rewrite (consumed_app s (after w l1 s) w Hr1) in H.
    rewrite exec_Seq in H.
    apply exec_Star_Chr_inv in H as (sp & l2 & Hr2 & Hsp & H).
    apply exec_Lit_inv in H as (l3 & Hr3 & H).
    rewrite exec_Seq in H.
    apply exec_address in H
      as (u & host & tld & s' & H & Hc & Hu & Hlu & Hh & Hlh & Ht & Hlt).
    apply exec_Opt_Lit_inv in H as (s'' & Hc' & H).
    destruct (b && _); [done|]. injection H as <-.
    exists u, host, tld. rewrite Hc', Hc. cbn [caps set_cap after cap Nat.eqb].
    done.
  - rewrite exec_Eps, exec_Seq in H.
    apply exec_address in H
      as (u & host & tld & s' & H & Hc & Hu & Hlu & Hh & Hlh & Ht & Hlt).
    apply exec_Opt_Lit_inv in H as (s'' & Hc' & H).
    destruct (b && _); [done|]. injection H as <-.
    exists u, host, tld. rewrite Hc', Hc, Hcaps. cbn [cap Nat.eqb]. done.
Qed.


Lemma forallb_lstrip (p : ascii -> bool) s :
  forallb p s = true -> forallb p (PyStr.lstrip s) = true.
Proof.
  induction s as [|c s IH]; [done|]. cbn [PyStr.lstrip].
  destruct (Char.is_space c); [|done]. cbn [forallb].
  intros [_ H]%andb_true_iff. by apply IH.
Qed.

Lemma forallb_strip (p : ascii -> bool) s :
  forallb p s = true -> forallb p (PyStr.strip s) = true.
Proof.
  intros H. unfold PyStr.strip, PyStr.rstrip. apply forallb_lstrip.
  rewrite forallb_rev. apply forallb_lstrip. by rewrite forallb_rev.
Qed.

Lemma lstrip_id s :
  match s with c :: _ => Char.is_space c = false | [] => True end ->
  PyStr.lstrip s = s.
Proof. destruct s as [|c s]; [done|]. simpl. by intros ->. Qed.

(** Trimming a trimmed string changes nothing. *)
Lemma strip_strip s : PyStr.strip (PyStr.strip s) = PyStr.strip s.
Proof.
  destruct (PyStr.strip s) as [|c x] eqn:Hx; [done|]. rewrite <- Hx.
  assert (Hhead : Char.is_space c = false).
  { unfold PyStr.strip in Hx. by apply lstrip_head in Hx. }
  destruct (last (PyStr.rstrip s)) as [d|] eqn:Hl; cycle 1.
  { apply last_None in Hl. unfold PyStr.strip in Hx. by rewrite Hl in Hx. }
  assert (Hd : Char.is_space d = false).
  { unfold PyStr.rstrip in Hl.
    destruct (PyStr.lstrip (rev s)) as [|d' y] eqn:Hy; [done|].
    apply lstrip_head in Hy. cbn [rev] in Hl. rewrite last_snoc in Hl.
    by injection Hl as <-. }
  assert (Hlast : last (PyStr.strip s) = Some d) by by apply last_lstrip.
  unfold PyStr.strip at 1. rewrite (rstrip_last _ d Hlast Hd).
  apply lstrip_id. by rewrite Hx.
Qed.

Lemma email_tuples_shape text :
  Forall (fun e : str * str =>
            exists host tld,
              e.2 = host ++ "."%char :: tld /\
              e.1 <> [] /\ forallb Task2.local_char e.1 = true /\
              host <> [] /\ forallb Task2.domain_char host = true /\
              2 <= length tld /\ forallb Task2.tld_char tld = true)
    (Task2.email_tuples text).
Proof.
  rewrite email_tuples_groups. apply Forall_fmap. unfold finditer.
  apply finditer_from_Forall. intros b i skipped pv l m Hs.
  apply search_from_found in Hs as (b' & i' & sk & s & e & Hc & Ha & ->).
  apply attempt_email_pattern_shape in Ha
    as (u & host & tld & Hcaps & Hu & Hlu & Hh & Hlh & Ht & Hlt); [|done].
  exists host, tld. unfold group_or_empty, group. cbn [found m_caps fst snd].
  rewrite Hcaps. cbn [cap Nat.eqb]. done.
Qed.

Lemma emails_and_names_shape self :
  Forall (fun entry : option str * str =>
            (exists local host tld,
               entry.1 = Some (local ++ "@"%char :: host ++ "."%char :: tld) /\
               local <> [] /\ forallb TextAnalyzer.local_char local = true /\
               host <> [] /\ forallb TextAnalyzer.domain_char host = true /\
               2 <= length tld /\ forallb TextAnalyzer.az_char tld = true) /\
            forallb TextAnalyzer.name_char entry.2 = true /\
            PyStr.strip entry.2 = entry.2)
    (TextAnalyzer.get_emails_and_names self).
Proof.
  unfold TextAnalyzer.get_emails_and_names. apply Forall_fmap. unfold finditer.
  apply finditer_from_Forall. intros b i skipped pv l m Hs.
  apply search_from_found in Hs as (b' & i' & sk & s & e & Hc & Ha & ->).
  apply attempt_email_re_shape in Ha
    as (u & host & tld & Hcaps & Hu & Hlu & Hh & Hlh & Ht & Hlt & Hname); [|done].
  unfold TextAnalyzer.email_entry, group, found. simpl.
  split; [by exists u, host, tld|].
  destruct (cap 1 (caps e)) as [w|]; [|by split].
  destruct (PyStr.truthy w); [|by split].
  split; [by apply forallb_strip|apply strip_strip].
Qed.

End AddressShape.

Section TextAnalyzerProperties.
Import BaseTextAnalyzer TextAnalyzerMixin TextAnalyzer.

(** X1 (base_analyzer.py, the setter of [text] and the property [sentences];
    text_analyzer.py, the methods that read [sentences]).  Every instance a
    program can hold (built by the constructor, then passed through the
    setter and the methods that fill the cache, in any order) has a non-empty
    document, so [len] of it is at least 1, and a cache that is empty or holds
    the segmentation of the current document: the property [sentences] gives
    the sentences of the current document, never those of a document that
    the setter has replaced, and leaves the document as it is. *)
Theorem X1_sentences_of_current_document (self : analyzer) :
  reachable self ->
  text self <> [] /\ 1 <= __len__ self /\ coherent self /\
  exists self',
    sentences self = Ok (segment_kept (text self), self') /\
    text self' = text self /\
    _cached_sentences self' = Some (segment_kept (text self)) /\
    reachable self'.
Proof.
  intros Hr. destruct (reachable_invariant self Hr) as [Ht Hc].
  split; [done|]. split.
  { unfold __len__. destruct (_text self); [done|simpl; lia]. }
  split; [done|].
  destruct (sentences_coherent self Hc) as (self' & Hs & Ht' & Hcache & _).
  exists self'. repeat split; try done. by eapply reach_sentences.
Qed.

Lemma X1_sentences_of_current_document_witness :
  text (fresh (lit "New one. Two.")) <> [] /\
  1 <= __len__ (fresh (lit "New one. Two.")) /\
  coherent (fresh (lit "New one. Two.")) /\
  exists self',
    sentences (fresh (lit "New one. Two.")) =
      Ok (segment_kept (text (fresh (lit "New one. Two."))), self') /\
    text self' = text (fresh (lit "New one. Two.")) /\
    _cached_sentences self' =
      Some (segment_kept (text (fresh (lit "New one. Two.")))) /\
    reachable self'.
Proof.
  apply (X1_sentences_of_current_document (fresh (lit "New one. Two."))).
  apply (reach_set_text
           {| _text := lit "Old."; _cached_sentences := Some [lit "Old."] |}
           (PyStr (lit "New one. Two."))); [|reflexivity].
  apply (reach_sentences (fresh (lit "Old.")) [lit "Old."]); [|reflexivity].
  apply (reach_init (PyStr (lit "Old."))). reflexivity.
Defined.

(** X2 (text_analyzer.py, [_split_into_sentences]).  Segmentation never
    fails and loses whitespace only: the characters of the sentences that are
    not whitespace are, in order, those of the document; the sentences are
    together not longer than the document; and there is no sentence exactly
    when the document consists of whitespace. *)
Theorem X2_segmentation_keeps_the_text (self : analyzer) :
  exists ss,
    _split_into_sentences self = Ok ss /\
    without_spaces (concat ss) = without_spaces (text self) /\
    sum_len ss <= length (text self) /\
    (ss = [] <-> forallb Char.is_space (text self) = true).
Proof.
  exists (segment_kept (text self)). split; [apply _split_into_sentences_kept|].
  split; [by apply (without_spaces_sentences (length (text self)) (text self) [])|].
  split; [by apply (sum_len_sentences (length (text self)) (text self) [])|].
  apply segment_kept_nil.
Qed.

(** X3 (text_analyzer.py, [_split_into_sentences] and
    [get_sentence_types]).  Every sentence but the last one ends with [.],
    [!] or [?]: only the last sentence of a document can lack its
    terminator, and a sentence before it is counted as declarative only when
    it ends with a period. *)
Theorem X3_sentences_end_with_terminators (self : analyzer) :
  exists init tail,
    _split_into_sentences self = Ok (init ++ tail) /\
    Forall (fun s => ends_with_terminator s = true /\
                     (sentence_type s = declarative ->
                      PyStr.endswith s "." = true)) init /\
    length tail <= 1.
Proof.
  destruct (sentences_from_ends (length (text self)) (text self) [] (le_n _))
    as (init & tail & Hs & Hi & Ht).
  exists init, tail. split; [|split; [|done]].
  { rewrite _split_into_sentences_kept. by rewrite <- Hs. }
  eapply Forall_impl; [exact Hi|]. intros s He. split; [done|].
  unfold sentence_type, ends_with_terminator, PyStr.endswith in *.
  destruct (last s) as [c|]; [|done].
  destruct (Ascii.eqb_spec c "?") as [->|H1]; [done|].
  destruct (Ascii.eqb_spec c "!") as [->|H2]; [done|].
  intros _. revert He H1 H2. clear.
  destruct c as [[] [] [] [] [] [] [] []]; try done.
Qed.

(** X4 (text_analyzer.py, [get_average_sentence_length]).  With a cache
    that is empty or current, the average is [0.0] exactly for a document of
    whitespace; for any other document it is the quotient of the total length
    of the sentences by their number, the number is at least 1 (no division
    by zero) and at most the total, which is at most the length of the
    document.  The document is left as it is. *)
Theorem X4_average_sentence_length (self : analyzer) :
  coherent self ->
  exists avg self',
    get_average_sentence_length self = Ok (avg, self') /\
    text self' = text self /\
    if forallb Char.is_space (text self)
    then avg = FZero
    else exists total n : nat,
           avg = FDiv (Z.of_nat total) (Z.of_nat n) /\
           n = length (segment_kept (text self)) /\
           total = sum_len (segment_kept (text self)) /\
           1 <= n <= total /\ total <= length (text self).
Proof.
  intros Hc.
  destruct (get_average_sentence_length_coherent self Hc) as (self' & Ha & Ht & _).
  eexists _, self'. split; [exact Ha|]. split; [done|].
  pose proof (segment_kept_nil (text self)) as Hnil.
  pose proof (segment_kept_nonblank (text self)) as Hnb.
  pose proof (sum_len_sentences (length (text self)) (text self) [] (le_n _)) as Hlen.
  fold (segment_kept (text self)) in Hlen.
  destruct (forallb Char.is_space (text self)).
  { by rewrite (proj2 Hnil eq_refl). }
  destruct (segment_kept (text self)) as [|s ss] eqn:Hseg.
  { discriminate (proj1 Hnil eq_refl). }
  eexists _, _. split; [done|]. split; [done|]. split; [done|].
  split; [|simpl in *; lia]. split; [simpl; lia|].
  apply sum_len_ge. eapply Forall_impl; [exact Hnb|]. by intros x [? _].
Qed.

Lemma X4_average_sentence_length_witness :
  exists avg self',
    get_average_sentence_length (fresh (lit "Hi! Are you ok? Yes.")) =
      Ok (avg, self') /\
    text self' = text (fresh (lit "Hi! Are you ok? Yes.")) /\
    if forallb Char.is_space (text (fresh (lit "Hi! Are you ok? Yes.")))
    then avg = FZero
    else exists total n : nat,
           avg = FDiv (Z.of_nat total) (Z.of_nat n) /\
           n = length (segment_kept (text (fresh (lit "Hi! Are you ok? Yes.")))) /\
           total = sum_len (segment_kept (text (fresh (lit "Hi! Are you ok? Yes.")))) /\
           1 <= n <= total /\
           total <= length (text (fresh (lit "Hi! Are you ok? Yes."))).
Proof.
  apply (X4_average_sentence_length (fresh (lit "Hi! Are you ok? Yes."))).
  exact I.
Defined.


(** X6 (text_analyzer.py, [get_average_word_length]).  The average is [0.0]
    when the document has no word; otherwise it is the quotient of the total
    length of the words by their number, which is at least 1 and at most the
    total (the average is at least 1). *)
Theorem X6_average_word_length (self : analyzer) :
  match get_all_words self with
  | [] => get_average_word_length self = FZero
  | _ :: _ =>
      exists total : nat,
        get_average_word_length self =
          FDiv (Z.of_nat total) (Z.of_nat (count_words self)) /\
        total = sum_len (get_all_words self) /\
        1 <= count_words self <= total
  end.
Proof.
  unfold get_average_word_length, count_words.
  pose proof (get_all_words_runs self) as Hw.
  assert (Hne : Forall (fun w => w <> []) (get_all_words self)).
  { rewrite Hw. unfold word_runs. rewrite <- words_from_filter.
    eapply Forall_impl; [apply words_from_Forall|]. by intros w [? _]. }
  apply sum_len_ge in Hne.
  destruct (get_all_words self) as [|w ws]; [done|].
  eexists. split; [done|]. split; [done|]. simpl in *. lia.
Qed.

(** X7 (text_analyzer.py, [get_shortest_i_word]).  The candidates are the
    maximal runs of word characters that start with [i] or [I] and have at
    least two characters.  Without a candidate the result is the empty
    string; otherwise it is a candidate, no candidate is shorter, and the
    candidates before it are longer (the first of the shortest). *)
Theorem X7_shortest_i_word (self : analyzer) :
  let i_words := filter (fun w => i_word w) (word_runs (text self)) in
  let best := get_shortest_i_word self in
  match i_words with
  | [] => best = []
  | _ :: _ =>
      i_word best = true /\
      exists before after,
        i_words = before ++ best :: after /\
        Forall (fun w => length best < length w) before /\
        Forall (fun w => length best <= length w) after
  end.
Proof.
  cbn zeta. unfold get_shortest_i_word.
  rewrite (findall_str_words i_word_re i_word) by (done || apply finds_runs_i_word_re).
  unfold word_runs. rewrite <- words_from_filter.
  pose proof (words_from_Forall i_word (text self) false) as Hall.
  destruct (words_from i_word false (text self)) as [|x l]; [done|].
  destruct (min_by_len_spec x l) as (l1 & l2 & Hl & H1 & H2). cbn zeta in *.
  split; [|by exists l1, l2].
  rewrite Forall_forall in Hall. apply (Hall (min_by_len x l)).
  rewrite Hl. apply elem_of_app. right. left.
Qed.

(** X8 (text_analyzer.py, [get_repeated_words]).  The words are taken from
    the lower-cased document (the look-ahead of the pattern excludes nothing:
    a run that starts with [v_] is no run of letters); the result lists,
    without duplicates and in order of first occurrence, exactly the words
    that occur at least twice. *)
Theorem X8_repeated_words :
  (forall self : analyzer,
     let words :=
       filter (fun w => letters_only w) (word_runs (PyStr.lower (text self))) in
     get_repeated_words self =
       filter (fun w => 2 <= occurrences w words) (first_occurrences words) /\
     NoDup (get_repeated_words self) /\
     forall w, w ∈ get_repeated_words self <-> 2 <= occurrences w words) /\
  get_repeated_words (fresh (lit "The cat and the Cat. v_ v_")) =
    [lit "the"; lit "cat"].
Proof.
  split; [|by vm_compute]. intros self. cbn zeta.
  assert (Hr : get_repeated_words self =
    filter (fun w => 2 <= occurrences w
              (filter (fun w => letters_only w) (word_runs (PyStr.lower (text self)))))
      (first_occurrences
         (filter (fun w => letters_only w) (word_runs (PyStr.lower (text self)))))).
  { unfold get_repeated_words, Counter.
    rewrite (findall_str_words repeated_re letters_only)
      by (done || apply finds_runs_repeated_re).
    unfold word_runs. rewrite <- words_from_filter. apply repeated_spec. }
  split; [done|]. rewrite Hr. split.
  - apply NoDup_filter, NoDup_first_occurrences.
  - intros w. rewrite list_elem_of_filter, elem_of_first_occurrences.
    split; [by intros [? _]|]. intros H. split; [done|].
    apply occurrences_elem_of. lia.
Qed.

(** X9 (text_analyzer.py, [count_smileys]).  The smileys counted are, from
    left to right and without overlap, the places where a colon or a
    semicolon is followed by any number of hyphens and then by one bracket
    and its repetitions; each of them holds at least two copies of its
    bracket, so that a smiley with a single bracket is never counted. *)
Theorem X9_counted_smileys_repeat_their_bracket :
  (forall self : analyzer,
     let smileys := tokens_from (fun _ => smiley_repeated) 0 None (text self) in
     count_smileys self = length smileys /\
     Forall (fun w => exists h d c n,
               w = h :: d ++ replicate (n + 2) c /\
               Char.one_of ";:" h = true /\
               forallb (Ascii.eqb "-") d = true /\
               Char.one_of "()[]" c = true) smileys) /\
  count_smileys (fresh (lit "a :-)) b ;]]] :) :-)]")) = 2.
Proof.
  split; [|by vm_compute]. intros self. cbn zeta. split.
  - unfold count_smileys, findall_str. rewrite length_map.
    rewrite <- (finditer_tokens _ _ (text self) finds_tokens_smiley_re).
    by rewrite length_fmap.
  - apply tokens_from_Forall. intros _ l w Hw. by eapply smiley_repeated_Some.
Qed.

End TextAnalyzerProperties.

Section Task2Properties.

Lemma uniform_candidate_shape l w :
  smiley_candidate l = Some w -> uniform_smiley w = true ->
  exists h d c n,
    w = h :: d ++ replicate (S n) c /\
    Char.one_of ":;" h = true /\ forallb (Ascii.eqb "-") d = true /\
    Char.one_of "()[]" c = true.
Proof.
  intros (h & d & c & b & -> & Hh & Hd & Hb)%smiley_candidate_Some Hu.
  cbn [forallb] in Hb. apply andb_true_iff in Hb as [Hc Hb].
  cbn [uniform_smiley] in Hu. destruct (drop_run_hyphens d c b Hd Hc) as [Hdr _].
  rewrite Hdr in Hu. apply andb_true_iff in Hu as [_ Hu].
  exists h, d, c, (length b). split; [|done]. do 2 f_equal.
  cbn [replicate]. f_equal. by apply forallb_eqb_replicate.
Qed.

(** X10 (Task2.py, [AdvancedTextAnalyzer._count_smileys]).  The candidates
    are, from left to right and without overlap, the places where a colon or
    a semicolon is followed by any number of hyphens and at least one
    bracket, with all the brackets that follow; the smileys stored are the
    candidates whose brackets are all the same one, [smiley_count] is their
    number, and each of them is a colon or semicolon, hyphens, and one or
    more copies of one bracket. *)
Theorem X10_valid_smileys :
  (forall self : Task2.analyzer,
     let candidates :=
       tokens_from (fun _ => smiley_candidate) 0 None (Task2.text self) in
     let valid := filter (fun w => uniform_smiley w) candidates in
     let results := Task2._results (Task2._count_smileys self) in
     results !! "smileys" = Some (PyList (PyStr <$> valid)) /\
     results !! "smiley_count" = Some (PyLen valid) /\
     Forall (fun w => exists h d c n,
               w = h :: d ++ replicate (S n) c /\
               Char.one_of ":;" h = true /\
               forallb (Ascii.eqb "-") d = true /\
               Char.one_of "()[]" c = true) valid) /\
  Task2.valid_smileys (lit "a :-)) b ;] :-)] :--( c") =
    [lit ":-))"; lit ";]"; lit ":--("].
Proof.
  split; [|by vm_compute]. intros self. cbn zeta.
  unfold Task2._count_smileys, Task2.store. cbn [Task2._results].
  rewrite valid_smileys_candidates.
  split; [by rewrite lookup_insert_ne, lookup_insert_eq|].
  split; [by rewrite lookup_insert_eq|].
  apply Forall_forall. intros w [Hu Hw]%list_elem_of_filter.
  pose proof (tokens_from_Forall (fun _ => smiley_candidate)
                (fun w => exists l, smiley_candidate l = Some w)
                ltac:(intros pv' l' w' H'; by exists l')
                (Task2.text self) 0 None) as Hall.
  rewrite Forall_forall in Hall. destruct (Hall w Hw) as [l Hl].
  apply (uniform_candidate_shape l w Hl). by apply Is_true_true_1.
Qed.

(** X11 (Task2.py, [BasicTextAnalyzer._classify_sentences]).  The three
    counters count stretches of the document, not sentences:
    [declarative_sentences] is the number of stretches between the
    characters [!] and [?] that hold a period, [interrogative_sentences] and
    [exclamatory_sentences] are the numbers of stretches between the periods
    that hold a [?], respectively a [!].  So "Hi. Bye." has two sentences and
    one declarative one. *)
Theorem X11_classification_counts_stretches :
  (forall self : Task2.analyzer,
     let text := Task2.text self in
     let results := Task2._results (Task2._classify_sentences self) in
     results !! "declarative_sentences" =
       Some (PyInt (Z.of_nat
         (marked_stretches not_exclamation_or_question "." text))) /\
     results !! "interrogative_sentences" =
       Some (PyInt (Z.of_nat (marked_stretches not_period "?" text))) /\
     results !! "exclamatory_sentences" =
       Some (PyInt (Z.of_nat (marked_stretches not_period "!" text)))) /\
  basic_entry (lit "Hi. Bye.") "total_sentences" = Some (PyInt 2) /\
  basic_entry (lit "Hi. Bye.") "declarative_sentences" = Some (PyInt 1).
Proof.
  split; [|by vm_compute]. intros self. cbn zeta.
  unfold Task2._classify_sentences, Task2.store. cbn [Task2._results].
  unfold Task2.declarative_re, Task2.interrogative_re, Task2.exclamatory_re.
  rewrite (count_marked not_exclamation_or_question "." _ eq_refl).
  rewrite (count_marked not_period "?" _ eq_refl).
  rewrite (count_marked not_period "!" _ eq_refl).
  split; [do 2 rewrite lookup_insert_ne by done; apply lookup_insert_eq|].
  split; [rewrite lookup_insert_ne by done; apply lookup_insert_eq|].
  apply lookup_insert_eq.
Qed.

(** X12 (Task2.py, [_calculate_avg_sentence_length] and
    [_calculate_avg_word_length]).  Both averages have the same dividend, the
    number of word characters of the document: the first divides it by the
    number of sentences, the second by the number of runs of word
    characters.  Without a sentence, respectively without a word, the entry
    is the integer 0. *)
Theorem X12_basic_averages (self : Task2.analyzer) :
  let text := Task2.text self in
  Task2._results (Task2._calculate_avg_sentence_length self)
    !! "avg_sentence_length" =
    Some (match segment_ref text with
          | [] => PyInt 0
          | ss => PyFloat (FDiv (Z.of_nat (word_chars text))
                                (Z.of_nat (length ss)))
          end) /\
  Task2._results (Task2._calculate_avg_word_length self)
    !! "avg_word_length" =
    Some (match word_runs text with
          | [] => PyInt 0
          | ws => PyFloat (FDiv (Z.of_nat (word_chars text))
                                (Z.of_nat (length ws)))
          end) /\
  (word_runs text = [] <-> word_chars text = 0) /\
  length (word_runs text) <= word_chars text.
Proof.
  cbn zeta. unfold Task2._calculate_avg_sentence_length,
    Task2._calculate_avg_word_length.
  rewrite total_word_chars, count_sentences_ref, findall_Task2_words,
    sum_len_word_runs.
  split; [destruct (segment_ref _); apply lookup_insert_eq|].
  split; [destruct (word_runs _); apply lookup_insert_eq|].
  pose proof (words_from_Forall (fun _ => true) (Task2.text self) false) as Hall.
  fold (word_runs (Task2.text self)) in Hall.
  assert (Hne : Forall (fun w : str => w <> []) (word_runs (Task2.text self))).
  { eapply Forall_impl; [exact Hall|]. by intros w [? _]. }
  apply sum_len_ge in Hne.
  change (TextAnalyzer.sum_len (word_runs (Task2.text self)))
    with (Task2.sum_len (word_runs (Task2.text self))) in Hne.
  rewrite sum_len_word_runs in Hne. split; [|done].
  rewrite <- (sum_len_word_runs (Task2.text self)).
  destruct (word_runs (Task2.text self)) as [|w ws]; [done|].
  split; [done|]. apply Forall_cons in Hall as [[Hw _] _].
  destruct w; [done|]. simpl. lia.
Qed.

(** X13 (Task2.py, [AdvancedTextAnalyzer._analyze_words]).  The words are
    the maximal runs of word characters of the lower-cased document.
    [duplicate_words] lists, without duplicates and in order of first
    occurrence, exactly the words that occur at least twice;
    [shortest_i_word] is [None] when no word starts with [i], and else the
    first of the shortest words that do. *)
Theorem X13_word_analysis (self : Task2.analyzer) :
  let words := word_runs (PyStr.lower (Task2.text self)) in
  let i_words := filter (fun w => PyStr.startswith w "i") words in
  let duplicates :=
    filter (fun w => 2 <= occurrences w words) (first_occurrences words) in
  let results := Task2._results (Task2._analyze_words self) in
  results !! "odd_length_words" =
    Some (PyList (PyStr <$> filter (fun w => length w `mod` 2 <> 0) words)) /\
  results !! "duplicate_words" = Some (PyList (PyStr <$> duplicates)) /\
  NoDup duplicates /\
  (forall w, w ∈ duplicates <-> 2 <= occurrences w words) /\
  match i_words with
  | [] => results !! "shortest_i_word" = Some PyNone
  | _ :: _ =>
      exists best before after,
        results !! "shortest_i_word" = Some (PyStr best) /\
        i_words = before ++ best :: after /\
        Forall (fun w => length best < length w) before /\
        Forall (fun w => length best <= length w) after
  end.
Proof.
  cbn zeta. unfold Task2._analyze_words, Task2.store, Task2.word_counts.
  cbn [Task2._results]. rewrite findall_Task2_words, repeated_spec.
  split; [do 2 rewrite lookup_insert_ne by done; apply lookup_insert_eq|].
  split; [by rewrite lookup_insert_eq|].
  split; [apply NoDup_filter, NoDup_first_occurrences|].
  split.
  { intros w. rewrite list_elem_of_filter, elem_of_first_occurrences.
    split; [by intros [? _]|]. intros H. split; [done|].
    apply occurrences_elem_of. lia. }
  rewrite lookup_insert_ne, lookup_insert_eq by done.
  destruct (filter _ (word_runs _)) as [|x l]; [done|].
  destruct (min_by_len_spec x l) as (l1 & l2 & Hl & H1 & H2). cbn zeta in *.
  eexists _, l1, l2. split; [done|]. done.
Qed.

Lemma text_basic_steps self :
  Task2.text (Task2._count_sentences self) = Task2.text self /\
  Task2.text (Task2._classify_sentences self) = Task2.text self /\
  Task2.text (Task2._calculate_avg_sentence_length self) = Task2.text self /\
  Task2.text (Task2._calculate_avg_word_length self) = Task2.text self.
Proof.
  split; [done|]. split; [done|].
  unfold Task2._calculate_avg_sentence_length, Task2._calculate_avg_word_length.
  split; [by destruct (Task2.stripped_nonempty _)|by destruct (findall_str _ _)].
Qed.

Lemma text_basic self :
  Task2.text (Task2._calculate_avg_word_length
                (Task2._calculate_avg_sentence_length
                   (Task2._classify_sentences (Task2._count_sentences self)))) =
  Task2.text self.
Proof.
  destruct (text_basic_steps self) as (H1 & _).
  destruct (text_basic_steps (Task2._count_sentences self)) as (_ & H2 & _).
  destruct (text_basic_steps (Task2._classify_sentences (Task2._count_sentences self)))
    as (_ & _ & H3 & _).
  destruct (text_basic_steps
              (Task2._calculate_avg_sentence_length
                 (Task2._classify_sentences (Task2._count_sentences self))))
    as (_ & _ & _ & H4).
  by rewrite H4, H3, H2, H1.
Qed.

(** X14 (Task2.py, the setter of [text], [BasicTextAnalyzer.analyze] and
    [AdvancedTextAnalyzer.analyze]).  For a string, the empty one included,
    [analyze] succeeds, stores the string, and returns the dictionary it
    stores, which holds exactly the six, respectively thirteen, keys of the
    analysis and does not depend on what the instance held before; for any
    other value it raises [ValueError]. *)
Theorem X14_analyze_starts_afresh (self : Task2.analyzer) (v : pyval) :
  match v with
  | PyStr s =>
      exists basic advanced self1 self2,
        Task2.basic_analyze self v = Ok (basic, self1) /\
        Task2.analyze self v = Ok (advanced, self2) /\
        Task2.text self1 = s /\ Task2.text self2 = s /\
        Task2._results self1 = basic /\ Task2._results self2 = advanced /\
        dom basic =
          list_to_set ["avg_word_length"; "avg_sentence_length";
                       "exclamatory_sentences"; "interrogative_sentences";
                       "declarative_sentences"; "total_sentences"] /\
        dom advanced =
          list_to_set ["smiley_count"; "smileys"; "duplicate_words";
                       "shortest_i_word"; "odd_length_words";
                       "substituted_text"; "emails"] ∪ dom basic /\
        Task2.basic_analyze Task2.__init__ v = Ok (basic, self1) /\
        Task2.analyze Task2.__init__ v = Ok (advanced, self2)
  | _ =>
      Task2.basic_analyze self v = Raise ValueError /\
      Task2.analyze self v = Raise ValueError
  end.
Proof.
  destruct v as [| | | |s| | |]; try done.
  unfold Task2.analyze, Task2.basic_analyze. cbn [Task2.set_text mbind result_bind].
  eexists _, _, _, _. split; [reflexivity|]. split; [reflexivity|].
  split; [apply text_basic|]. split; [apply text_basic|].
  split; [reflexivity|]. split; [reflexivity|].
  split; [|split; [|split; reflexivity]].
  - unfold Task2._calculate_avg_word_length, Task2._calculate_avg_sentence_length,
      Task2._classify_sentences, Task2._count_sentences, Task2.store.
    cbn [Task2._results Task2._text Task2.text].
    destruct (findall_str _ _), (Task2.stripped_nonempty _);
      cbn [Task2._results Task2._text Task2.text];
      rewrite !dom_insert_L, dom_empty_L; reflexivity.
  - unfold Task2._count_smileys, Task2._analyze_words, Task2._substitute_variables,
      Task2._extract_emails, Task2.store.
    cbn [Task2._results Task2._text Task2.text].
    rewrite !dom_insert_L. cbn [list_to_set].
    rewrite <- !(assoc_L (∪)). do 7 f_equal. symmetry. apply (left_id_L ∅ (∪)).
Qed.

End Task2Properties.

Section Console.
Import BaseTextAnalyzer.



(** X16 (file_handler.py, [select_file]).  The loop reads the lines typed
    until one is 0 or a number from 1 to the number of files: lines that are
    no integers or lie outside that range are asked again.  At 0 it raises
    the [ValueError] of a cancelled operation; otherwise it returns the file
    at that place of the list (the index is in range, [IndexError] cannot
    occur); when the input ends first, [input] raises [EOFError].  With an
    empty list no file is ever returned. *)
Theorem X16_select_file (files : list string) (typed : list typed_int) :
  match FileHandler.select_file files typed with
  | Return (file, rest) =>
      exists again choice,
        typed = again ++ Some choice :: rest /\
        Forall (asked_again files) again /\
        (1 <= choice <= Z.of_nat (length files))%Z /\
        files !! Z.to_nat (choice - 1) = Some file /\
        file ∈ files
  | Throw (ValueError_with message) =>
      message = FileHandler.cancelled /\
      exists again rest,
        typed = again ++ Some 0%Z :: rest /\ Forall (asked_again files) again
  | Throw EOFError => Forall (asked_again files) typed
  | Throw _ => False
  end.
Proof.
  induction typed as [|x typed IH]; [constructor|].
  cbn [FileHandler.select_file]. destruct x as [choice|].
  - destruct (Z.eqb_spec choice 0) as [->|Hz].
    { split; [done|]. by exists [], typed. }
    destruct ((1 <=? choice)%Z && (choice <=? Z.of_nat (length files))%Z) eqn:Hr.
    + apply andb_true_iff in Hr as [H1%Z.leb_le H2%Z.leb_le].
      destruct (files !! Z.to_nat (choice - 1)) as [file|] eqn:Hf.
      * exists [], choice. split; [done|]. split; [constructor|].
        split; [done|]. split; [done|]. by eapply list_elem_of_lookup_2.
      * apply lookup_ge_None in Hf. lia.
    + assert (Ha : asked_again files (Some choice)).
      { split; [done|]. intros [H1%Z.leb_le H2%Z.leb_le]. by rewrite H1, H2 in Hr. }
      destruct (FileHandler.select_file files typed) as [[file rest]|[]];
        try done.
      * destruct IH as (again & c & -> & Hag & Hc & Hf & Hin).
        exists (Some choice :: again), c. split; [done|].
        split; [by constructor|done].
      * destruct IH as (-> & again & rest & -> & Hag).
        split; [done|]. exists (Some choice :: again), rest.
        split; [done|by constructor].
      * by constructor.
  - destruct (FileHandler.select_file files typed) as [[file rest]|[]]; try done.
    + destruct IH as (again & c & -> & Hag & Hc & Hf & Hin).
      exists (None :: again), c. split; [done|]. split; [by constructor|done].
    + destruct IH as (-> & again & rest & -> & Hag).
      split; [done|]. exists (None :: again), rest. split; [done|by constructor].
    + by constructor.
Qed.

(** X17 (Task2.py, [UserInterface.get_user_choice]).  The loop reads the
    lines typed until one is an integer from [min_value] to [max_value] and
    returns that integer: what it returns lies in the range, and the lines
    before it were no integers or lay outside it.  No [ValueError] leaves the
    loop; when the input ends first, [input] raises [EOFError]. *)
Theorem X17_get_user_choice (min_value max_value : Z) (typed : list typed_int) :
  match UserInterface.get_user_choice min_value max_value typed with
  | Return (choice, rest) =>
      (min_value <= choice <= max_value)%Z /\
      exists again,
        typed = again ++ Some choice :: rest /\
        Forall (out_of_range min_value max_value) again
  | Throw EOFError => Forall (out_of_range min_value max_value) typed
  | Throw _ => False
  end.
Proof.
  induction typed as [|x typed IH]; [constructor|].
  cbn [UserInterface.get_user_choice]. destruct x as [choice|].
  - destruct ((min_value <=? choice)%Z && (choice <=? max_value)%Z) eqn:Hr.
    + apply andb_true_iff in Hr as [H1%Z.leb_le H2%Z.leb_le].
      split; [done|]. by exists [].
    + assert (Ha : out_of_range min_value max_value (Some choice)).
      { intros [H1%Z.leb_le H2%Z.leb_le]. by rewrite H1, H2 in Hr. }
      destruct (UserInterface.get_user_choice min_value max_value typed)
        as [[c rest]|[]]; try done.
      * destruct IH as (Hc & again & -> & Hag). split; [done|].
        exists (Some choice :: again). split; [done|by constructor].
      * by constructor.
  - destruct (UserInterface.get_user_choice min_value max_value typed)
      as [[c rest]|[]]; try done.
    + destruct IH as (Hc & again & -> & Hag). split; [done|].
      exists (None :: again). split; [done|by constructor].
    + by constructor.
Qed.

End Console.

Section Interface.
Import BaseTextAnalyzer.

(** X18 (Task2.py, [AdvancedTextAnalyzer._extract_emails]; text_analyzer.py,
    [get_emails_and_names]).  Every address extracted is well formed: a
    non-empty local part, [@], a non-empty host, a period and an ending of at
    least two characters, each part made of the characters of its class (the
    ending of [AdvancedTextAnalyzer] may hold [|], which its class
    [[A-Z|a-z]] allows).  The display name that [get_emails_and_names] puts
    beside an address is trimmed and holds none of [<], [>], [:] and the
    line feed. *)
Theorem X18_extracted_addresses_are_well_formed :
  (forall self : Task2.analyzer,
     Task2._results (Task2._extract_emails self) !! "emails" =
       Some (PyList ((fun e => PyDict (<["domain" := PyStr e.2]>
                                        (<["username" := PyStr e.1]> ∅)))
                       <$> Task2.email_tuples (Task2.text self))) /\
     Forall (fun e : str * str =>
               exists host ending,
                 e.2 = host ++ "."%char :: ending /\
                 e.1 <> [] /\ forallb Task2.local_char e.1 = true /\
                 host <> [] /\ forallb Task2.domain_char host = true /\
                 2 <= length ending /\ forallb Task2.tld_char ending = true)
       (Task2.email_tuples (Task2.text self))) /\
  (forall self : analyzer,
     Forall (fun entry : option str * str =>
               (exists local host ending,
                  entry.1 =
                    Some (local ++ "@"%char :: host ++ "."%char :: ending) /\
                  local <> [] /\ forallb TextAnalyzer.local_char local = true /\
                  host <> [] /\ forallb TextAnalyzer.domain_char host = true /\
                  2 <= length ending /\
                  forallb TextAnalyzer.az_char ending = true) /\
               forallb TextAnalyzer.name_char entry.2 = true /\
               PyStr.strip entry.2 = entry.2)
       (TextAnalyzer.get_emails_and_names self)) /\
  Task2.email_tuples (lit "to x@y.c|m now") = [(lit "x", lit "y.c|m")] /\
  TextAnalyzer.get_emails_and_names (fresh (lit "Ann Lee <ann@lee.org>, x@y.cm")) =
    [(Some (lit "ann@lee.org"), lit "Ann Lee"); (Some (lit "x@y.cm"), [])].
Proof.
  split; [|split; [|by vm_compute]].
  - intros self. split; [apply lookup_insert_eq|apply email_tuples_shape].
  - apply emails_and_names_shape.
Qed.

Lemma analyze_total self :
  exists report self', TextAnalyzer.analyze self = Ok (report, self') /\
    text self' = text self.
Proof.
  destruct (sentences_ok self) as (ss & self1 & Hs & Ht & Hc & _).
  rewrite (analyze_after_sentences self ss self1 Hs Hc).
  destruct (analyze_cached self1 ss Hc) as [report Ha].
  by exists report, self1.
Qed.

Lemma read_lines_spec : forall typed lines,
  Forall (fun line : str => line <> []) lines ->
  match UserInterface.read_lines typed lines with
  | Return (lines', rest) =>
      exists more,
        lines' = lines ++ more /\ typed = more ++ [] :: rest /\
        Forall (fun line : str => line <> []) lines'
  | Throw EOFError => Forall (fun line : str => line <> []) typed
  | Throw _ => False
  end.
Proof.
  induction typed as [|line typed IH]; intros lines Hl; [constructor|].
  cbn [UserInterface.read_lines]. destruct line as [|c line]; cbn [PyStr.truthy negb].
  { exists []. by rewrite app_nil_r. }
  specialize (IH (lines ++ [c :: line])).
  destruct (UserInterface.read_lines typed _) as [[lines' rest]|e].
  - destruct IH as (more & -> & -> & Hall).
    { apply Forall_app. split; [done|]. by constructor. }
    exists ((c :: line) :: more). by rewrite <- app_assoc in *.
  - destruct e; try (apply IH; apply Forall_app; split; [done|by constructor]).
    constructor; [done|]. apply IH. apply Forall_app. split; [done|by constructor].
Qed.

Lemma join_lines_nonempty lines :
  lines <> [] -> Forall (fun line : str => line <> []) lines ->
  UserInterface.join_lines lines <> [].
Proof.
  destruct lines as [|line lines]; [done|]. intros _ [Hl _]%Forall_cons.
  cbn [UserInterface.join_lines]. destruct lines; [done|]. by destruct line.
Qed.

(** X19 (Task2.py, [UserInterface.input_text] and [process_text]).  The
    lines typed are read up to the first empty one (without one, [input]
    raises [EOFError]).  When that is the first line, the constructor's
    [ValueError] is handled and the analyzer and the results of the
    interface stay as they were; otherwise the analyzer is replaced by one
    for the lines joined by line feeds, a non-empty document, and the
    results are those of its analysis. *)
Theorem X19_input_text (self : UserInterface.ui) (typed : list str) :
  match UserInterface.input_text self typed with
  | Return (self', rest) =>
      exists lines,
        typed = lines ++ [] :: rest /\
        Forall (fun line : str => line <> []) lines /\
        match lines with
        | [] => self' = self
        | _ :: _ =>
            exists a report,
              UserInterface.analyzer self' = Some a /\
              UserInterface.results self' = Some report /\
              text a = UserInterface.join_lines lines /\
              text a <> [] /\
              TextAnalyzer.analyze (fresh (UserInterface.join_lines lines)) =
                Ok (report, a)
        end
  | Throw EOFError => Forall (fun line : str => line <> []) typed
  | Throw _ => False
  end.
Proof.
  unfold UserInterface.input_text.
  pose proof (read_lines_spec typed [] ltac:(constructor)) as Hr.
  destruct (UserInterface.read_lines typed []) as [[lines rest]|e]; [|done].
  destruct Hr as (more & -> & -> & Hall). cbn [app] in *. cbn zeta.
  rewrite __init___spec.
  destruct more as [|line more].
  { exists []. by split. }
  pose proof (join_lines_nonempty (line :: more) ltac:(done) Hall) as Hne.
  destruct (UserInterface.join_lines (line :: more)) as [|c s] eqn:Hj; [done|].
  exists (line :: more). split; [done|]. split; [done|].
  unfold UserInterface.process_text. cbn [UserInterface.analyzer].
  destruct (analyze_total {| _text := c :: s; _cached_sentences := None |})
    as (report & a & Ha & Ht).
  rewrite Ha. exists a, report. cbn [UserInterface.analyzer UserInterface.results].
  rewrite Hj. split; [done|]. split; [done|]. split; [done|].
  split; [by rewrite Ht|done].
Qed.

End Interface.

Section SubstitutionOnce.
Import BaseTextAnalyzer.

Lemma variable_at_intro x l2 :
  alphanumeric x = true ->
  variable_at (lit "$v_(" ++ x :: lit ")$" ++ l2) = Some (x, l2).
Proof. intros Hx. unfold variable_at. simpl. by rewrite Hx. Qed.

Lemma variable_at_alphanumeric l x l2 :
  variable_at l = Some (x, l2) -> alphanumeric x = true.
Proof.
  unfold variable_at.
  destruct (PyStr.strip_prefix (lit "$v_(") l) as [[|y l1]|]; try done.
  destruct (alphanumeric y) eqn:Hy; [|done].
  destruct (PyStr.strip_prefix (lit ")$") l1); [|done]. by intros [= <- _].
Qed.

(** One step of the substitution: an occurrence is replaced and passed
    over, any other character is copied. *)
Lemma substitute_step l :
  substitute_from 0 l =
  match variable_at l with
  | Some (x, l2) => lit "v[" ++ [x] ++ lit "]" ++ substitute_from 0 l2
  | None =>
      match l with
      | [] => []
      | c :: l' => c :: substitute_from 0 l'
      end
  end.
Proof.
  destruct l as [|c l']; [done|]. cbn [substitute_from].
  destruct (variable_at (c :: l')) as [[x l2]|] eqn:Hv; [|done].
  apply variable_at_Some in Hv. injection Hv as -> ->.
  change (substitute_from 6 _) with
    (substitute_from (length (lit "v_(" ++ x :: lit ")$"))
       ((lit "v_(" ++ x :: lit ")$") ++ l2)).
  by rewrite substitute_from_skip.
Qed.

(** A character of the result that does not start a replacement is a copy
    of the character at its place. *)
Lemma substitute_copy l a out :
  substitute_from 0 l = a :: out ->
  (a <> "v"%char \/ match out with b :: _ => b <> "["%char | [] => True end) ->
  exists l', l = a :: l' /\ substitute_from 0 l' = out.
Proof.
  rewrite substitute_step. destruct (variable_at l) as [[x l2]|].
  - intros [= <- <-]. by intros [?|?].
  - destruct l as [|c l']; [done|]. intros [= -> <-] _. by exists l'.
Qed.

(** The result of the substitution holds no occurrence. *)
Lemma substitute_no_occurrence n : forall l, length l <= n ->
  forall i, variable_at (drop i (substitute_from 0 l)) = None.
Proof.
  induction n as [n IH] using lt_wf_ind. intros l Hn i.
  rewrite substitute_step.
  destruct (variable_at l) as [[x l2]|] eqn:Hv.
  - pose proof (variable_at_alphanumeric _ _ _ Hv) as Hx.
    apply variable_at_Some in Hv as ->.
    assert (Hlen : length l2 < n).
    { rewrite length_app in Hn. simpl in Hn. lia. }
    destruct i as [|[|[|[|i]]]]; cbn [drop app lit list_ascii_of_string].
    + done.
    + done.
    + unfold variable_at. cbn [PyStr.strip_prefix lit list_ascii_of_string].
      destruct (Ascii.eqb_spec "$" x) as [<-|]; [done|done].
    + done.
    + apply (IH (length l2)); [done|lia].
  - destruct l as [|c l']; [by destruct i|].
    destruct i as [|i]; cbn [drop];
      [|apply (IH (length l')); simpl in Hn; lia].
    destruct (variable_at (c :: substitute_from 0 l')) as [[x r]|] eqn:Ho; [|done].
    exfalso. pose proof (variable_at_alphanumeric _ _ _ Ho) as Hx.
    apply variable_at_Some in Ho. cbn [lit list_ascii_of_string app] in Ho.
    injection Ho as -> Ho.
    apply substitute_copy in Ho as (l1 & -> & Ho); [|by right].
    apply substitute_copy in Ho as (l2 & -> & Ho); [|by left].
    apply substitute_copy in Ho as (l3 & -> & Ho); [|by left].
    apply substitute_copy in Ho as (l4 & -> & Ho); [|by right].
    apply substitute_copy in Ho as (l5 & -> & Ho); [|by left].
    apply substitute_copy in Ho as (l6 & -> & Ho); [|by left].
    pose proof (variable_at_intro x l6 Hx) as Hi.
    cbn [lit list_ascii_of_string app] in Hi. congruence.
Qed.


Lemma substitute_length n : forall l, length l <= n ->
  length (substitute_from 0 l) <= length l.
Proof.
  induction n as [n IH] using lt_wf_ind. intros l Hn.
  rewrite substitute_step.
  destruct (variable_at l) as [[x l2]|] eqn:Hv.
  - apply variable_at_Some in Hv as ->.
    cbn [length lit list_ascii_of_string app] in *.
    pose proof (IH (length l2) ltac:(lia) l2 ltac:(lia)). lia.
  - destruct l as [|c l']; [done|]. simpl in *.
    pose proof (IH (length l') ltac:(lia) l' ltac:(lia)). lia.
Qed.

Lemma replace_math_vars_substitute self :
  TextAnalyzer.replace_math_vars self = substitute_from 0 (text self).
Proof.
  unfold TextAnalyzer.replace_math_vars, sub.
  apply (sub_variable _ _ (or_introl eq_refl)) with (n := length (text self));
    [done | done | unfold scan_fuel; lia].
Qed.

Lemma substituted_text_substitute text :
  Task2.substituted_text text = substitute_from 0 text.
Proof.
  unfold Task2.substituted_text, sub.
  apply (sub_variable _ _ (or_intror eq_refl)) with (n := length text);
    [done | done | unfold scan_fuel; lia].
Qed.

(** X20 (text_analyzer.py, [replace_math_vars]; Task2.py,
    [AdvancedTextAnalyzer._substitute_variables]).  The text returned holds
    no occurrence of [$v_(X)$] any more, at any place (a replacement never
    makes a new occurrence with the text around it): substituting again
    changes nothing.  The text returned is not longer than the document. *)
Theorem X20_substitution_leaves_no_occurrence :
  (forall self : analyzer,
     let out := TextAnalyzer.replace_math_vars self in
     (forall i, variable_at (drop i out) = None) /\
     (forall again : analyzer,
        text again = out -> TextAnalyzer.replace_math_vars again = out) /\
     length out <= length (text self)) /\
  (forall self : Task2.analyzer,
     let out := Task2.substituted_text (Task2.text self) in
     Task2._results (Task2._substitute_variables self) !! "substituted_text" =
       Some (PyStr out) /\
     (forall i, variable_at (drop i out) = None) /\
     Task2.substituted_text out = out /\
     length out <= length (Task2.text self)) /\
  TextAnalyzer.replace_math_vars (fresh (lit "$v_($v_(a)$)$ $$v_(b)$v_(c)$")) =
    lit "$v_(v[a])$ $v[b]v_(c)$".
Proof.
  split; [|split; [|by vm_compute]].
  - intros self. cbn zeta. rewrite replace_math_vars_substitute.
    pose proof (substitute_no_occurrence (length (text self)) (text self) (le_n _))
      as Hno.
    split; [done|]. split; [|by apply (substitute_length (length (text self)))].
    intros again Ht. rewrite replace_math_vars_substitute, Ht.
    by apply substitute_ref_no_occurrence.
  - intros self. cbn zeta. rewrite !substituted_text_substitute.
    pose proof (substitute_no_occurrence (length (Task2.text self))
                  (Task2.text self) (le_n _)) as Hno.
    split.
    { unfold Task2._substitute_variables, Task2.store. cbn [Task2._results].
      by rewrite substituted_text_substitute, lookup_insert_eq. }
    split; [done|].
    split; [by apply substitute_ref_no_occurrence|].
    by apply (substitute_length (length (Task2.text self))).
Qed.

End SubstitutionOnce.
